(** * Endless runner: the per-frame game loop, its two variants, and their properties

    The repository holds the game loop twice: once inside the [Game] component
    of [components/game.tsx] (module [Monolith] below, the component that
    [app/page.tsx] mounts) and once as the [useGameLogic] hook of the game
    logic module (module [Logic] below).  Both are embedded here, function by
    function, over a common model of the Babylon meshes they mutate.

    Numbers.  JavaScript numbers are IEEE doubles; the specification's data
    model reads positions and speeds as real numbers.  Modules [Monolith] and
    [Logic] read a number as an exact rational ([Q]), kept in lowest terms by
    every arithmetic operation so that runs of many frames evaluate.  Module
    [Double] embeds the two loops a second time over binary64 floats, with
    the rounded operations and the comparisons of IEEE 754; the properties
    that turn on the last bit of a position (the frame in which an obstacle
    crosses the rear threshold, the spacing of the ground segments) are
    stated there.  Counters that only ever hold integers (score, perfect-run
    counter, lane index) are [Z].

    Around the loops.  Module [Component] embeds what the [Game] component
    renders and the events that reach it, module [GameUI] the panels of the
    overlay module, module [Controls] the keyboard handler of the input
    module. *)

From Stdlib Require Import PrimFloat FloatOps.
From Stdlib Require Import Strings.String.
From Stdlib Require Import ZArith QArith Qminmax Qabs Qround Lqa Lia List Bool.
From stdpp Require Import base list.

Set Warnings "-inexact-float".

Open Scope Q_scope.

(** ** JavaScript arithmetic on numbers *)

Definition number : Set := Q.

Declare Scope js_scope.
Delimit Scope js_scope with js.
Bind Scope js_scope with number.

Module Num.
Definition add (a b : number) : number := Qred (a + b)%Q.
Definition sub (a b : number) : number := Qred (a - b)%Q.
Definition mul (a b : number) : number := Qred (a * b)%Q.
Definition div (a b : number) : number := Qred (a / b)%Q.
(** [a < b] and [a >= b] as the booleans JavaScript computes. *)
Definition lt (a b : number) : bool := negb (Qle_bool b a).
Definition ge (a b : number) : bool := Qle_bool b a.
(** [Math.abs], [Math.min], [Math.max], [Math.pow(_, 3)], [Math.floor]. *)
Definition abs (a : number) : number := Qabs a.
Definition min (a b : number) : number := Qmin a b.
Definition max (a b : number) : number := Qmax a b.
Definition pow3 (a : number) : number := Qred (a ^ 3)%Q.
Definition floor (a : number) : Z := Qfloor a.
(** An integer counter read as a number. *)
Definition of_int (n : Z) : number := inject_Z n.
End Num.

Notation "a + b" := (Num.add a b) : js_scope.
Notation "a - b" := (Num.sub a b) : js_scope.
Notation "a * b" := (Num.mul a b) : js_scope.
Notation "a / b" := (Num.div a b) : js_scope.
Notation "a <? b" := (Num.lt a b) (at level 70) : js_scope.
Notation "a >=? b" := (Num.ge a b) (at level 70) : js_scope.

(** ** The slice of Babylon the loop touches: vectors and meshes *)

Module Babylon.
Record Vector3 := mkVector3 { x : number; y : number; z : number }.

(** A mesh carries a position, a scaling and, for the obstacles of the
    monolithic component, [metadata.spawnTime]: [Some t] is a millisecond
    stamp, [None] is [null] or no metadata at all. *)
Record Mesh := mkMesh {
  position : Vector3;
  scaling : Vector3;
  spawnTime : option Z
}.

Definition set_x (v : Vector3) (a : number) : Vector3 := mkVector3 a (y v) (z v).
Definition set_y (v : Vector3) (a : number) : Vector3 := mkVector3 (x v) a (z v).
Definition set_z (v : Vector3) (a : number) : Vector3 := mkVector3 (x v) (y v) a.

Definition set_position (m : Mesh) (p : Vector3) : Mesh :=
  mkMesh p (scaling m) (spawnTime m).
Definition set_scaling (m : Mesh) (s : Vector3) : Mesh :=
  mkMesh (position m) s (spawnTime m).
Definition set_spawnTime (m : Mesh) (t : option Z) : Mesh :=
  mkMesh (position m) (scaling m) t.

(** [MeshBuilder.CreateBox] followed by [mesh.position = new Vector3(..)]:
    unit scaling, no metadata. *)
Definition CreateBox (p : Vector3) : Mesh := mkMesh p (mkVector3 1 1 1) None.

(** [mesh.position.z = a], the in-place write both loops perform. *)
Definition move_z (m : Mesh) (a : number) : Mesh := set_position m (set_z (position m) a).
End Babylon.
Import Babylon.

(** ** [Array.prototype.forEach] over an array the callback may mutate

    The callback receives the element, its index and the store, and returns the
    store; the array is read back from the store at every index, so a [splice]
    made by the callback shifts what the following indices see.  The bound is
    the length at the start, and an index that is no longer present is passed
    over, as in ECMAScript. *)

Section ForEach.
Context {St A : Type}.
Variable arr : St -> list A.
Variable callback : A -> nat -> St -> St.

Fixpoint forEach_from (n k : nat) (st : St) : St :=
  match n with
  | O => st
  | S n' =>
      match arr st !! k with
      | Some a => forEach_from n' (S k) (callback a k st)
      | None => forEach_from n' (S k) st
      end
  end.

Definition forEach (st : St) : St := forEach_from (length (arr st)) 0 st.
End ForEach.

(** The same pass read off the list instead of the indices.  [visit] says what
    a callback does with the element it is given at index [k]: hand back the
    element it leaves in the slot, or drop the slot, together with the rest of
    the store.  After a drop the next element has slid into index [k] and the
    pass moves on to index [k + 1], so that element is never visited. *)
Section Walk.
Context {St A : Type}.
Variable visit : A -> nat -> St -> option A * St.

Fixpoint walk (k : nat) (l : list A) (st : St) : list A * St :=
  match l with
  | [] => ([], st)
  | a :: l1 =>
      match visit a k st with
      | (Some a', st1) =>
          let '(r, st2) := walk (S k) l1 st1 in (a' :: r, st2)
      | (None, st1) =>
          match l1 with
          | [] => ([], st1)
          | b :: l2 =>
              let '(r, st2) := walk (S k) l2 st1 in (b :: r, st2)
          end
      end
  end.
End Walk.

(** [lanes[Math.floor(Math.random() * lanes.length)]] over [[-2, 0, 2]].  A
    draw of [Math.random] lies in [0, 1), which keeps the index inside the
    array; outside that range JavaScript would read [undefined], for which
    this model has no value and returns the centre lane.  The product is
    exact here; the code rounds it, so that the largest draw below one third
    picks the centre lane there and the left lane here.  [Double.randomLane]
    is the rounded one. *)
Definition lanes : list number := [-2; 0; 2].

Definition randomLane (r : number) : number :=
  let i := Num.floor (r * Num.of_int (Z.of_nat (length lanes)))%js in
  if (i <? 0)%Z then 0 else nth (Z.to_nat i) lanes 0.

(** ** The monolithic component, [components/game.tsx] *)

Module Monolith.
Local Open Scope js_scope.

(** The React state object shown by the overlay. *)
Record GameState := mkGameState {
  isPlaying : bool;
  isGameOver : bool;
  score : Z;
  speed : number
}.

(** The refs and state cells of [Game].  [sceneRef] records whether the
    scene exists, [animationRef] whether it holds a frame request. *)
Record State := mkState {
  sceneRef : bool;
  playerRef : option Mesh;
  obstaclesRef : list Mesh;
  groundRef : list Mesh;
  animationRef : bool;
  gameState : GameState;
  playerPosition : Z;
  isJumping : bool;
  speedRef : number;
  scoreRef : Z;
  isPlayingRef : bool
}.

Definition set_sceneRef (st : State) (v : bool) : State :=
  mkState v (playerRef st) (obstaclesRef st) (groundRef st) (animationRef st)
    (gameState st) (playerPosition st) (isJumping st) (speedRef st) (scoreRef st)
    (isPlayingRef st).
Definition set_playerRef (st : State) (v : option Mesh) : State :=
  mkState (sceneRef st) v (obstaclesRef st) (groundRef st) (animationRef st)
    (gameState st) (playerPosition st) (isJumping st) (speedRef st) (scoreRef st)
    (isPlayingRef st).
Definition set_obstaclesRef (st : State) (v : list Mesh) : State :=
  mkState (sceneRef st) (playerRef st) v (groundRef st) (animationRef st)
    (gameState st) (playerPosition st) (isJumping st) (speedRef st) (scoreRef st)
    (isPlayingRef st).
Definition set_groundRef (st : State) (v : list Mesh) : State :=
  mkState (sceneRef st) (playerRef st) (obstaclesRef st) v (animationRef st)
    (gameState st) (playerPosition st) (isJumping st) (speedRef st) (scoreRef st)
    (isPlayingRef st).
Definition set_animationRef (st : State) (v : bool) : State :=
  mkState (sceneRef st) (playerRef st) (obstaclesRef st) (groundRef st) v
    (gameState st) (playerPosition st) (isJumping st) (speedRef st) (scoreRef st)
    (isPlayingRef st).
Definition set_gameState (st : State) (v : GameState) : State :=
  mkState (sceneRef st) (playerRef st) (obstaclesRef st) (groundRef st) (animationRef st)
    v (playerPosition st) (isJumping st) (speedRef st) (scoreRef st)
    (isPlayingRef st).
Definition set_playerPosition (st : State) (v : Z) : State :=
  mkState (sceneRef st) (playerRef st) (obstaclesRef st) (groundRef st) (animationRef st)
    (gameState st) v (isJumping st) (speedRef st) (scoreRef st)
    (isPlayingRef st).
Definition set_isJumping (st : State) (v : bool) : State :=
  mkState (sceneRef st) (playerRef st) (obstaclesRef st) (groundRef st) (animationRef st)
    (gameState st) (playerPosition st) v (speedRef st) (scoreRef st)
    (isPlayingRef st).
Definition set_speedRef (st : State) (v : number) : State :=
  mkState (sceneRef st) (playerRef st) (obstaclesRef st) (groundRef st) (animationRef st)
    (gameState st) (playerPosition st) (isJumping st) v (scoreRef st)
    (isPlayingRef st).
Definition set_scoreRef (st : State) (v : Z) : State :=
  mkState (sceneRef st) (playerRef st) (obstaclesRef st) (groundRef st) (animationRef st)
    (gameState st) (playerPosition st) (isJumping st) (speedRef st) v
    (isPlayingRef st).
Definition set_isPlayingRef (st : State) (v : bool) : State :=
  mkState (sceneRef st) (playerRef st) (obstaclesRef st) (groundRef st) (animationRef st)
    (gameState st) (playerPosition st) (isJumping st) (speedRef st) (scoreRef st)
    v.

(** What one frame reads from outside: the clock seen by the obstacle
    callback at each index, the two [Math.random] draws of a spawn, and the
    clock stamped on the spawned obstacle. *)
Record Frame := mkFrame {
  now : nat -> Z;
  spawnRoll : number;
  laneRoll : number;
  spawnNow : Z
}.

(** [useState] of the overlay state and the initial refs. *)
Definition initial : State :=
  mkState false None [] [] false (mkGameState false false 0 0.2) 0 false 0.2 0 false.

(** [initializeScene]: twenty ground boxes ten units apart and the player
    box at the origin; nothing happens without a canvas. *)
Definition createGround (i : nat) : Mesh :=
  CreateBox (mkVector3 0 (-2) (Num.of_int (Z.of_nat i) * 10)).

Definition initializeScene (canvas : bool) (st : State) : State :=
  if negb canvas then st
  else
    let st1 := set_sceneRef st true in
    let st2 := set_groundRef st1 (groundRef st1 ++ map createGround (seq 0 20)) in
    set_playerRef st2 (Some (CreateBox (mkVector3 0 0 0))).

(** [createObstacle(zPosition)]. *)
Definition createObstacle (env : Frame) (zPosition : number) (st : State) : State :=
  if negb (sceneRef st) then st
  else
    let obstacle :=
      mkMesh (mkVector3 (randomLane (laneRoll env)) 0.5 zPosition)
             (mkVector3 0.1 0.1 0.1)
             (Some (spawnNow env)) in
    set_obstaclesRef st (obstaclesRef st ++ [obstacle]).

(** The callback of [groundRef.current.forEach]. *)
Definition groundStep (ground : Mesh) (index : nat) (st : State) : State :=
  let z1 := z (position ground) - speedRef st in
  let z2 := if z1 <? -20 then z1 + 200 else z1 in
  set_groundRef st (<[index := move_z ground z2]> (groundRef st)).

(** The scale-in animation of an obstacle whose [metadata.spawnTime] is
    truthy. *)
Definition animate (t_now : Z) (obstacle : Mesh) : Mesh :=
  match spawnTime obstacle with
  | Some t =>
      if (t =? 0)%Z then obstacle
      else
        let timeSinceSpawn := (t_now - t)%Z in
        let scaleProgress := Num.min (Num.of_int timeSinceSpawn / 500) 1 in
        let easeScale := 1 - Num.pow3 (1 - scaleProgress) in
        let o := set_scaling obstacle (mkVector3 easeScale easeScale easeScale) in
        if scaleProgress >=? 1 then set_spawnTime o None else o
  | None => obstacle
  end.

(** The three-way test of the collision check. *)
Definition collides (playerPos obstaclePos : Vector3) : bool :=
  (Num.abs (x playerPos - x obstaclePos) <? 1.5)
  && (Num.abs (z playerPos - z obstaclePos) <? 1.5)
  && (y playerPos <? 2).

Definition gameOver (g : GameState) : GameState :=
  mkGameState false true (score g) (speed g).
Definition with_score (g : GameState) (v : Z) : GameState :=
  mkGameState (isPlaying g) (isGameOver g) v (speed g).
Definition with_speed (g : GameState) (v : number) : GameState :=
  mkGameState (isPlaying g) (isGameOver g) (score g) v.

(** The callback of [obstaclesRef.current.forEach]: scroll, animate, test
    the collision, remove and score.  Its [return] on a hit leaves the
    callback only. *)
Definition obstacleStep (env : Frame) (player : Mesh)
    (obstacle : Mesh) (index : nat) (st : State) : State :=
  let o1 := move_z obstacle (z (position obstacle) - speedRef st) in
  let o2 := animate (now env index) o1 in
  let st1 := set_obstaclesRef st (<[index := o2]> (obstaclesRef st)) in
  if collides (position player) (position o2) then
    set_isPlayingRef (set_gameState st1 (gameOver (gameState st1))) false
  else if z (position o2) <? -20 then
    let st2 := set_obstaclesRef st1 (delete index (obstaclesRef st1)) in
    let st3 := set_scoreRef st2 (scoreRef st2 + 10)%Z in
    set_gameState st3 (with_score (gameState st3) (scoreRef st3))
  else st1.

(** Lane smoothing and the jump, on the player's position vector; the
    boolean is the value [isJumping] has after the frame. *)
Definition movePlayer (playerPosition : Z) (isJumping : bool)
    (p : Vector3) : Vector3 * bool :=
  let targetX := Num.of_int playerPosition * 2 in
  let p1 := set_x p (x p + (targetX - x p) * 0.1) in
  if isJumping then
    let p2 := set_y p1 (Num.max 0 (y p1 + 0.3)) in
    (p2, if y p2 >=? 4 then false else isJumping)
  else
    (set_y p1 (Num.max 0 (y p1 - 0.2)), isJumping).

(** [gameLoop], one call. *)
Definition gameLoop (env : Frame) (st : State) : State :=
  if negb (isPlayingRef st) then st
  else
    match playerRef st with
    | None => st
    | Some player =>
        if negb (sceneRef st) then st
        else
          let st1 := forEach groundRef groundStep st in
          let st2 := forEach obstaclesRef (obstacleStep env player) st1 in
          let st3 := if spawnRoll env <? 0.02 then createObstacle env 100 st2 else st2 in
          let '(p, jumping) :=
            movePlayer (playerPosition st) (isJumping st) (position player) in
          let st4 := set_playerRef st3 (Some (set_position player p)) in
          let st5 := set_isJumping st4 jumping in
          let st6 := set_speedRef st5 (Num.min (speedRef st5 + 0.0001) 0.5) in
          let st7 := set_gameState st6 (with_speed (gameState st6) (speedRef st6)) in
          if isPlayingRef st7 then set_animationRef st7 true else st7
    end.

(** [startGame]. *)
Definition startGame (st : State) : State :=
  let st1 := set_speedRef st 0.2 in
  let st2 := set_scoreRef st1 0%Z in
  let st3 := set_isPlayingRef st2 true in
  let st4 := set_gameState st3 (mkGameState true false 0 0.2) in
  let st5 := set_playerPosition st4 0%Z in
  let st6 := set_isJumping st5 false in
  let st7 := set_obstaclesRef st6 [] in
  match playerRef st7 with
  | Some player => set_playerRef st7 (Some (set_position player (mkVector3 0 0 0)))
  | None => st7
  end.

(** [resetGame]: back to the menu; the refs keep their values. *)
Definition resetGame (st : State) : State :=
  set_gameState st (mkGameState false false 0 0.2).

(** [handleKeyDown], by the intent its key sets map to. *)
Inductive Key := MoveLeft | MoveRight | Jump | OtherKey.

Definition handleKeyDown (k : Key) (st : State) : State :=
  if negb (isPlaying (gameState st)) then st
  else
    match k with
    | MoveLeft => set_playerPosition st (Z.max (playerPosition st - 1) (-1))
    | MoveRight => set_playerPosition st (Z.min (playerPosition st + 1) 1)
    | Jump => if negb (isJumping st) then set_isJumping st true else st
    | OtherKey => st
    end.

(** What can happen to the component, and a run of it. *)
Inductive Action :=
| Mount (canvas : bool)
| Tick (env : Frame)
| Start
| Reset
| Press (k : Key).

Definition step (a : Action) (st : State) : State :=
  match a with
  | Mount canvas => initializeScene canvas st
  | Tick env => gameLoop env st
  | Start => startGame st
  | Reset => resetGame st
  | Press k => handleKeyDown k st
  end.

Definition run (acts : list Action) (st : State) : State :=
  fold_left (fun s a => step a s) acts st.

(** [n] frames in a row, frame [i] reading [envs i]. *)
Fixpoint frames (envs : nat -> Frame) (n : nat) (st : State) : State :=
  match n with
  | O => st
  | S n' => gameLoop (envs n') (frames envs n' st)
  end.
End Monolith.

(** ** The game logic module, [useGameLogic] *)

(** [PHYSICS_CONFIG] of the engine module and [GAME_RULES] of the logic
    module. *)
Module PHYSICS_CONFIG.
Definition baseSpeed : number := 0.2.
Definition maxSpeed : number := 0.5.
Definition speedIncrease : number := 0.0001.
Definition jumpHeight : number := 4.
Definition jumpSpeed : number := 0.3.
Definition fallSpeed : number := 0.2.
Definition laneChangeSpeed : number := 0.1.
Definition obstacleSpawnChance : number := 0.02.
Definition collisionDistance : number := 1.5.
End PHYSICS_CONFIG.

Module GAME_RULES.
Definition pointsPerObstacle : Z := 10.
Definition perfectRunBonus : Z := 50.
Definition speedIncreaseRate : number := PHYSICS_CONFIG.speedIncrease.
Definition tolerance : number := PHYSICS_CONFIG.collisionDistance.
Definition jumpSafeHeight : number := 2.
End GAME_RULES.

Module Logic.
Local Open Scope js_scope.

Record PlayerState := mkPlayerState {
  position : Z;
  isJumping : bool;
  jumpHeight : number
}.

(** The two callbacks the hook is handed; a frame's calls are logged in the
    order they are made. *)
Inductive Call :=
| onGameOver
| onScoreUpdate (score : Z) (speed : number).

(** The refs of the hook together with the objects [gameLoop] receives by
    reference and mutates: the player mesh and the two mesh arrays. *)
Record State := mkState {
  speedRef : number;
  scoreRef : Z;
  isPlayingRef : bool;
  animationRef : bool;
  perfectRunRef : Z;
  playerRef : option Mesh;
  obstaclesRef : list Mesh;
  groundRef : list Mesh;
  calls : list Call
}.

Definition set_speedRef (st : State) (v : number) : State :=
  mkState v (scoreRef st) (isPlayingRef st) (animationRef st) (perfectRunRef st)
    (playerRef st) (obstaclesRef st) (groundRef st) (calls st).
Definition set_scoreRef (st : State) (v : Z) : State :=
  mkState (speedRef st) v (isPlayingRef st) (animationRef st) (perfectRunRef st)
    (playerRef st) (obstaclesRef st) (groundRef st) (calls st).
Definition set_isPlayingRef (st : State) (v : bool) : State :=
  mkState (speedRef st) (scoreRef st) v (animationRef st) (perfectRunRef st)
    (playerRef st) (obstaclesRef st) (groundRef st) (calls st).
Definition set_animationRef (st : State) (v : bool) : State :=
  mkState (speedRef st) (scoreRef st) (isPlayingRef st) v (perfectRunRef st)
    (playerRef st) (obstaclesRef st) (groundRef st) (calls st).
Definition set_perfectRunRef (st : State) (v : Z) : State :=
  mkState (speedRef st) (scoreRef st) (isPlayingRef st) (animationRef st) v
    (playerRef st) (obstaclesRef st) (groundRef st) (calls st).
Definition set_playerRef (st : State) (v : option Mesh) : State :=
  mkState (speedRef st) (scoreRef st) (isPlayingRef st) (animationRef st) (perfectRunRef st)
    v (obstaclesRef st) (groundRef st) (calls st).
Definition set_obstaclesRef (st : State) (v : list Mesh) : State :=
  mkState (speedRef st) (scoreRef st) (isPlayingRef st) (animationRef st) (perfectRunRef st)
    (playerRef st) v (groundRef st) (calls st).
Definition set_groundRef (st : State) (v : list Mesh) : State :=
  mkState (speedRef st) (scoreRef st) (isPlayingRef st) (animationRef st) (perfectRunRef st)
    (playerRef st) (obstaclesRef st) v (calls st).
Definition call (st : State) (c : Call) : State :=
  mkState (speedRef st) (scoreRef st) (isPlayingRef st) (animationRef st) (perfectRunRef st)
    (playerRef st) (obstaclesRef st) (groundRef st) (calls st ++ [c]).

(** [moveWorld]: its two [forEach] callbacks and their composition. *)
Definition groundStep (ground : Mesh) (index : nat) (st : State) : State :=
  let z1 := z (Babylon.position ground) - speedRef st in
  let z2 := if z1 <? -20 then z1 + 200 else z1 in
  set_groundRef st (<[index := move_z ground z2]> (groundRef st)).

Definition scrollStep (obstacle : Mesh) (index : nat) (st : State) : State :=
  set_obstaclesRef st
    (<[index := move_z obstacle (z (Babylon.position obstacle) - speedRef st)]>
       (obstaclesRef st)).

Definition moveWorld (st : State) : State :=
  forEach obstaclesRef scrollStep (forEach groundRef groundStep st).

(** [updatePlayerMovement], on the player mesh. *)
Definition updatePlayerMovement (player : Mesh) (playerState : PlayerState) : Mesh :=
  let p := Babylon.position player in
  let targetX := Num.of_int (position playerState) * 2 in
  let p1 := set_x p (x p + (targetX - x p) * PHYSICS_CONFIG.laneChangeSpeed) in
  if isJumping playerState then
    set_position player (set_y p1 (Num.max 0 (y p1 + PHYSICS_CONFIG.jumpSpeed)))
  else
    set_position player (set_y p1 (Num.max 0 (y p1 - PHYSICS_CONFIG.fallSpeed))).

(** [checkCollisions]: [some] over the obstacles with a callback that only
    reads. *)
Definition hits (playerPos : Vector3) (obstacle : Mesh) : bool :=
  let obstaclePos := Babylon.position obstacle in
  let sameXPosition := Num.abs (x playerPos - x obstaclePos) <? GAME_RULES.tolerance in
  let sameZPosition := Num.abs (z playerPos - z obstaclePos) <? GAME_RULES.tolerance in
  let notJumpingHigh := y playerPos <? GAME_RULES.jumpSafeHeight in
  sameXPosition && sameZPosition && notJumpingHigh.

Definition checkCollisions (player : Mesh) (obstacles : list Mesh) : bool :=
  existsb (hits (Babylon.position player)) obstacles.

(** [cleanupObstacles]: the callback of its [forEach], which splices the
    array it is iterating. *)
Definition cleanupStep (obstacle : Mesh) (index : nat) (st : State) : State :=
  if z (Babylon.position obstacle) <? -20 then
    let st1 := set_obstaclesRef st (delete index (obstaclesRef st)) in
    let st2 := set_scoreRef st1 (scoreRef st1 + GAME_RULES.pointsPerObstacle)%Z in
    let st3 := set_perfectRunRef st2 (perfectRunRef st2 + 1)%Z in
    let st4 :=
      if (Z.rem (perfectRunRef st3) 10 =? 0)%Z
      then set_scoreRef st3 (scoreRef st3 + GAME_RULES.perfectRunBonus)%Z
      else st3 in
    call st4 (onScoreUpdate (scoreRef st4) (speedRef st4))
  else st.

Definition cleanupObstacles (st : State) : State :=
  forEach obstaclesRef cleanupStep st.

(** [updateDifficulty]. *)
Definition updateDifficulty (st : State) : State :=
  set_speedRef st
    (Num.min (speedRef st + GAME_RULES.speedIncreaseRate) PHYSICS_CONFIG.maxSpeed).

(** [gameLoop], one call. *)
Definition gameLoop (playerState : PlayerState) (st : State) : State :=
  if negb (isPlayingRef st) then st
  else
    match playerRef st with
    | None => st
    | Some player =>
        let st1 := moveWorld st in
        let player1 := updatePlayerMovement player playerState in
        let st2 := set_playerRef st1 (Some player1) in
        if checkCollisions player1 (obstaclesRef st2) then
          call (set_isPlayingRef st2 false) onGameOver
        else
          let st3 := cleanupObstacles st2 in
          let st4 := updateDifficulty st3 in
          if isPlayingRef st4 then set_animationRef st4 true else st4
    end.

(** [startGame], [stopGame], [resetGame]. *)
Definition startGame (st : State) : State :=
  let st1 := set_speedRef st PHYSICS_CONFIG.baseSpeed in
  let st2 := set_scoreRef st1 0%Z in
  let st3 := set_perfectRunRef st2 0%Z in
  set_isPlayingRef st3 true.

Definition stopGame (st : State) : State := set_isPlayingRef st false.

Definition resetGame (st : State) : State :=
  let st1 := stopGame st in
  let st2 := set_speedRef st1 PHYSICS_CONFIG.baseSpeed in
  let st3 := set_scoreRef st2 0%Z in
  set_perfectRunRef st3 0%Z.

(** The refs as [useGameLogic] creates them, around the objects it will be
    handed. *)
Definition initial (player : option Mesh) (obstacles ground : list Mesh) : State :=
  mkState PHYSICS_CONFIG.baseSpeed 0 false false 0 player obstacles ground [].

(** [n] frames in a row with the same [playerState], as the rescheduling
    closure passes it. *)
Fixpoint frames (playerState : PlayerState) (n : nat) (st : State) : State :=
  match n with
  | O => st
  | S n' => gameLoop playerState (frames playerState n' st)
  end.
End Logic.

(** ** The two loops over IEEE doubles

    The modules above read a number as an exact rational.  The code computes
    with binary64 doubles, and where a property turns on the last bit of a
    position (the frame in which an obstacle crosses the rear threshold, the
    spacing of the ground segments) the two disagree.  Module [Double] is
    the same code, function by function, over the kernel's binary64 floats:
    every [+], [-], [*], [/] is the correctly rounded operation and every
    comparison the IEEE one, as in JavaScript.  Integer counters stay in
    [Z]. *)

Module Double.
Local Open Scope float_scope.

Definition number : Set := float.
Bind Scope float_scope with number.

Module Num.
Definition lt (a b : number) : bool := a <? b.
Definition ge (a b : number) : bool := b <=? a.
Definition is_nan (a : number) : bool := negb (a =? a).
Definition negative_zero (a : number) : bool :=
  match classify a with
  | FloatClass.NZero => true
  | _ => false
  end.
(** [Math.abs], [Math.min], [Math.max]: a [NaN] argument gives [NaN], and
    [-0] is below [+0]. *)
Definition abs (a : number) : number := PrimFloat.abs a.
Definition min (a b : number) : number :=
  if is_nan a || is_nan b then nan
  else if a <? b then a
  else if b <? a then b
  else if negative_zero a then a else b.
Definition max (a b : number) : number :=
  if is_nan a || is_nan b then nan
  else if a <? b then b
  else if b <? a then a
  else if negative_zero a then b else a.
(** [Math.pow(a, 3)].  ECMAScript leaves the last bit of [Math.pow] to the
    implementation; it is taken here as two multiplications.  It feeds the
    scale of an obstacle and nothing else. *)
Definition pow3 (a : number) : number := a * a * a.
(** An integer counter read as a number; exact below 2^53. *)
Fixpoint of_pos (p : positive) : number :=
  match p with
  | xH => 1
  | xO p' => 2 * of_pos p'
  | xI p' => 2 * of_pos p' + 1
  end.
Definition of_int (n : Z) : number :=
  match n with
  | Z0 => 0
  | Zpos p => of_pos p
  | Zneg p => - of_pos p
  end.
End Num.

Record Vector3 := mkVector3 { x : number; y : number; z : number }.

(** [metadata.spawnTime]: [Some t] is a stamp of [Date.now()], [None] is
    [null] or no metadata at all. *)
Record Mesh := mkMesh {
  position : Vector3;
  scaling : Vector3;
  spawnTime : option number
}.

Definition set_x (v : Vector3) (a : number) : Vector3 := mkVector3 a (y v) (z v).
Definition set_y (v : Vector3) (a : number) : Vector3 := mkVector3 (x v) a (z v).
Definition set_z (v : Vector3) (a : number) : Vector3 := mkVector3 (x v) (y v) a.

Definition set_position (m : Mesh) (p : Vector3) : Mesh :=
  mkMesh p (scaling m) (spawnTime m).
Definition set_scaling (m : Mesh) (s : Vector3) : Mesh :=
  mkMesh (position m) s (spawnTime m).
Definition set_spawnTime (m : Mesh) (t : option number) : Mesh :=
  mkMesh (position m) (scaling m) t.

Definition CreateBox (p : Vector3) : Mesh := mkMesh p (mkVector3 1 1 1) None.

Definition move_z (m : Mesh) (a : number) : Mesh := set_position m (set_z (position m) a).

(** [lanes[Math.floor(Math.random() * lanes.length)]] over [[-2, 0, 2]]: the
    floor of the rounded product picks the lane.  An index outside the array
    reads [undefined], which every later subtraction turns into [NaN]; it
    is [NaN] here. *)
Definition randomLane (r : number) : number :=
  let p := r * 3 in
  if (0 <=? p) && (p <? 1) then -2
  else if (1 <=? p) && (p <? 2) then 0
  else if (2 <=? p) && (p <? 3) then 2
  else nan.

(** [PHYSICS_CONFIG] and [GAME_RULES], as the logic module reads them. *)
Module PHYSICS_CONFIG.
Definition baseSpeed : number := 0.2.
Definition maxSpeed : number := 0.5.
Definition speedIncrease : number := 0.0001.
Definition jumpSpeed : number := 0.3.
Definition fallSpeed : number := 0.2.
Definition laneChangeSpeed : number := 0.1.
Definition collisionDistance : number := 1.5.
End PHYSICS_CONFIG.

Module GAME_RULES.
Definition pointsPerObstacle : Z := 10.
Definition perfectRunBonus : Z := 50.
Definition speedIncreaseRate : number := PHYSICS_CONFIG.speedIncrease.
Definition tolerance : number := PHYSICS_CONFIG.collisionDistance.
Definition jumpSafeHeight : number := 2.
End GAME_RULES.

(** *** [components/game.tsx] *)

Module Monolith.
Record GameState := mkGameState {
  isPlaying : bool;
  isGameOver : bool;
  score : Z;
  speed : number
}.

Record State := mkState {
  sceneRef : bool;
  playerRef : option Mesh;
  obstaclesRef : list Mesh;
  groundRef : list Mesh;
  animationRef : bool;
  gameState : GameState;
  playerPosition : Z;
  isJumping : bool;
  speedRef : number;
  scoreRef : Z;
  isPlayingRef : bool
}.

Definition set_sceneRef (st : State) (v : bool) : State :=
  mkState v (playerRef st) (obstaclesRef st) (groundRef st) (animationRef st)
    (gameState st) (playerPosition st) (isJumping st) (speedRef st) (scoreRef st)
    (isPlayingRef st).
Definition set_playerRef (st : State) (v : option Mesh) : State :=
  mkState (sceneRef st) v (obstaclesRef st) (groundRef st) (animationRef st)
    (gameState st) (playerPosition st) (isJumping st) (speedRef st) (scoreRef st)
    (isPlayingRef st).
Definition set_obstaclesRef (st : State) (v : list Mesh) : State :=
  mkState (sceneRef st) (playerRef st) v (groundRef st) (animationRef st)
    (gameState st) (playerPosition st) (isJumping st) (speedRef st) (scoreRef st)
    (isPlayingRef st).
Definition set_groundRef (st : State) (v : list Mesh) : State :=
  mkState (sceneRef st) (playerRef st) (obstaclesRef st) v (animationRef st)
    (gameState st) (playerPosition st) (isJumping st) (speedRef st) (scoreRef st)
    (isPlayingRef st).
Definition set_animationRef (st : State) (v : bool) : State :=
  mkState (sceneRef st) (playerRef st) (obstaclesRef st) (groundRef st) v
    (gameState st) (playerPosition st) (isJumping st) (speedRef st) (scoreRef st)
    (isPlayingRef st).
Definition set_gameState (st : State) (v : GameState) : State :=
  mkState (sceneRef st) (playerRef st) (obstaclesRef st) (groundRef st) (animationRef st)
    v (playerPosition st) (isJumping st) (speedRef st) (scoreRef st)
    (isPlayingRef st).
Definition set_playerPosition (st : State) (v : Z) : State :=
  mkState (sceneRef st) (playerRef st) (obstaclesRef st) (groundRef st) (animationRef st)
    (gameState st) v (isJumping st) (speedRef st) (scoreRef st)
    (isPlayingRef st).
Definition set_isJumping (st : State) (v : bool) : State :=
  mkState (sceneRef st) (playerRef st) (obstaclesRef st) (groundRef st) (animationRef st)
    (gameState st) (playerPosition st) v (speedRef st) (scoreRef st)
    (isPlayingRef st).
Definition set_speedRef (st : State) (v : number) : State :=
  mkState (sceneRef st) (playerRef st) (obstaclesRef st) (groundRef st) (animationRef st)
    (gameState st) (playerPosition st) (isJumping st) v (scoreRef st)
    (isPlayingRef st).
Definition set_scoreRef (st : State) (v : Z) : State :=
  mkState (sceneRef st) (playerRef st) (obstaclesRef st) (groundRef st) (animationRef st)
    (gameState st) (playerPosition st) (isJumping st) (speedRef st) v
    (isPlayingRef st).
Definition set_isPlayingRef (st : State) (v : bool) : State :=
  mkState (sceneRef st) (playerRef st) (obstaclesRef st) (groundRef st) (animationRef st)
    (gameState st) (playerPosition st) (isJumping st) (speedRef st) (scoreRef st)
    v.

(** What one frame reads from outside: [Date.now()] as the obstacle callback
    sees it at each index, the two draws of [Math.random] of a spawn, and
    [Date.now()] as stamped on the spawned obstacle. *)
Record Frame := mkFrame {
  now : nat -> number;
  spawnRoll : number;
  laneRoll : number;
  spawnNow : number
}.

Definition initial : State :=
  mkState false None [] [] false (mkGameState false false 0 0.2) 0 false 0.2 0 false.

Definition createGround (i : nat) : Mesh :=
  CreateBox (mkVector3 0 (-2) (Num.of_int (Z.of_nat i) * 10)).

Definition initializeScene (canvas : bool) (st : State) : State :=
  if negb canvas then st
  else
    let st1 := set_sceneRef st true in
    let st2 := set_groundRef st1 (groundRef st1 ++ map createGround (seq 0 20)) in
    set_playerRef st2 (Some (CreateBox (mkVector3 0 0 0))).

Definition createObstacle (env : Frame) (zPosition : number) (st : State) : State :=
  if negb (sceneRef st) then st
  else
    let obstacle :=
      mkMesh (mkVector3 (randomLane (laneRoll env)) 0.5 zPosition)
             (mkVector3 0.1 0.1 0.1)
             (Some (spawnNow env)) in
    set_obstaclesRef st (obstaclesRef st ++ [obstacle]).

Definition groundStep (ground : Mesh) (index : nat) (st : State) : State :=
  let z1 := z (position ground) - speedRef st in
  let z2 := if z1 <? -20 then z1 + 200 else z1 in
  set_groundRef st (<[index := move_z ground z2]> (groundRef st)).

(** A stamp is truthy unless it is zero or [NaN]. *)
Definition truthy (t : number) : bool := negb (t =? 0) && negb (Num.is_nan t).

Definition animate (t_now : number) (obstacle : Mesh) : Mesh :=
  match spawnTime obstacle with
  | Some t =>
      if negb (truthy t) then obstacle
      else
        let timeSinceSpawn := t_now - t in
        let scaleProgress := Num.min (timeSinceSpawn / 500) 1 in
        let easeScale := 1 - Num.pow3 (1 - scaleProgress) in
        let o := set_scaling obstacle (mkVector3 easeScale easeScale easeScale) in
        if Num.ge scaleProgress 1 then set_spawnTime o None else o
  | None => obstacle
  end.

Definition collides (playerPos obstaclePos : Vector3) : bool :=
  (Num.abs (x playerPos - x obstaclePos) <? 1.5)
  && (Num.abs (z playerPos - z obstaclePos) <? 1.5)
  && (y playerPos <? 2).

Definition gameOver (g : GameState) : GameState :=
  mkGameState false true (score g) (speed g).
Definition with_score (g : GameState) (v : Z) : GameState :=
  mkGameState (isPlaying g) (isGameOver g) v (speed g).
Definition with_speed (g : GameState) (v : number) : GameState :=
  mkGameState (isPlaying g) (isGameOver g) (score g) v.

Definition obstacleStep (env : Frame) (player : Mesh)
    (obstacle : Mesh) (index : nat) (st : State) : State :=
  let o1 := move_z obstacle (z (position obstacle) - speedRef st) in
  let o2 := animate (now env index) o1 in
  let st1 := set_obstaclesRef st (<[index := o2]> (obstaclesRef st)) in
  if collides (position player) (position o2) then
    set_isPlayingRef (set_gameState st1 (gameOver (gameState st1))) false
  else if z (position o2) <? -20 then
    let st2 := set_obstaclesRef st1 (delete index (obstaclesRef st1)) in
    let st3 := set_scoreRef st2 (scoreRef st2 + 10)%Z in
    set_gameState st3 (with_score (gameState st3) (scoreRef st3))
  else st1.

Definition movePlayer (playerPosition : Z) (isJumping : bool)
    (p : Vector3) : Vector3 * bool :=
  let targetX := Num.of_int playerPosition * 2 in
  let p1 := set_x p (x p + (targetX - x p) * 0.1) in
  if isJumping then
    let p2 := set_y p1 (Num.max 0 (y p1 + 0.3)) in
    (p2, if Num.ge (y p2) 4 then false else isJumping)
  else
    (set_y p1 (Num.max 0 (y p1 - 0.2)), isJumping).

Definition gameLoop (env : Frame) (st : State) : State :=
  if negb (isPlayingRef st) then st
  else
    match playerRef st with
    | None => st
    | Some player =>
        if negb (sceneRef st) then st
        else
          let st1 := forEach groundRef groundStep st in
          let st2 := forEach obstaclesRef (obstacleStep env player) st1 in
          let st3 := if spawnRoll env <? 0.02 then createObstacle env 100 st2 else st2 in
          let '(p, jumping) :=
            movePlayer (playerPosition st) (isJumping st) (position player) in
          let st4 := set_playerRef st3 (Some (set_position player p)) in
          let st5 := set_isJumping st4 jumping in
          let st6 := set_speedRef st5 (Num.min (speedRef st5 + 0.0001) 0.5) in
          let st7 := set_gameState st6 (with_speed (gameState st6) (speedRef st6)) in
          if isPlayingRef st7 then set_animationRef st7 true else st7
    end.

Definition startGame (st : State) : State :=
  let st1 := set_speedRef st 0.2 in
  let st2 := set_scoreRef st1 0%Z in
  let st3 := set_isPlayingRef st2 true in
  let st4 := set_gameState st3 (mkGameState true false 0 0.2) in
  let st5 := set_playerPosition st4 0%Z in
  let st6 := set_isJumping st5 false in
  let st7 := set_obstaclesRef st6 [] in
  match playerRef st7 with
  | Some player => set_playerRef st7 (Some (set_position player (mkVector3 0 0 0)))
  | None => st7
  end.

(** [n] frames in a row, frame [i] reading [envs i]. *)
Fixpoint frames (envs : nat -> Frame) (n : nat) (st : State) : State :=
  match n with
  | O => st
  | S n' => gameLoop (envs n') (frames envs n' st)
  end.
End Monolith.

(** *** [useGameLogic] *)

Module Logic.
Record PlayerState := mkPlayerState {
  position : Z;
  isJumping : bool;
  jumpHeight : number
}.

Inductive Call :=
| onGameOver
| onScoreUpdate (score : Z) (speed : number).

Record State := mkState {
  speedRef : number;
  scoreRef : Z;
  isPlayingRef : bool;
  animationRef : bool;
  perfectRunRef : Z;
  playerRef : option Mesh;
  obstaclesRef : list Mesh;
  groundRef : list Mesh;
  calls : list Call
}.

Definition set_speedRef (st : State) (v : number) : State :=
  mkState v (scoreRef st) (isPlayingRef st) (animationRef st) (perfectRunRef st)
    (playerRef st) (obstaclesRef st) (groundRef st) (calls st).
Definition set_scoreRef (st : State) (v : Z) : State :=
  mkState (speedRef st) v (isPlayingRef st) (animationRef st) (perfectRunRef st)
    (playerRef st) (obstaclesRef st) (groundRef st) (calls st).
Definition set_isPlayingRef (st : State) (v : bool) : State :=
  mkState (speedRef st) (scoreRef st) v (animationRef st) (perfectRunRef st)
    (playerRef st) (obstaclesRef st) (groundRef st) (calls st).
Definition set_animationRef (st : State) (v : bool) : State :=
  mkState (speedRef st) (scoreRef st) (isPlayingRef st) v (perfectRunRef st)
    (playerRef st) (obstaclesRef st) (groundRef st) (calls st).
Definition set_perfectRunRef (st : State) (v : Z) : State :=
  mkState (speedRef st) (scoreRef st) (isPlayingRef st) (animationRef st) v
    (playerRef st) (obstaclesRef st) (groundRef st) (calls st).
Definition set_playerRef (st : State) (v : option Mesh) : State :=
  mkState (speedRef st) (scoreRef st) (isPlayingRef st) (animationRef st) (perfectRunRef st)
    v (obstaclesRef st) (groundRef st) (calls st).
Definition set_obstaclesRef (st : State) (v : list Mesh) : State :=
  mkState (speedRef st) (scoreRef st) (isPlayingRef st) (animationRef st) (perfectRunRef st)
    (playerRef st) v (groundRef st) (calls st).
Definition set_groundRef (st : State) (v : list Mesh) : State :=
  mkState (speedRef st) (scoreRef st) (isPlayingRef st) (animationRef st) (perfectRunRef st)
    (playerRef st) (obstaclesRef st) v (calls st).
Definition call (st : State) (c : Call) : State :=
  mkState (speedRef st) (scoreRef st) (isPlayingRef st) (animationRef st) (perfectRunRef st)
    (playerRef st) (obstaclesRef st) (groundRef st) (calls st ++ [c]).

Definition groundStep (ground : Mesh) (index : nat) (st : State) : State :=
  let z1 := z (Double.position ground) - speedRef st in
  let z2 := if z1 <? -20 then z1 + 200 else z1 in
  set_groundRef st (<[index := move_z ground z2]> (groundRef st)).

Definition scrollStep (obstacle : Mesh) (index : nat) (st : State) : State :=
  set_obstaclesRef st
    (<[index := move_z obstacle (z (Double.position obstacle) - speedRef st)]>
       (obstaclesRef st)).

Definition moveWorld (st : State) : State :=
  forEach obstaclesRef scrollStep (forEach groundRef groundStep st).

Definition updatePlayerMovement (player : Mesh) (playerState : PlayerState) : Mesh :=
  let p := Double.position player in
  let targetX := Num.of_int (position playerState) * 2 in
  let p1 := set_x p (x p + (targetX - x p) * PHYSICS_CONFIG.laneChangeSpeed) in
  if isJumping playerState then
    set_position player (set_y p1 (Num.max 0 (y p1 + PHYSICS_CONFIG.jumpSpeed)))
  else
    set_position player (set_y p1 (Num.max 0 (y p1 - PHYSICS_CONFIG.fallSpeed))).

Definition hits (playerPos : Vector3) (obstacle : Mesh) : bool :=
  let obstaclePos := Double.position obstacle in
  let sameXPosition := Num.abs (x playerPos - x obstaclePos) <? GAME_RULES.tolerance in
  let sameZPosition := Num.abs (z playerPos - z obstaclePos) <? GAME_RULES.tolerance in
  let notJumpingHigh := y playerPos <? GAME_RULES.jumpSafeHeight in
  sameXPosition && sameZPosition && notJumpingHigh.

Definition checkCollisions (player : Mesh) (obstacles : list Mesh) : bool :=
  existsb (hits (Double.position player)) obstacles.

Definition cleanupStep (obstacle : Mesh) (index : nat) (st : State) : State :=
  if z (Double.position obstacle) <? -20 then
    let st1 := set_obstaclesRef st (delete index (obstaclesRef st)) in
    let st2 := set_scoreRef st1 (scoreRef st1 + GAME_RULES.pointsPerObstacle)%Z in
    let st3 := set_perfectRunRef st2 (perfectRunRef st2 + 1)%Z in
    let st4 :=
      if (Z.rem (perfectRunRef st3) 10 =? 0)%Z
      then set_scoreRef st3 (scoreRef st3 + GAME_RULES.perfectRunBonus)%Z
      else st3 in
    call st4 (onScoreUpdate (scoreRef st4) (speedRef st4))
  else st.

Definition cleanupObstacles (st : State) : State :=
  forEach obstaclesRef cleanupStep st.

Definition updateDifficulty (st : State) : State :=
  set_speedRef st
    (Num.min (speedRef st + GAME_RULES.speedIncreaseRate) PHYSICS_CONFIG.maxSpeed).

Definition gameLoop (playerState : PlayerState) (st : State) : State :=
  if negb (isPlayingRef st) then st
  else
    match playerRef st with
    | None => st
    | Some player =>
        let st1 := moveWorld st in
        let player1 := updatePlayerMovement player playerState in
        let st2 := set_playerRef st1 (Some player1) in
        if checkCollisions player1 (obstaclesRef st2) then
          call (set_isPlayingRef st2 false) onGameOver
        else
          let st3 := cleanupObstacles st2 in
          let st4 := updateDifficulty st3 in
          if isPlayingRef st4 then set_animationRef st4 true else st4
    end.

Definition startGame (st : State) : State :=
  let st1 := set_speedRef st PHYSICS_CONFIG.baseSpeed in
  let st2 := set_scoreRef st1 0%Z in
  let st3 := set_perfectRunRef st2 0%Z in
  set_isPlayingRef st3 true.

Definition initial (player : option Mesh) (obstacles ground : list Mesh) : State :=
  mkState PHYSICS_CONFIG.baseSpeed 0 false false 0 player obstacles ground [].

Fixpoint frames (playerState : PlayerState) (n : nat) (st : State) : State :=
  match n with
  | O => st
  | S n' => gameLoop playerState (frames playerState n' st)
  end.
End Logic.
End Double.

(** ** Vocabulary of the statements *)

(** The three conditions of the collision check, over the rationals. *)
Definition overlap (playerPos obstaclePos : Vector3) : Prop :=
  Qabs (x playerPos - x obstaclePos) < 1.5
  /\ Qabs (z playerPos - z obstaclePos) < 1.5
  /\ y playerPos < 2.

(** A mesh whose [z] lies behind the rear threshold. *)
Definition behind (m : Mesh) : bool := Num.lt (z (position m)) (-20).

(** A mesh after the world has scrolled by [s]. *)
Definition scrolled (s : Q) (m : Mesh) : Mesh :=
  move_z m (Num.sub (z (position m)) s).

(** One ground segment after a frame at speed [s]. *)
Definition recycled (s : Q) (ground : Mesh) : Mesh :=
  let z1 := Num.sub (z (position ground)) s in
  move_z ground (if Num.lt z1 (-20) then Num.add z1 200 else z1).

(** Whether a pass that removes the elements satisfying [gone] and starts at
    the head of [pre] visits the element that follows [pre]. *)
Fixpoint reaches {A : Type} (gone : A -> bool) (pre : list A) : bool :=
  match pre with
  | [] => true
  | o :: l => if gone o then match l with [] => false | _ :: l' => reaches gone l' end
              else reaches gone l
  end.

(** The logic module's cleanup callback as a visit: what it does to the refs
    when it removes an obstacle, and the visit itself. *)
Definition scored (st : Logic.State) : Logic.State :=
  let st2 := Logic.set_scoreRef st (Logic.scoreRef st + GAME_RULES.pointsPerObstacle)%Z in
  let st3 := Logic.set_perfectRunRef st2 (Logic.perfectRunRef st2 + 1)%Z in
  let st4 :=
    if (Z.rem (Logic.perfectRunRef st3) 10 =? 0)%Z
    then Logic.set_scoreRef st3 (Logic.scoreRef st3 + GAME_RULES.perfectRunBonus)%Z
    else st3 in
  Logic.call st4 (Logic.onScoreUpdate (Logic.scoreRef st4) (Logic.speedRef st4)).

Definition cleanupVisit (obstacle : Mesh) (index : nat) (st : Logic.State)
    : option Mesh * Logic.State :=
  if behind obstacle then (None, scored st) else (Some obstacle, st).

(** The monolithic obstacle callback as a visit. *)
Definition declared (st : Monolith.State) : Monolith.State :=
  Monolith.set_isPlayingRef
    (Monolith.set_gameState st (Monolith.gameOver (Monolith.gameState st))) false.

Definition scored10 (st : Monolith.State) : Monolith.State :=
  let st3 := Monolith.set_scoreRef st (Monolith.scoreRef st + 10)%Z in
  Monolith.set_gameState st3 (Monolith.with_score (Monolith.gameState st3) (Monolith.scoreRef st3)).

Definition obstacleVisit (env : Monolith.Frame) (player : Mesh)
    (obstacle : Mesh) (index : nat) (st : Monolith.State)
    : option Mesh * Monolith.State :=
  let o2 := Monolith.animate (Monolith.now env index)
              (scrolled (Monolith.speedRef st) obstacle) in
  if Monolith.collides (position player) (position o2) then (Some o2, declared st)
  else if behind o2 then (None, scored10 st)
  else (Some o2, st).

(** Whether a call of the monolithic [gameLoop] gets past its guard. *)
Definition executes (st : Monolith.State) : bool :=
  Monolith.isPlayingRef st
  && (match Monolith.playerRef st with Some _ => true | None => false end)
  && Monolith.sceneRef st.

(** The obstacle a frame spawns, if its draw succeeds. *)
Definition spawned (env : Monolith.Frame) : list Mesh :=
  if Num.lt (Monolith.spawnRoll env) 0.02 then
    [mkMesh (mkVector3 (randomLane (Monolith.laneRoll env)) 0.5 100)
            (mkVector3 0.1 0.1 0.1) (Some (Monolith.spawnNow env))]
  else [].

(** The obstacle pass of a monolithic frame as a walk from the frame's first
    state: the array it leaves and the refs it has changed. *)
Definition obstaclePass (env : Monolith.Frame) (player : Mesh) (st : Monolith.State)
    : list Mesh * Monolith.State :=
  walk (obstacleVisit env player) 0 (Monolith.obstaclesRef st) st.

(** The fields no obstacle visit writes. *)
Definition same_frame (st0 st : Monolith.State) : Prop :=
  Monolith.sceneRef st = Monolith.sceneRef st0
  /\ Monolith.playerRef st = Monolith.playerRef st0
  /\ Monolith.groundRef st = Monolith.groundRef st0
  /\ Monolith.animationRef st = Monolith.animationRef st0
  /\ Monolith.playerPosition st = Monolith.playerPosition st0
  /\ Monolith.isJumping st = Monolith.isJumping st0
  /\ Monolith.speedRef st = Monolith.speedRef st0.

(** The tally of a cleanup walk: every dropped obstacle counts once in the
    perfect-run counter, scores 10, and scores 50 more each time the counter
    passes a multiple of 10. *)
Definition tallied (st0 : Logic.State) (l0 : list Mesh)
    (w : list Mesh * Logic.State) : Prop :=
  (length (fst w) <= length l0)%nat
  /\ Logic.perfectRunRef (snd w) =
     (Logic.perfectRunRef st0 + Z.of_nat (length l0 - length (fst w)))%Z
  /\ Logic.scoreRef (snd w) =
     (Logic.scoreRef st0 + 10 * Z.of_nat (length l0 - length (fst w))
      + 50 * (Logic.perfectRunRef (snd w) / 10 - Logic.perfectRunRef st0 / 10))%Z
  /\ Logic.speedRef (snd w) = Logic.speedRef st0
  /\ Logic.isPlayingRef (snd w) = Logic.isPlayingRef st0
  /\ Logic.playerRef (snd w) = Logic.playerRef st0
  /\ Logic.groundRef (snd w) = Logic.groundRef st0
  /\ Logic.animationRef (snd w) = Logic.animationRef st0.

(** The obstacles a monolithic obstacle pass tests against the player at [p],
    as scrolled by [s]: every obstacle but the one that follows a removal. *)
Fixpoint checked (p : Vector3) (s : Q) (l : list Mesh) : list Mesh :=
  match l with
  | [] => []
  | o :: l1 =>
      let o' := scrolled s o in
      o' :: (if negb (Monolith.collides p (position o')) && behind o'
             then match l1 with [] => [] | _ :: l2 => checked p s l2 end
             else checked p s l1)
  end.

(** A frame that reads a fixed clock and draws no spawn. *)
Definition quiet : Monolith.Frame := Monolith.mkFrame (fun _ => 1000%Z) 1 0 1000%Z.

(** A frame at clock [t] with the given spawn and lane draws, and frame [k]
    of a run at sixteen milliseconds a frame, from clock 1000, that spawns
    nothing. *)
Definition tick (t : Z) (roll lane : Q) : Monolith.Frame :=
  Monolith.mkFrame (fun _ => t) roll lane t.

Definition calm (k : nat) : Monolith.Frame := tick (1000 + 16 * Z.of_nat k) 1 0.

(** A session of the monolithic component just started. *)
Definition fresh : Monolith.State :=
  Monolith.run [Monolith.Mount true; Monolith.Start] Monolith.initial.

(** A run that ends at a collision.  The first frame spawns an obstacle in
    the centre lane, the player stays there for 444 frames, by which time the
    obstacle is 1.5654 ahead (7827 / 5000) and the speed is 0.2444, and then
    asks for the right lane; the frame that follows draws a spawn again. *)
Definition crash_envs (k : nat) : Monolith.Frame :=
  if Nat.eqb k 0 then tick 1000 0.01 0.5 else calm k.

Definition crash_scene : Monolith.State :=
  Monolith.handleKeyDown Monolith.MoveRight (Monolith.frames crash_envs 444 fresh).

Definition crash_frame : Monolith.Frame := tick (1000 + 16 * 444) 0.01 0.5.

(** A scene of the logic module in play: the player at height 1.8 with a
    jump under way, one obstacle 0.2 ahead of it in its lane. *)
Definition leap_scene : Logic.State :=
  Logic.mkState 0.2 0 true false 0 (Some (CreateBox (mkVector3 0 1.8 0)))
    [CreateBox (mkVector3 0 0.5 0.2)] [] [].

Definition leaping : Logic.PlayerState := Logic.mkPlayerState 0 true 4.

(** The cleanup pass of the logic module over an array [l], from the refs
    [st]: the obstacles it leaves and the refs after it. *)
Definition cleanupPass (l : list Mesh) (st : Logic.State) : list Mesh * Logic.State :=
  walk cleanupVisit 0 l st.

(** The obstacle pass of the monolithic loop over [l] when its first element
    sits at index [k]. *)
Definition obstaclePassFrom (env : Monolith.Frame) (player : Mesh) (k : nat)
    (l : list Mesh) (st : Monolith.State) : list Mesh * Monolith.State :=
  walk (obstacleVisit env player) k l st.

(** What the monolithic pass removes, for a player at [p] and speed [s]: an
    obstacle that, once scrolled, does not collide and is behind the
    threshold. *)
Definition swept (p : Vector3) (s : Q) (o : Mesh) : bool :=
  negb (Monolith.collides p (position (scrolled s o))) && behind (scrolled s o).

(** Three obstacles behind the threshold, one per lane, handed to the logic
    module in play. *)
Definition three_behind : Logic.State :=
  Logic.mkState 0.2 0 true false 0 (Some (CreateBox (mkVector3 0 0 0)))
    [CreateBox (mkVector3 (-2) 0.5 (-21)); CreateBox (mkVector3 0 0.5 (-22));
     CreateBox (mkVector3 2 0.5 (-23))] [] [].

(** Whether a call of the logic module's [gameLoop] gets past its guard. *)
Definition Logic_executes (st : Logic.State) : bool :=
  Logic.isPlayingRef st
  && (match Logic.playerRef st with Some _ => true | None => false end).

(** A scene of the monolithic component in play with one obstacle 0.2 ahead
    of the player, in its lane. *)
Definition bump_scene : Monolith.State :=
  Monolith.mkState true (Some (CreateBox (mkVector3 0 0 0)))
    [CreateBox (mkVector3 0 0.5 0.2)]
    [] true (Monolith.mkGameState true false 0 0.2) 0 false 0.2 0 true.

(** A scene of the monolithic component in play whose first obstacle, in
    the right lane, is about to pass the rear threshold, and whose second
    obstacle stands 0.2 ahead of the player, in its lane. *)
Definition skip_scene : Monolith.State :=
  Monolith.mkState true (Some (CreateBox (mkVector3 0 0 0)))
    [CreateBox (mkVector3 2 0.5 (-19.9)); CreateBox (mkVector3 0 0.5 0.2)]
    [] true (Monolith.mkGameState true false 0 0.2) 0 false 0.2 0 true.

(** ** Vocabulary of the statements over doubles *)

(** The exact value of a finite double; 0 for an infinity or [NaN]. *)
Definition exact (a : float) : Q :=
  match Prim2SF a with
  | SpecFloat.S754_finite s m e =>
      (if s then -1 else 1) * inject_Z (Zpos m) * 2 ^ e
  | _ => 0
  end.

Definition Double_behind (m : Double.Mesh) : bool :=
  Double.Num.lt (Double.z (Double.position m)) (-20)%float.

Definition Double_scrolled (s : float) (m : Double.Mesh) : Double.Mesh :=
  Double.move_z m (Double.z (Double.position m) - s)%float.

Definition Double_recycled (s : float) (ground : Double.Mesh) : Double.Mesh :=
  let z1 := (Double.z (Double.position ground) - s)%float in
  Double.move_z ground (if Double.Num.lt z1 (-20)%float then (z1 + 200)%float else z1).

(** The position of an obstacle that started at [P], after [k] frames have
    each subtracted [s] from it. *)
Definition scrolls (s : float) (k : nat) (P : float) : float :=
  Nat.iter k (fun z => (z - s)%float) P.

(** The first frame, among the next [fuel], whose subtraction leaves an
    obstacle now at [z], [k] frames into its life, behind the rear
    threshold. *)
Fixpoint firstBehind (s : float) (fuel k : nat) (z : float) : option nat :=
  match fuel with
  | O => None
  | S fuel' =>
      let z' := (z - s)%float in
      if Double.Num.lt z' (-20)%float then Some (S k) else firstBehind s fuel' (S k) z'
  end.

Definition removalFrame (s P : float) (fuel : nat) : option nat := firstBehind s fuel 0 P.

(** The callbacks of the two removal passes as visits. *)
Definition Double_declared (st : Double.Monolith.State) : Double.Monolith.State :=
  Double.Monolith.set_isPlayingRef
    (Double.Monolith.set_gameState st
       (Double.Monolith.gameOver (Double.Monolith.gameState st))) false.

Definition Double_scored10 (st : Double.Monolith.State) : Double.Monolith.State :=
  let st3 := Double.Monolith.set_scoreRef st (Double.Monolith.scoreRef st + 10)%Z in
  Double.Monolith.set_gameState st3
    (Double.Monolith.with_score (Double.Monolith.gameState st3) (Double.Monolith.scoreRef st3)).

Definition Double_obstacleVisit (env : Double.Monolith.Frame) (player : Double.Mesh)
    (obstacle : Double.Mesh) (index : nat) (st : Double.Monolith.State)
    : option Double.Mesh * Double.Monolith.State :=
  let o2 := Double.Monolith.animate (Double.Monolith.now env index)
              (Double_scrolled (Double.Monolith.speedRef st) obstacle) in
  if Double.Monolith.collides (Double.position player) (Double.position o2)
  then (Some o2, Double_declared st)
  else if Double_behind o2 then (None, Double_scored10 st)
  else (Some o2, st).

Definition Double_scored (st : Double.Logic.State) : Double.Logic.State :=
  let st2 := Double.Logic.set_scoreRef st
               (Double.Logic.scoreRef st + Double.GAME_RULES.pointsPerObstacle)%Z in
  let st3 := Double.Logic.set_perfectRunRef st2 (Double.Logic.perfectRunRef st2 + 1)%Z in
  let st4 :=
    if (Z.rem (Double.Logic.perfectRunRef st3) 10 =? 0)%Z
    then Double.Logic.set_scoreRef st3
           (Double.Logic.scoreRef st3 + Double.GAME_RULES.perfectRunBonus)%Z
    else st3 in
  Double.Logic.call st4
    (Double.Logic.onScoreUpdate (Double.Logic.scoreRef st4) (Double.Logic.speedRef st4)).

Definition Double_cleanupVisit (obstacle : Double.Mesh) (index : nat)
    (st : Double.Logic.State) : option Double.Mesh * Double.Logic.State :=
  if Double_behind obstacle then (None, Double_scored st) else (Some obstacle, st).

(** The two passes over an array whose first element sits at index [k]. *)
Definition Double_obstaclePassFrom (env : Double.Monolith.Frame) (player : Double.Mesh)
    (k : nat) (l : list Double.Mesh) (st : Double.Monolith.State)
    : list Double.Mesh * Double.Monolith.State :=
  walk (Double_obstacleVisit env player) k l st.

Definition Double_cleanupPassFrom (k : nat) (l : list Double.Mesh)
    (st : Double.Logic.State) : list Double.Mesh * Double.Logic.State :=
  walk Double_cleanupVisit k l st.

Definition Double_executes (st : Double.Monolith.State) : bool :=
  Double.Monolith.isPlayingRef st
  && (match Double.Monolith.playerRef st with Some _ => true | None => false end)
  && Double.Monolith.sceneRef st.

Definition Double_Logic_executes (st : Double.Logic.State) : bool :=
  Double.Logic.isPlayingRef st
  && (match Double.Logic.playerRef st with Some _ => true | None => false end).

Definition Double_spawned (env : Double.Monolith.Frame) : list Double.Mesh :=
  if Double.Num.lt (Double.Monolith.spawnRoll env) 0.02%float then
    [Double.mkMesh
       (Double.mkVector3 (Double.randomLane (Double.Monolith.laneRoll env)) 0.5 100)
       (Double.mkVector3 0.1 0.1 0.1) (Some (Double.Monolith.spawnNow env))]
  else [].

(** Frames run with the speed held at [s]: the ref is put back to [s] before
    every frame. *)
Fixpoint Double_heldFrames (s : float) (envs : nat -> Double.Monolith.Frame) (n : nat)
    (st : Double.Monolith.State) : Double.Monolith.State :=
  match n with
  | O => st
  | S n' =>
      Double.Monolith.gameLoop (envs n')
        (Double.Monolith.set_speedRef (Double_heldFrames s envs n' st) s)
  end.

Fixpoint Double_Logic_heldFrames (s : float) (ps : Double.Logic.PlayerState) (n : nat)
    (st : Double.Logic.State) : Double.Logic.State :=
  match n with
  | O => st
  | S n' =>
      Double.Logic.gameLoop ps (Double.Logic.set_speedRef (Double_Logic_heldFrames s ps n' st) s)
  end.

(** A frame at clock [t] with the given spawn and lane draws, and frame [k]
    of a run at sixteen milliseconds a frame that spawns nothing. *)
Definition Double_tick (t roll lane : float) : Double.Monolith.Frame :=
  Double.Monolith.mkFrame (fun _ => t) roll lane t.

Definition Double_calm (k : nat) : Double.Monolith.Frame :=
  Double_tick (1000 + 16 * Double.Num.of_int (Z.of_nat k))%float 0.5 0.

(** A session of the monolithic component just started. *)
Definition Double_fresh : Double.Monolith.State :=
  Double.Monolith.startGame (Double.Monolith.initializeScene true Double.Monolith.initial).

(** The fields no obstacle visit of the monolithic loop writes. *)
Definition Double_same_frame (st0 st : Double.Monolith.State) : Prop :=
  Double.Monolith.sceneRef st = Double.Monolith.sceneRef st0
  /\ Double.Monolith.playerRef st = Double.Monolith.playerRef st0
  /\ Double.Monolith.groundRef st = Double.Monolith.groundRef st0
  /\ Double.Monolith.animationRef st = Double.Monolith.animationRef st0
  /\ Double.Monolith.playerPosition st = Double.Monolith.playerPosition st0
  /\ Double.Monolith.isJumping st = Double.Monolith.isJumping st0
  /\ Double.Monolith.speedRef st = Double.Monolith.speedRef st0.

(** The fields no cleanup visit of the logic module writes. *)
Definition Double_Logic_same_frame (st0 st : Double.Logic.State) : Prop :=
  Double.Logic.speedRef st = Double.Logic.speedRef st0
  /\ Double.Logic.isPlayingRef st = Double.Logic.isPlayingRef st0
  /\ Double.Logic.animationRef st = Double.Logic.animationRef st0
  /\ Double.Logic.playerRef st = Double.Logic.playerRef st0
  /\ Double.Logic.groundRef st = Double.Logic.groundRef st0.

(** The subtraction and the addition a frame performs on the segment [g]
    at speed [s] are exact: neither rounds. *)
Definition Double_crisp (s : float) (g : Double.Mesh) : Prop :=
  let z1 := (Double.z (Double.position g) - s)%float in
  exact z1 == exact (Double.z (Double.position g)) - exact s
  /\ (Double.Num.lt z1 (-20)%float = true -> exact (z1 + 200)%float == exact z1 + 200).

(** A scene of the monolithic component in play with two ground segments,
    the first about to pass the rear threshold. *)
Definition Double_wrap_scene : Double.Monolith.State :=
  Double.Monolith.mkState true
    (Some (Double.CreateBox (Double.mkVector3 0 0 0)))
    []
    [Double.CreateBox (Double.mkVector3 0 (-2) (-19.9));
     Double.CreateBox (Double.mkVector3 0 (-2) 5.1)]
    true (Double.Monolith.mkGameState true false 0 0.2) 0 false 0.2 0 true.

(** The logic module in play at top speed, two segments that sit on halves,
    the player in the centre lane. *)
Definition Double_Logic_wrap_scene : Double.Logic.State :=
  Double.Logic.mkState 0.5 0 true true 0
    (Some (Double.CreateBox (Double.mkVector3 0 0 0))) []
    [Double.CreateBox (Double.mkVector3 0 (-2) (-20));
     Double.CreateBox (Double.mkVector3 0 (-2) 5)] [].

Definition Double_grounded : Double.Logic.PlayerState :=
  Double.Logic.mkPlayerState 0 false 0.

(** The positions along the track of the meshes of a list. *)
Definition Double_zs (l : list Double.Mesh) : list float :=
  map (fun m => Double.z (Double.position m)) l.

(** What the monolithic pass removes, for a player at [p] and speed [s]: an
    obstacle that, once scrolled, does not collide and is behind the
    threshold. *)
Definition Double_swept (p : Double.Vector3) (s : float) (o : Double.Mesh) : bool :=
  negb (Double.Monolith.collides p (Double.position (Double_scrolled s o)))
  && Double_behind (Double_scrolled s o).

(** What the cleanup pass of the logic module leaves of an array: an
    obstacle behind the threshold goes, and the obstacle after it stays
    without being looked at. *)
Fixpoint Double_kept (l : list Double.Mesh) : list Double.Mesh :=
  match l with
  | [] => []
  | a :: l1 =>
      if Double_behind a
      then match l1 with [] => [] | b :: l2 => b :: Double_kept l2 end
      else a :: Double_kept l1
  end.

(** The tally of a cleanup walk: every dropped obstacle counts once in the
    perfect-run counter, scores 10, and scores 50 more each time the counter
    passes a multiple of 10. *)
Definition Double_tallied (st0 : Double.Logic.State) (l0 : list Double.Mesh)
    (w : list Double.Mesh * Double.Logic.State) : Prop :=
  (length (fst w) <= length l0)%nat
  /\ Double.Logic.perfectRunRef (snd w) =
     (Double.Logic.perfectRunRef st0 + Z.of_nat (length l0 - length (fst w)))%Z
  /\ Double.Logic.scoreRef (snd w) =
     (Double.Logic.scoreRef st0 + 10 * Z.of_nat (length l0 - length (fst w))
      + 50 * (Double.Logic.perfectRunRef (snd w) / 10
              - Double.Logic.perfectRunRef st0 / 10))%Z.

(** The number of frames the removal is said to take: the distance from the
    spawn position [P] to the rear threshold over the speed, rounded up. *)
Definition claimedFrames (P s : Q) : Z := Qceiling ((P + 20) / s).

(** Scenes in play at top speed, the player in the centre lane: the first
    obstacle, in the right lane, one unit short of the rear threshold, and a
    second one far ahead in the left lane. *)
Definition Double_near_scene : Double.Monolith.State :=
  Double.Monolith.mkState true
    (Some (Double.CreateBox (Double.mkVector3 0 0 0)))
    [Double.CreateBox (Double.mkVector3 2 0.5 (-19));
     Double.CreateBox (Double.mkVector3 (-2) 0.5 30)]
    [] true (Double.Monolith.mkGameState true false 0 0.5) 0 false 0.5 0 true.

Definition Double_Logic_near_scene : Double.Logic.State :=
  Double.Logic.mkState 0.5 0 true true 0
    (Some (Double.CreateBox (Double.mkVector3 0 0 0)))
    [Double.CreateBox (Double.mkVector3 2 0.5 (-19));
     Double.CreateBox (Double.mkVector3 (-2) 0.5 30)] [] [].

(** A run that spawns in the frame after the speed has reached its top
    value, in the right lane, and one that spawns in that frame and in the
    next. *)
Definition Double_late_envs (k : nat) : Double.Monolith.Frame :=
  if Nat.eqb k 3001
  then Double_tick (1000 + 16 * Double.Num.of_int (Z.of_nat k))%float 0.01 0.7
  else Double_calm k.

Definition Double_pair_envs (k : nat) : Double.Monolith.Frame :=
  if Nat.eqb k 3001 || Nat.eqb k 3002
  then Double_tick (1000 + 16 * Double.Num.of_int (Z.of_nat k))%float 0.01 0.7
  else Double_calm k.

(** ** What the component renders, and the events it receives *)

Module Component.
Local Open Scope js_scope.

(** The overlay of [Game]: the two read-outs with the numbers they format,
    and the three panels with the conditions under which the JSX renders
    them. *)
Inductive Overlay :=
| ScoreDisplay (score : Z)
| SpeedDisplay (speed : number)
| ControlsInfo
| GameOverScreen (finalScore : Z) (speed : number)
| StartScreen.

Definition render (g : Monolith.GameState) : list Overlay :=
  [ScoreDisplay (Monolith.score g); SpeedDisplay (Monolith.speed g)]
  ++ (if Monolith.isPlaying g then [ControlsInfo] else [])
  ++ (if Monolith.isGameOver g
      then [GameOverScreen (Monolith.score g) (Monolith.speed g)]
      else [])
  ++ (if negb (Monolith.isPlaying g) && negb (Monolith.isGameOver g)
      then [StartScreen] else []).

(** The buttons of the panels and their [onClick] handlers. *)
Inductive Button := StartGame | PlayAgain | MainMenu.

Definition buttons (o : Overlay) : list Button :=
  match o with
  | GameOverScreen _ _ => [PlayAgain; MainMenu]
  | StartScreen => [StartGame]
  | _ => []
  end.

Definition onClick (b : Button) : Monolith.State -> Monolith.State :=
  match b with
  | StartGame | PlayAgain => Monolith.startGame
  | MainMenu => Monolith.resetGame
  end.

Definition Button_eqb (a b : Button) : bool :=
  match a, b with
  | StartGame, StartGame | PlayAgain, PlayAgain | MainMenu, MainMenu => true
  | _, _ => false
  end.

Definition offered (b : Button) (g : Monolith.GameState) : bool :=
  existsb (fun o => existsb (Button_eqb b) (buttons o)) (render g).

(** The [switch] of [handleKeyDown] over [event.key]. *)
Definition keyOf (key : string) : Monolith.Key :=
  if ((key =? "ArrowLeft") || (key =? "a") || (key =? "A"))%string then Monolith.MoveLeft
  else if ((key =? "ArrowRight") || (key =? "d") || (key =? "D"))%string
  then Monolith.MoveRight
  else if ((key =? "ArrowUp") || (key =? " ") || (key =? "w") || (key =? "W"))%string
  then Monolith.Jump
  else Monolith.OtherKey.

(** What reaches the mounted component: an animation frame, a key, a click
    on a button (which does nothing unless a rendered panel holds it). *)
Inductive Event :=
| Frame (env : Monolith.Frame)
| KeyDown (key : string)
| Click (b : Button).

Definition dispatch (e : Event) (st : Monolith.State) : Monolith.State :=
  match e with
  | Frame env => Monolith.gameLoop env st
  | KeyDown key => Monolith.handleKeyDown (keyOf key) st
  | Click b => if offered b (Monolith.gameState st) then onClick b st else st
  end.

Definition mounted : Monolith.State := Monolith.initializeScene true Monolith.initial.

Definition play (events : list Event) (st : Monolith.State) : Monolith.State :=
  fold_left (fun s e => dispatch e s) events st.
End Component.

(** ** The overlay module, [GameUI] *)

Module GameUI.
Record Props := mkProps {
  isPlaying : bool;
  isGameOver : bool;
  score : Z;
  speed : number;
  level : option number
}.

Inductive Element := GameHUD | StartScreen | GameOverScreen | ControlsHint.

Definition GameUI (gameState : Props) : list Element :=
  [GameHUD]
  ++ (if negb (isPlaying gameState) && negb (isGameOver gameState) then [StartScreen] else [])
  ++ (if isGameOver gameState then [GameOverScreen] else [])
  ++ (if isPlaying gameState then [ControlsHint] else []).
End GameUI.

(** ** The input module, [useGameControls]: the keyboard *)

Module Controls.

Record Scheme := mkScheme {
  moveLeft : list string;
  moveRight : list string;
  jump : list string;
  pause : list string;
  restart : list string
}.

Inductive SchemeName := keyboard | alternative.

Definition CONTROL_SCHEMES (name : SchemeName) : Scheme :=
  match name with
  | keyboard =>
      mkScheme ["ArrowLeft"; "a"; "A"]%string ["ArrowRight"; "d"; "D"]%string
        ["ArrowUp"; " "; "w"; "W"]%string ["Escape"; "p"; "P"]%string ["r"; "R"]%string
  | alternative =>
      mkScheme ["q"; "Q"]%string ["e"; "E"]%string ["Space"; "ArrowUp"]%string
        ["Escape"]%string ["Enter"]%string
  end.

(** The callbacks the hook is handed, as transformers of the caller's state;
    [onPause] and [onRestart] may be missing. *)
Record ControlActions (St : Type) := mkControlActions {
  onMoveLeft : St -> St;
  onMoveRight : St -> St;
  onJump : St -> St;
  onPause : option (St -> St);
  onRestart : option (St -> St)
}.
Arguments mkControlActions {St}.
Arguments onMoveLeft {St}.
Arguments onMoveRight {St}.
Arguments onJump {St}.
Arguments onPause {St}.
Arguments onRestart {St}.

Record ControlState := mkControlState { isEnabled : bool; scheme : SchemeName }.

Definition defaultControlState : ControlState := mkControlState true keyboard.

(** [Object.values(scheme).flat()] and [Array.prototype.includes]. *)
Definition values (s : Scheme) : list string :=
  moveLeft s ++ moveRight s ++ jump s ++ pause s ++ restart s.

Definition includes (keys : list string) (key : string) : bool :=
  existsb (String.eqb key) keys.

(** [handleKeyDown]: the caller's state after the event, and whether
    [event.preventDefault()] was called. *)
Definition handleKeyDown {St : Type} (actions : ControlActions St)
    (controlState : ControlState) (key : string) (st : St) : St * bool :=
  if negb (isEnabled controlState) then (st, false)
  else
    let scheme := CONTROL_SCHEMES (scheme controlState) in
    let prevented := includes (values scheme) key in
    let st' :=
      if includes (moveLeft scheme) key then onMoveLeft actions st
      else if includes (moveRight scheme) key then onMoveRight actions st
      else if includes (jump scheme) key then onJump actions st
      else
        match includes (pause scheme) key, onPause actions with
        | true, Some f => f st
        | _, _ =>
            match includes (restart scheme) key, onRestart actions with
            | true, Some f => f st
            | _, _ => st
            end
        end in
    (st', prevented).
End Controls.

(** ** Vocabulary of the further statements *)

(** The number of obstacles spawned by the first [n] frames of a run. *)
Fixpoint spawns (envs : nat -> Monolith.Frame) (n : nat) (st : Monolith.State) : nat :=
  match n with
  | O => O
  | S n' =>
      (spawns envs n' st
       + if executes (Monolith.frames envs n' st) then length (spawned (envs n')) else 0)%nat
  end.

(** An action that is a frame or a key press. *)
Definition inert (a : Monolith.Action) : Prop :=
  match a with
  | Monolith.Tick _ | Monolith.Press _ => True
  | _ => False
  end.

(** What the overlay state has to do with the refs in a state the mounted
    component can be in. *)
Definition shown_right (st : Monolith.State) : Prop :=
  let g := Monolith.gameState st in
  Monolith.isPlayingRef st = Monolith.isPlaying g
  /\ Monolith.isPlaying g && Monolith.isGameOver g = false
  /\ (Monolith.isPlaying g = true \/ Monolith.isGameOver g = true ->
      Monolith.score g = Monolith.scoreRef st
      /\ Monolith.speed g = Monolith.speedRef st)
  /\ (Monolith.isPlaying g = false -> Monolith.isGameOver g = false ->
      Monolith.score g = 0%Z /\ Monolith.speed g = 0.2).

(** The same during an obstacle pass of a session in play. *)
Definition shown_in_pass (st : Monolith.State) : Prop :=
  let g := Monolith.gameState st in
  Monolith.isPlayingRef st = Monolith.isPlaying g
  /\ Monolith.isPlaying g && Monolith.isGameOver g = false
  /\ (Monolith.isPlaying g = true \/ Monolith.isGameOver g = true)
  /\ Monolith.score g = Monolith.scoreRef st.

(** What a caller that listens to the logic module's callbacks knows: the
    score of the last [onScoreUpdate] among the calls (or [d], the score it
    knew before), and how often [onGameOver] was called. *)
Fixpoint lastScore (d : Z) (cs : list Logic.Call) : Z :=
  match cs with
  | [] => d
  | Logic.onScoreUpdate s _ :: cs' => lastScore s cs'
  | Logic.onGameOver :: cs' => lastScore d cs'
  end.

Fixpoint gameOvers (cs : list Logic.Call) : nat :=
  match cs with
  | [] => 0
  | Logic.onGameOver :: cs' => S (gameOvers cs')
  | Logic.onScoreUpdate _ _ :: cs' => gameOvers cs'
  end.

(** The calls made since [st0], as seen from a later state [st]: they told
    the caller the score, and whether the session has ended. *)
Definition reported (st0 st : Logic.State) (new : list Logic.Call) : Prop :=
  Logic.calls st = Logic.calls st0 ++ new
  /\ lastScore (Logic.scoreRef st0) new = Logic.scoreRef st
  /\ gameOvers new
     = (if Logic.isPlayingRef st0 && negb (Logic.isPlayingRef st) then 1 else 0)%nat
  /\ (Logic.isPlayingRef st0 = false -> new = [] /\ Logic.isPlayingRef st = false)
  /\ (Logic.isPlayingRef st0 = true -> Logic.isPlayingRef st = false ->
      exists pre, new = pre ++ [Logic.onGameOver]).

(** The three updates of the component's own key handler, handed to the
    input module as its callbacks. *)
Definition componentActions : Controls.ControlActions Monolith.State :=
  Controls.mkControlActions
    (fun st => Monolith.set_playerPosition st (Z.max (Monolith.playerPosition st - 1) (-1)))
    (fun st => Monolith.set_playerPosition st (Z.min (Monolith.playerPosition st + 1) 1))
    (fun st => if negb (Monolith.isJumping st) then Monolith.set_isJumping st true else st)
    None None.

(** * Properties *)

(** ** Arithmetic *)

Lemma add_spec (a b : Q) : Num.add a b == a + b.
Proof. apply Qred_correct. Qed.

Lemma sub_spec (a b : Q) : Num.sub a b == a - b.
Proof. apply Qred_correct. Qed.

Lemma mul_spec (a b : Q) : Num.mul a b == a * b.
Proof. apply Qred_correct. Qed.

Lemma lt_spec (a b : Q) : Num.lt a b = true <-> a < b.
Proof.
  unfold Num.lt. rewrite negb_true_iff. split.
  - intros H. apply Qnot_le_lt. intros Hle.
    apply Qle_bool_iff in Hle. congruence.
  - intros H. destruct (Qle_bool b a) eqn:E; [|reflexivity].
    apply Qle_bool_iff in E. lra.
Qed.

Lemma lt_false (a b : Q) : Num.lt a b = false <-> b <= a.
Proof.
  unfold Num.lt. rewrite negb_false_iff. apply Qle_bool_iff.
Qed.

Lemma ge_spec (a b : Q) : Num.ge a b = true <-> b <= a.
Proof. apply Qle_bool_iff. Qed.

Lemma ge_false (a b : Q) : Num.ge a b = false <-> a < b.
Proof.
  unfold Num.ge. split.
  - intros H. apply Qnot_le_lt. intros Hle.
    apply Qle_bool_iff in Hle. congruence.
  - intros H. destruct (Qle_bool b a) eqn:E; [|reflexivity].
    apply Qle_bool_iff in E. lra.
Qed.

(** ** [forEach] as a walk over the list *)

Section ForEachFacts.
Context {St A : Type}.
Variable arr : St -> list A.
Variable set_arr : St -> list A -> St.
Hypothesis arr_set : forall st l, arr (set_arr st l) = l.
Hypothesis set_set : forall st l l', set_arr (set_arr st l) l' = set_arr st l'.
Hypothesis set_id : forall st, set_arr st (arr st) = st.

Variable visit : A -> nat -> St -> option A * St.
Hypothesis visit_set : forall a k st l,
  visit a k (set_arr st l) = (fst (visit a k st), set_arr (snd (visit a k st)) l).

Variable callback : A -> nat -> St -> St.
Hypothesis callback_visit : forall a k st,
  arr st !! k = Some a ->
  callback a k st =
  set_arr (snd (visit a k st))
    (match fst (visit a k st) with
     | Some a' => <[k := a']> (arr st)
     | None => delete k (arr st)
     end).

Lemma forEach_from_past n k st :
  (length (arr st) <= k)%nat -> forEach_from arr callback n k st = st.
Proof.
  revert k. induction n as [|n IH]; intros k Hk; simpl; [reflexivity|].
  rewrite lookup_ge_None_2 by exact Hk. apply IH. lia.
Qed.

Lemma walk_set n : forall k l st x,
  (length l <= n)%nat ->
  walk visit k l (set_arr st x) =
  (fst (walk visit k l st), set_arr (snd (walk visit k l st)) x).
Proof.
  induction n as [|n IH]; intros k l st x Hl.
  - destruct l; [reflexivity | simpl in Hl; lia].
  - destruct l as [|a l1]; [reflexivity|].
    simpl in Hl. simpl. rewrite visit_set.
    destruct (visit a k st) as [[a'|] st1]; simpl.
    + rewrite IH by lia. destruct (walk visit (S k) l1 st1); reflexivity.
    + destruct l1 as [|b l2]; [reflexivity|].
      simpl in Hl. rewrite IH by lia.
      destruct (walk visit (S k) l2 st1); reflexivity.
Qed.

Lemma forEach_from_walk n : forall k st done todo,
  arr st = done ++ todo -> length done = k -> (length todo <= n)%nat ->
  forEach_from arr callback n k st =
  set_arr (snd (walk visit k todo st)) (done ++ fst (walk visit k todo st)).
Proof.
  induction n as [|n IH]; intros k st done todo Harr Hk Hn.
  - destruct todo; [|simpl in Hn; lia]. simpl.
    rewrite app_nil_r, <- (app_nil_r done), <- Harr. symmetry. apply set_id.
  - destruct todo as [|a l1].
    + simpl walk. simpl fst. simpl snd.
      rewrite forEach_from_past.
      * rewrite <- Harr. symmetry. apply set_id.
      * rewrite Harr, app_nil_r. lia.
    + simpl forEach_from. rewrite Harr.
      rewrite list_lookup_middle by (symmetry; exact Hk).
      rewrite callback_visit
        by (rewrite Harr; apply list_lookup_middle; symmetry; exact Hk).
      rewrite Harr. simpl walk.
      destruct (visit a k st) as [[a'|] st1]; simpl fst; simpl snd; cbv beta iota.
      * assert (Hins : <[k := a']> (done ++ a :: l1) = (done ++ [a']) ++ l1).
        { subst k. replace (length done) with (length done + 0)%nat by lia.
          rewrite insert_app_r. simpl. rewrite <- app_assoc. reflexivity. }
        rewrite Hins.
        rewrite (IH (S k) _ (done ++ [a']) l1).
        -- rewrite walk_set with (n := n) by (simpl in Hn; lia).
           simpl. rewrite set_set.
           destruct (walk visit (S k) l1 st1) as [r st2]. simpl.
           rewrite <- app_assoc. reflexivity.
        -- apply arr_set.
        -- rewrite length_app. simpl. lia.
        -- simpl in Hn. lia.
      * assert (Hdel : delete k (done ++ a :: l1) = done ++ l1).
        { subst k. apply delete_middle. }
        rewrite Hdel.
        destruct l1 as [|b l2].
        -- simpl. rewrite forEach_from_past; [reflexivity|].
           rewrite arr_set, app_nil_r. lia.
        -- rewrite (IH (S k) _ (done ++ [b]) l2).
           ++ rewrite walk_set with (n := n) by (simpl in Hn; lia).
              simpl. rewrite set_set.
              destruct (walk visit (S k) l2 st1) as [r st2]. simpl.
              rewrite <- app_assoc. reflexivity.
           ++ rewrite arr_set, <- app_assoc. reflexivity.
           ++ rewrite length_app. simpl. lia.
           ++ simpl in Hn. lia.
Qed.

Lemma forEach_walk st :
  forEach arr callback st =
  set_arr (snd (walk visit 0 (arr st) st)) (fst (walk visit 0 (arr st) st)).
Proof.
  unfold forEach.
  apply (forEach_from_walk (length (arr st)) 0%nat st [] (arr st)); auto.
Qed.
End ForEachFacts.

(** A property of the store that every callback keeps is kept by the pass. *)
Lemma forEach_from_keeps {St A : Type} (arr : St -> list A)
    (callback : A -> nat -> St -> St) (P : St -> Prop) :
  (forall a k st, P st -> P (callback a k st)) ->
  forall n k st, P st -> P (forEach_from arr callback n k st).
Proof.
  intros Hcb n. induction n as [|n IH]; intros k st HP; simpl; [exact HP|].
  destruct (arr st !! k); apply IH; auto.
Qed.

Lemma forEach_keeps {St A : Type} (arr : St -> list A)
    (callback : A -> nat -> St -> St) (P : St -> Prop) :
  (forall a k st, P st -> P (callback a k st)) ->
  forall st, P st -> P (forEach arr callback st).
Proof. intros Hcb st. apply forEach_from_keeps. exact Hcb. Qed.

(** ** The passes of the two loops, read as walks *)

Lemma delete_insert_same {A : Type} (l : list A) (k : nat) (v : A) :
  delete k (<[k := v]> l) = delete k l.
Proof.
  revert k. induction l as [|a l IH]; intros [|k]; simpl; try reflexivity.
  f_equal. apply IH.
Qed.

Lemma position_animate t o : position (Monolith.animate t o) = position o.
Proof.
  unfold Monolith.animate. destruct (spawnTime o) as [t0|]; [|reflexivity].
  destruct (t0 =? 0)%Z; [reflexivity|].
  match goal with |- context [if ?c then _ else _] => destruct c end; reflexivity.
Qed.

Lemma Logic_set_id st : Logic.set_obstaclesRef st (Logic.obstaclesRef st) = st.
Proof. destruct st; reflexivity. Qed.

Lemma Monolith_set_id st : Monolith.set_obstaclesRef st (Monolith.obstaclesRef st) = st.
Proof. destruct st; reflexivity. Qed.

Lemma cleanupObstacles_walk st :
  Logic.cleanupObstacles st =
  Logic.set_obstaclesRef
    (snd (walk cleanupVisit 0 (Logic.obstaclesRef st) st))
    (fst (walk cleanupVisit 0 (Logic.obstaclesRef st) st)).
Proof.
  unfold Logic.cleanupObstacles.
  apply (forEach_walk Logic.obstaclesRef Logic.set_obstaclesRef); try reflexivity.
  - apply Logic_set_id.
  - intros a k s l. unfold cleanupVisit, scored. simpl.
    destruct (behind a); [|reflexivity].
    destruct (Z.rem (Logic.perfectRunRef s + 1) 10 =? 0)%Z; reflexivity.
  - intros a k s Hk. unfold Logic.cleanupStep, cleanupVisit, behind.
    destruct (Num.lt (z (position a)) (-20)); simpl.
    + unfold scored. simpl.
      destruct (Z.rem (Logic.perfectRunRef s + 1) 10 =? 0)%Z; reflexivity.
    + rewrite list_insert_id by exact Hk. symmetry. apply Logic_set_id.
Qed.

Lemma obstaclePass_walk env player st :
  forEach Monolith.obstaclesRef (Monolith.obstacleStep env player) st =
  Monolith.set_obstaclesRef
    (snd (walk (obstacleVisit env player) 0 (Monolith.obstaclesRef st) st))
    (fst (walk (obstacleVisit env player) 0 (Monolith.obstaclesRef st) st)).
Proof.
  apply (forEach_walk Monolith.obstaclesRef Monolith.set_obstaclesRef); try reflexivity.
  - apply Monolith_set_id.
  - intros a k s l. unfold obstacleVisit. simpl.
    destruct (Monolith.collides _ _); [reflexivity|].
    destruct (behind _); reflexivity.
  - intros a k s Hk. unfold Monolith.obstacleStep, obstacleVisit, behind, scrolled.
    cbv zeta. rewrite !position_animate.
    destruct (Monolith.collides _ _); [reflexivity|]. simpl.
    match goal with |- context [Num.lt ?a ?b] => destruct (Num.lt a b) end; simpl.
    + rewrite delete_insert_same. reflexivity.
    + reflexivity.
Qed.

(** What every visit keeps, the walk keeps. *)
Lemma walk_keeps {St A : Type} (visit : A -> nat -> St -> option A * St)
    (P : St -> Prop) :
  (forall a k st, P st -> P (snd (visit a k st))) ->
  forall n k l st, (length l <= n)%nat -> P st -> P (snd (walk visit k l st)).
Proof.
  intros Hv n. induction n as [|n IH]; intros k l st Hl HP.
  - destruct l; [exact HP | simpl in Hl; lia].
  - destruct l as [|a l1]; [exact HP|]. simpl in Hl. simpl.
    specialize (Hv a k st HP).
    destruct (visit a k st) as [[a'|] st1]; simpl in Hv.
    + specialize (IH (S k) l1 st1 ltac:(lia) Hv).
      destruct (walk visit (S k) l1 st1); exact IH.
    + destruct l1 as [|b l2]; [exact Hv|]. simpl in Hl.
      specialize (IH (S k) l2 st1 ltac:(lia) Hv).
      destruct (walk visit (S k) l2 st1); exact IH.
Qed.

(** A visit that never drops and never touches the store maps the list. *)
Lemma walk_map {St A : Type} (f : St -> A -> A) (l : list A) :
  forall k st,
    walk (fun a (_ : nat) s => (Some (f s a), s)) k l st = (map (f st) l, st).
Proof.
  induction l as [|a l IH]; intros k st; simpl; [reflexivity|].
  rewrite IH. reflexivity.
Qed.

Lemma Monolith_ground_set_id st : Monolith.set_groundRef st (Monolith.groundRef st) = st.
Proof. destruct st; reflexivity. Qed.

Lemma Logic_ground_set_id st : Logic.set_groundRef st (Logic.groundRef st) = st.
Proof. destruct st; reflexivity. Qed.

(** The ground pass of either loop recycles every segment at the frame's
    speed. *)
Lemma Monolith_groundPass st :
  forEach Monolith.groundRef Monolith.groundStep st =
  Monolith.set_groundRef st (map (recycled (Monolith.speedRef st)) (Monolith.groundRef st)).
Proof.
  rewrite (forEach_walk Monolith.groundRef Monolith.set_groundRef
             ltac:(reflexivity) ltac:(reflexivity) Monolith_ground_set_id
             (fun g (_ : nat) s => (Some (recycled (Monolith.speedRef s) g), s))).
  - rewrite walk_map. reflexivity.
  - reflexivity.
  - reflexivity.
Qed.

Lemma Logic_groundPass st :
  forEach Logic.groundRef Logic.groundStep st =
  Logic.set_groundRef st (map (recycled (Logic.speedRef st)) (Logic.groundRef st)).
Proof.
  rewrite (forEach_walk Logic.groundRef Logic.set_groundRef
             ltac:(reflexivity) ltac:(reflexivity) Logic_ground_set_id
             (fun g (_ : nat) s => (Some (recycled (Logic.speedRef s) g), s))).
  - rewrite walk_map. reflexivity.
  - reflexivity.
  - reflexivity.
Qed.

Lemma Logic_scrollPass st :
  forEach Logic.obstaclesRef Logic.scrollStep st =
  Logic.set_obstaclesRef st (map (scrolled (Logic.speedRef st)) (Logic.obstaclesRef st)).
Proof.
  rewrite (forEach_walk Logic.obstaclesRef Logic.set_obstaclesRef
             ltac:(reflexivity) ltac:(reflexivity) Logic_set_id
             (fun o (_ : nat) s => (Some (scrolled (Logic.speedRef s) o), s))).
  - rewrite walk_map. reflexivity.
  - reflexivity.
  - reflexivity.
Qed.

Lemma Logic_moveWorld st :
  Logic.moveWorld st =
  Logic.set_obstaclesRef
    (Logic.set_groundRef st (map (recycled (Logic.speedRef st)) (Logic.groundRef st)))
    (map (scrolled (Logic.speedRef st)) (Logic.obstaclesRef st)).
Proof.
  unfold Logic.moveWorld. rewrite Logic_groundPass, Logic_scrollPass. reflexivity.
Qed.

(** ** One monolithic frame, field by field *)

Lemma obstacleVisit_same_frame env player st0 a k st :
  same_frame st0 st -> same_frame st0 (snd (obstacleVisit env player a k st)).
Proof.
  unfold obstacleVisit. intros H.
  destruct (Monolith.collides _ _); [exact H|].
  destruct (behind _); exact H.
Qed.

Lemma obstaclePass_same_frame env player st :
  same_frame st (snd (obstaclePass env player st)).
Proof.
  unfold obstaclePass.
  apply (walk_keeps _ (same_frame st) (obstacleVisit_same_frame env player st)
           (length (Monolith.obstaclesRef st))); [lia|].
  repeat split.
Qed.

Lemma obstacleVisit_ground env player a k st g :
  obstacleVisit env player a k (Monolith.set_groundRef st g) =
  (fst (obstacleVisit env player a k st),
   Monolith.set_groundRef (snd (obstacleVisit env player a k st)) g).
Proof.
  unfold obstacleVisit. simpl.
  destruct (Monolith.collides _ _); [reflexivity|].
  destruct (behind _); reflexivity.
Qed.

Lemma gameLoop_executes env st player :
  executes st = true -> Monolith.playerRef st = Some player ->
  let w := obstaclePass env player st in
  let mv := Monolith.movePlayer (Monolith.playerPosition st) (Monolith.isJumping st)
              (position player) in
  let v := Num.min (Num.add (Monolith.speedRef st) 0.0001) 0.5 in
  Monolith.gameLoop env st =
  Monolith.mkState true
    (Some (set_position player (fst mv)))
    (fst w ++ spawned env)
    (map (recycled (Monolith.speedRef st)) (Monolith.groundRef st))
    (if Monolith.isPlayingRef (snd w) then true else Monolith.animationRef st)
    (Monolith.with_speed (Monolith.gameState (snd w)) v)
    (Monolith.playerPosition st)
    (snd mv)
    v
    (Monolith.scoreRef (snd w))
    (Monolith.isPlayingRef (snd w)).
Proof.
  unfold executes. intros Hex Hp. cbv zeta.
  apply andb_true_iff in Hex as [Hex Hscene].
  apply andb_true_iff in Hex as [Hplay _].
  unfold Monolith.gameLoop. rewrite Hplay, Hp, Hscene. simpl negb. cbv iota.
  rewrite Monolith_groundPass, obstaclePass_walk.
  change (Monolith.obstaclesRef (Monolith.set_groundRef st ?g))
    with (Monolith.obstaclesRef st).
  rewrite (walk_set Monolith.set_groundRef (obstacleVisit env player)
             (obstacleVisit_ground env player)
             (length (Monolith.obstaclesRef st))) by lia.
  fold (obstaclePass env player st).
  pose proof (obstaclePass_same_frame env player st) as Hsame.
  destruct (obstaclePass env player st) as [l st'].
  destruct Hsame as (H1 & H2 & H3 & H4 & H5 & H6 & H7).
  destruct (Monolith.movePlayer _ _ _) as [p jumping] eqn:Emv.
  destruct st' as [sc pl ob gr an gs pp ij sp so ip].
  simpl in H1, H2, H3, H4, H5, H6, H7. subst sc pl gr an pp ij sp.
  unfold spawned, Monolith.createObstacle. simpl. rewrite Hscene.
  destruct (Num.lt (Monolith.spawnRoll env) 0.02); simpl;
    rewrite ?app_nil_r; destruct ip; reflexivity.
Qed.

(** A call that does not get past the guard changes nothing. *)
Lemma gameLoop_idle env st : executes st = false -> Monolith.gameLoop env st = st.
Proof.
  unfold executes, Monolith.gameLoop. intros H.
  destruct (Monolith.isPlayingRef st); [|reflexivity].
  destruct (Monolith.playerRef st); [|reflexivity].
  destruct (Monolith.sceneRef st); [discriminate | reflexivity].
Qed.

(** ** The verdict of the monolithic obstacle pass *)

Lemma behind_animate t o : behind (Monolith.animate t o) = behind o.
Proof. unfold behind. rewrite position_animate. reflexivity. Qed.

Lemma obstaclePass_verdict env player n : forall k l st,
  (length l <= n)%nat ->
  Monolith.isPlayingRef (snd (walk (obstacleVisit env player) k l st)) =
  Monolith.isPlayingRef st
  && negb (existsb (fun o => Monolith.collides (position player) (position o))
             (checked (position player) (Monolith.speedRef st) l)).
Proof.
  induction n as [|n IH]; intros k l st Hl.
  - destruct l; [|simpl in Hl; lia]. simpl. rewrite andb_true_r. reflexivity.
  - destruct l as [|a l1]; [simpl; rewrite andb_true_r; reflexivity|].
    simpl in Hl. simpl walk. unfold obstacleVisit at 1. cbv zeta.
    rewrite position_animate, behind_animate. cbn [checked existsb].
    destruct (Monolith.collides (position player)
                (position (scrolled (Monolith.speedRef st) a))) eqn:Ec.
    + specialize (IH (S k) l1 (declared st) ltac:(lia)).
      destruct (walk (obstacleVisit env player) (S k) l1 (declared st)) as [r st2].
      cbn [fst snd] in *. rewrite IH. cbn [orb negb].
      change (Monolith.isPlayingRef (declared st)) with false.
      rewrite andb_false_r. reflexivity.
    + cbn [negb andb orb].
      destruct (behind (scrolled (Monolith.speedRef st) a)).
      * destruct l1 as [|b l2].
        -- cbn [fst snd existsb negb]. rewrite andb_true_r. reflexivity.
        -- simpl in Hl. specialize (IH (S k) l2 (scored10 st) ltac:(lia)).
           destruct (walk (obstacleVisit env player) (S k) l2 (scored10 st)) as [r st2].
           cbn [fst snd] in *. exact IH.
      * specialize (IH (S k) l1 st ltac:(lia)).
        destruct (walk (obstacleVisit env player) (S k) l1 st) as [r st2].
        cbn [fst snd] in *. exact IH.
Qed.

Lemma checked_all p s l :
  (forall o, In o l -> behind (scrolled s o) = false) ->
  checked p s l = map (scrolled s) l.
Proof.
  induction l as [|o l IH]; intros H; [reflexivity|].
  simpl. rewrite (H o) by (left; reflexivity). rewrite andb_false_r.
  f_equal. apply IH. intros o' Ho'. apply H. right. exact Ho'.
Qed.


(** ** Collision detection (C1) *)

Lemma collides_overlap p o : Monolith.collides p o = true <-> overlap p o.
Proof.
  unfold Monolith.collides, overlap.
  rewrite !andb_true_iff, !lt_spec. unfold Num.abs, Num.sub.
  rewrite !Qred_correct. tauto.
Qed.

Lemma hits_overlap p m : Logic.hits p m = true <-> overlap p (position m).
Proof.
  unfold Logic.hits, overlap, GAME_RULES.tolerance, GAME_RULES.jumpSafeHeight,
    PHYSICS_CONFIG.collisionDistance.
  rewrite !andb_true_iff, !lt_spec. unfold Num.abs, Num.sub.
  rewrite !Qred_correct. tauto.
Qed.





(** ** Starting a session (C7) *)

Lemma obstacleVisit_not_playing env player a k st :
  Monolith.isPlaying (Monolith.gameState st) = false ->
  Monolith.isPlaying (Monolith.gameState (snd (obstacleVisit env player a k st))) = false.
Proof.
  unfold obstacleVisit. intros H.
  destruct (Monolith.collides _ _); [reflexivity|].
  destruct (behind _); exact H.
Qed.

Lemma gameLoop_not_playing env st :
  Monolith.isPlaying (Monolith.gameState st) = false ->
  Monolith.isPlaying (Monolith.gameState (Monolith.gameLoop env st)) = false.
Proof.
  intros H. destruct (executes st) eqn:Hex.
  - destruct (Monolith.playerRef st) as [player|] eqn:Hp.
    + rewrite (gameLoop_executes env st player Hex Hp). simpl.
      unfold obstaclePass.
      apply (walk_keeps _ (fun s => Monolith.isPlaying (Monolith.gameState s) = false)
               (obstacleVisit_not_playing env player)
               (length (Monolith.obstaclesRef st))); [lia | exact H].
    + unfold executes in Hex. rewrite Hp, andb_false_r in Hex. discriminate.
  - rewrite gameLoop_idle by exact Hex. exact H.
Qed.

(** C7.  The start action of the monolithic component resets score and speed
    (refs and displayed state) to 0 and 0.2, the lane to 0 and the jump flag to
    false, puts the player mesh at the origin, empties the obstacle array,
    leaves the ground array as it is and makes the session Playing; of the
    actions of the component it is the only one after which a session that
    was not playing is playing.  The
    logic module's [startGame] resets the refs it owns (score, speed,
    perfect-run counter) and touches none of the meshes. *)
Theorem start_resets_session :
  (forall st,
      let st' := Monolith.startGame st in
      Monolith.scoreRef st' = 0%Z
      /\ Monolith.score (Monolith.gameState st') = 0%Z
      /\ Monolith.speedRef st' = 0.2
      /\ Monolith.speed (Monolith.gameState st') = 0.2
      /\ Monolith.playerPosition st' = 0%Z
      /\ Monolith.isJumping st' = false
      /\ Monolith.playerRef st' =
         option_map (fun player => set_position player (mkVector3 0 0 0))
                    (Monolith.playerRef st)
      /\ Monolith.obstaclesRef st' = []
      /\ Monolith.groundRef st' = Monolith.groundRef st
      /\ Monolith.isPlaying (Monolith.gameState st') = true
      /\ Monolith.isGameOver (Monolith.gameState st') = false
      /\ Monolith.isPlayingRef st' = true)
  /\ (forall a st,
        Monolith.isPlaying (Monolith.gameState st) = false ->
        Monolith.isPlaying (Monolith.gameState (Monolith.step a st)) =
        match a with Monolith.Start => true | _ => false end)
  /\ (forall st,
        let st' := Logic.startGame st in
        Logic.scoreRef st' = 0%Z
        /\ Logic.speedRef st' = PHYSICS_CONFIG.baseSpeed
        /\ Logic.perfectRunRef st' = 0%Z
        /\ Logic.isPlayingRef st' = true
        /\ Logic.groundRef st' = Logic.groundRef st
        /\ Logic.obstaclesRef st' = Logic.obstaclesRef st
        /\ Logic.playerRef st' = Logic.playerRef st).
Proof.
  split; [|split].
  - intros st. cbv zeta. unfold Monolith.startGame. simpl.
    destruct (Monolith.playerRef st) eqn:E; simpl; rewrite ?E;
      repeat split; reflexivity.
  - intros a st Hoff. destruct a as [canvas|env| | |k]; simpl.
    + unfold Monolith.initializeScene. destruct canvas; simpl; exact Hoff.
    + apply gameLoop_not_playing. exact Hoff.
    + unfold Monolith.startGame. simpl.
      destruct (Monolith.playerRef st); reflexivity.
    + reflexivity.
    + unfold Monolith.handleKeyDown. rewrite Hoff. simpl. exact Hoff.
  - intros st. cbv zeta. repeat split; reflexivity.
Qed.

(** The second part at work: on the menu a jump key does not start a
    session. *)
Lemma start_resets_session_witness :
  Monolith.isPlaying
    (Monolith.gameState (Monolith.step (Monolith.Press Monolith.Jump) Monolith.initial))
  = false.
Proof.
  apply (proj1 (proj2 start_resets_session)
           (Monolith.Press Monolith.Jump) Monolith.initial).
  reflexivity.
Defined.

(** ** Scoring a removal in the logic module (C8) *)

Lemma bonus_step (n : Z) :
  (0 <= n)%Z ->
  ((if (Z.rem (n + 1) 10 =? 0)%Z then 50 else 0) = 50 * ((n + 1) / 10 - n / 10))%Z.
Proof.
  intros Hn. rewrite Z.rem_mod_nonneg by lia.
  destruct (Z.eqb_spec ((n + 1) mod 10) 0) as [E|E];
    Z.div_mod_to_equations; lia.
Qed.

Lemma scored_fields st :
  Logic.perfectRunRef (scored st) = (Logic.perfectRunRef st + 1)%Z
  /\ Logic.scoreRef (scored st) =
     (Logic.scoreRef st + 10
      + (if (Z.rem (Logic.perfectRunRef st + 1) 10 =? 0)%Z then 50 else 0))%Z
  /\ Logic.speedRef (scored st) = Logic.speedRef st
  /\ Logic.isPlayingRef (scored st) = Logic.isPlayingRef st
  /\ Logic.playerRef (scored st) = Logic.playerRef st
  /\ Logic.groundRef (scored st) = Logic.groundRef st
  /\ Logic.animationRef (scored st) = Logic.animationRef st.
Proof.
  unfold scored, GAME_RULES.pointsPerObstacle, GAME_RULES.perfectRunBonus. simpl.
  destruct (Z.rem (Logic.perfectRunRef st + 1) 10 =? 0)%Z; simpl;
    repeat split; lia.
Qed.

Lemma cleanup_walk_tallied n : forall k l st,
  (length l <= n)%nat -> (0 <= Logic.perfectRunRef st)%Z ->
  tallied st l (walk cleanupVisit k l st).
Proof.
  induction n as [|n IH]; intros k l st Hl Hpr.
  - destruct l; [|simpl in Hl; lia]. unfold tallied. simpl.
    repeat split; lia.
  - destruct l as [|a l1].
    { unfold tallied. simpl. repeat split; lia. }
    simpl in Hl. simpl walk. unfold cleanupVisit at 1.
    destruct (behind a).
    + pose proof (scored_fields st) as (Hp & Hs & Hv & Hi & Hpl & Hg & Ha).
      pose proof (bonus_step (Logic.perfectRunRef st) Hpr) as Hb.
      destruct l1 as [|b l2].
      * unfold tallied. cbn [fst snd length].
        rewrite Hp, Hs, Hv, Hi, Hpl, Hg, Ha, Hb.
        repeat split; lia.
      * simpl in Hl.
        specialize (IH (S k) l2 (scored st) ltac:(lia) ltac:(lia)).
        destruct (walk cleanupVisit (S k) l2 (scored st)) as [r st2].
        unfold tallied in *. cbn [fst snd length] in *.
        destruct IH as (I1 & I2 & I3 & I4 & I5 & I6 & I7 & I8).
        rewrite I4, I5, I6, I7, I8, Hv, Hi, Hpl, Hg, Ha.
        rewrite Hs, Hb in I3. rewrite Hp in I2, I3.
        replace (S (S (length l2)) - S (length r))%nat
          with (S (length l2 - length r))%nat by lia.
        repeat split; try lia.
    + specialize (IH (S k) l1 st ltac:(lia) Hpr).
      destruct (walk cleanupVisit (S k) l1 st) as [r st2].
      unfold tallied in *. cbn [fst snd length] in *.
      destruct IH as (I1 & I2 & I3 & I4 & I5 & I6 & I7 & I8).
      repeat split; try assumption; try lia.
Qed.

Lemma cleanupObstacles_tallied st :
  (0 <= Logic.perfectRunRef st)%Z ->
  tallied st (Logic.obstaclesRef st)
    (Logic.obstaclesRef (Logic.cleanupObstacles st), Logic.cleanupObstacles st).
Proof.
  intros Hpr. rewrite cleanupObstacles_walk.
  pose proof (cleanup_walk_tallied (length (Logic.obstaclesRef st)) 0
                (Logic.obstaclesRef st) st ltac:(lia) Hpr) as H.
  destruct (walk cleanupVisit 0 (Logic.obstaclesRef st) st) as [r st2].
  unfold tallied in *. simpl in *. exact H.
Qed.

Lemma Logic_gameLoop_idle ps st :
  Logic.isPlayingRef st = false \/ Logic.playerRef st = None ->
  Logic.gameLoop ps st = st.
Proof.
  unfold Logic.gameLoop. intros [H|H]; rewrite H; simpl; [reflexivity|].
  destruct (Logic.isPlayingRef st); reflexivity.
Qed.

(** One frame of the logic module that gets past the guard. *)
Lemma Logic_gameLoop_executes ps st player :
  Logic.isPlayingRef st = true -> Logic.playerRef st = Some player ->
  let player1 := Logic.updatePlayerMovement player ps in
  let st2 := Logic.set_playerRef (Logic.moveWorld st) (Some player1) in
  Logic.gameLoop ps st =
  if Logic.checkCollisions player1
       (map (scrolled (Logic.speedRef st)) (Logic.obstaclesRef st))
  then Logic.call (Logic.set_isPlayingRef st2 false) Logic.onGameOver
  else Logic.set_animationRef (Logic.updateDifficulty (Logic.cleanupObstacles st2)) true.
Proof.
  intros Hplay Hp. cbv zeta. unfold Logic.gameLoop. rewrite Hplay, Hp. simpl negb.
  cbv iota.
  change (Logic.obstaclesRef (Logic.set_playerRef (Logic.moveWorld st) ?p))
    with (Logic.obstaclesRef (Logic.moveWorld st)).
  rewrite Logic_moveWorld at 1.
  change (Logic.obstaclesRef (Logic.set_obstaclesRef ?s ?l)) with l.
  destruct (Logic.checkCollisions _ _); [reflexivity|].
  set (st2 := Logic.set_playerRef (Logic.moveWorld st)
                (Some (Logic.updatePlayerMovement player ps))).
  assert (Hpl : Logic.isPlayingRef (Logic.updateDifficulty (Logic.cleanupObstacles st2)) = true).
  { change (Logic.isPlayingRef (Logic.cleanupObstacles st2) = true).
    unfold Logic.cleanupObstacles.
    apply (forEach_keeps Logic.obstaclesRef Logic.cleanupStep
             (fun s => Logic.isPlayingRef s = true)).
    - intros a k s Hs. unfold Logic.cleanupStep.
      destruct (Num.lt _ _); [|exact Hs]. simpl.
      destruct (Z.rem _ _ =? 0)%Z; exact Hs.
    - subst st2. rewrite Logic_moveWorld. exact Hplay. }
  rewrite Hpl. reflexivity.
Qed.

(** C8.  In the logic module every removal takes the obstacle out of the
    array, adds 1 to the perfect-run counter and 10 to the score, and adds 50
    more, 60 in all, exactly when the counter becomes a multiple of 10; an
    obstacle that is not behind the threshold changes nothing.  Over a whole
    cleanup pass the counter grows by the number of obstacles removed, and
    over any run of frames after a start the counter is the number of
    removals since that start and the score is 10 per removal plus 50 per
    full ten of them. *)
Theorem removal_scores_with_bonus :
  (forall obstacle index st,
      behind obstacle = true ->
      let st' := Logic.cleanupStep obstacle index st in
      Logic.obstaclesRef st' = delete index (Logic.obstaclesRef st)
      /\ Logic.perfectRunRef st' = (Logic.perfectRunRef st + 1)%Z
      /\ (Z.rem (Logic.perfectRunRef st') 10 = 0%Z ->
          Logic.scoreRef st' = (Logic.scoreRef st + 60)%Z)
      /\ (Z.rem (Logic.perfectRunRef st') 10 <> 0%Z ->
          Logic.scoreRef st' = (Logic.scoreRef st + 10)%Z))
  /\ (forall obstacle index st,
        behind obstacle = false -> Logic.cleanupStep obstacle index st = st)
  /\ (forall st,
        (0 <= Logic.perfectRunRef st)%Z ->
        let st' := Logic.cleanupObstacles st in
        let removed :=
          Z.of_nat (length (Logic.obstaclesRef st) - length (Logic.obstaclesRef st')) in
        Logic.perfectRunRef st' = (Logic.perfectRunRef st + removed)%Z
        /\ Logic.scoreRef st' =
           (Logic.scoreRef st + 10 * removed
            + 50 * (Logic.perfectRunRef st' / 10 - Logic.perfectRunRef st / 10))%Z)
  /\ (forall ps n st,
        let stn := Logic.frames ps n (Logic.startGame st) in
        let removed :=
          Z.of_nat (length (Logic.obstaclesRef st) - length (Logic.obstaclesRef stn)) in
        Logic.perfectRunRef stn = removed
        /\ Logic.scoreRef stn = (10 * removed + 50 * (removed / 10))%Z).
Proof.
  split; [|split; [|split]].
  - intros obstacle index st Hb. cbv zeta.
    unfold Logic.cleanupStep. unfold behind in Hb. rewrite Hb.
    unfold GAME_RULES.pointsPerObstacle, GAME_RULES.perfectRunBonus. simpl.
    destruct (Z.eqb_spec (Z.rem (Logic.perfectRunRef st + 1) 10) 0) as [E|E]; simpl;
      repeat split; try reflexivity; intros H; try lia; contradiction.
  - intros obstacle index st Hb. unfold Logic.cleanupStep.
    unfold behind in Hb. rewrite Hb. reflexivity.
  - intros st Hpr. cbv zeta.
    pose proof (cleanupObstacles_tallied st Hpr) as H.
    unfold tallied in H. cbn [fst snd] in H. tauto.
  - intros ps n st. cbv zeta.
    set (len0 := length (Logic.obstaclesRef st)).
    assert (J : let stn := Logic.frames ps n (Logic.startGame st) in
                (length (Logic.obstaclesRef stn) <= len0)%nat
                /\ Logic.perfectRunRef stn =
                   Z.of_nat (len0 - length (Logic.obstaclesRef stn))
                /\ Logic.scoreRef stn =
                   (10 * Logic.perfectRunRef stn + 50 * (Logic.perfectRunRef stn / 10))%Z).
    { induction n as [|n IH]; cbv zeta.
      - simpl. subst len0. repeat split; lia.
      - simpl Logic.frames. cbv zeta in IH.
        set (s := Logic.frames ps n (Logic.startGame st)) in *.
        destruct IH as (I1 & I2 & I3).
        destruct (Logic.isPlayingRef s) eqn:Hplay;
          [|rewrite Logic_gameLoop_idle by (left; exact Hplay); tauto].
        destruct (Logic.playerRef s) as [player|] eqn:Hp;
          [|rewrite Logic_gameLoop_idle by (right; exact Hp); tauto].
        rewrite (Logic_gameLoop_executes ps s player Hplay Hp).
        destruct (Logic.checkCollisions _ _).
        + rewrite Logic_moveWorld. simpl. rewrite length_map. tauto.
        + set (st2 := Logic.set_playerRef (Logic.moveWorld s)
                        (Some (Logic.updatePlayerMovement player ps))).
          assert (Hlen : length (Logic.obstaclesRef st2) = length (Logic.obstaclesRef s)).
          { subst st2. rewrite Logic_moveWorld. simpl. apply length_map. }
          assert (Hpr2 : Logic.perfectRunRef st2 = Logic.perfectRunRef s).
          { subst st2. rewrite Logic_moveWorld. reflexivity. }
          assert (Hsc2 : Logic.scoreRef st2 = Logic.scoreRef s).
          { subst st2. rewrite Logic_moveWorld. reflexivity. }
          pose proof (cleanupObstacles_tallied st2 ltac:(lia)) as H.
          unfold tallied in H. cbn [fst snd] in H.
          destruct H as (T1 & T2 & T3 & _).
          change (Logic.obstaclesRef (Logic.set_animationRef (Logic.updateDifficulty ?x) true))
            with (Logic.obstaclesRef x).
          change (Logic.perfectRunRef (Logic.set_animationRef (Logic.updateDifficulty ?x) true))
            with (Logic.perfectRunRef x).
          change (Logic.scoreRef (Logic.set_animationRef (Logic.updateDifficulty ?x) true))
            with (Logic.scoreRef x).
          rewrite Hlen, Hpr2, Hsc2 in *.
          repeat split; try lia. }
    cbv zeta in J. destruct J as (J1 & J2 & J3). split; [exact J2|].
    rewrite J3, J2. reflexivity.
Qed.

(** The first and third parts at work: the tenth removal since the start,
    made by a pass over one obstacle behind the threshold, scores 60. *)
Lemma removal_scores_with_bonus_witness :
  let far := CreateBox (mkVector3 0 0.5 (-21)) in
  let st := Logic.mkState 0.3 90 true true 9 None [far] [] [] in
  Logic.scoreRef (Logic.cleanupStep far 0 st) = 150%Z
  /\ Logic.perfectRunRef (Logic.cleanupObstacles st) = 10%Z.
Proof.
  cbv zeta. split.
  - apply (proj1 (proj2 (proj2
             (proj1 removal_scores_with_bonus
                (CreateBox (mkVector3 0 0.5 (-21))) 0%nat
                (Logic.mkState 0.3 90 true true 9 None
                   [CreateBox (mkVector3 0 0.5 (-21))] [] [])
                ltac:(reflexivity))))).
    reflexivity.
  - apply (proj1 (proj1 (proj2 (proj2 removal_scores_with_bonus))
             (Logic.mkState 0.3 90 true true 9 None
                [CreateBox (mkVector3 0 0.5 (-21))] [] [])
             ltac:(simpl; lia))).
Defined.

(** ** The difficulty ramp (C6) *)

Lemma ramp_spec (s : Q) :
  Num.min (Num.add s 0.0001) 0.5 == Qmin (s + 0.0001) 0.5.
Proof. unfold Num.min, Num.add. rewrite Qred_correct. reflexivity. Qed.

Lemma ramp_bounds (s : Q) :
  0.2 <= s ->
  0.2 <= Qmin (s + 0.0001) 0.5 <= 0.5
  /\ (s <= 0.5 -> s <= Qmin (s + 0.0001) 0.5)
  /\ (s < 0.5 -> s < Qmin (s + 0.0001) 0.5).
Proof.
  intros Hs.
  destruct (Q.min_spec (s + 0.0001) 0.5) as [[H1 H2]|[H1 H2]]; rewrite H2;
    repeat split; intros; lra.
Qed.

Lemma Monolith_speed_step a st :
  Monolith.speedRef (Monolith.step a st) =
  match a with
  | Monolith.Tick _ =>
      if executes st then Num.min (Num.add (Monolith.speedRef st) 0.0001) 0.5
      else Monolith.speedRef st
  | Monolith.Start => 0.2
  | _ => Monolith.speedRef st
  end.
Proof.
  destruct a as [canvas|env| | |k]; simpl.
  - unfold Monolith.initializeScene. destruct canvas; reflexivity.
  - destruct (executes st) eqn:Hex.
    + destruct (Monolith.playerRef st) as [player|] eqn:Hp.
      * rewrite (gameLoop_executes env st player Hex Hp). reflexivity.
      * unfold executes in Hex. rewrite Hp, andb_false_r in Hex. discriminate.
    + rewrite gameLoop_idle by exact Hex. reflexivity.
  - unfold Monolith.startGame. simpl. destruct (Monolith.playerRef st); reflexivity.
  - reflexivity.
  - unfold Monolith.handleKeyDown.
    destruct (negb _); [reflexivity|]. destruct k; try reflexivity.
    destruct (negb _); reflexivity.
Qed.

(** The speed the overlay shows after each action. *)
Lemma Monolith_shown_speed_step a st :
  Monolith.speed (Monolith.gameState (Monolith.step a st)) =
  match a with
  | Monolith.Tick _ =>
      if executes st then Num.min (Num.add (Monolith.speedRef st) 0.0001) 0.5
      else Monolith.speed (Monolith.gameState st)
  | Monolith.Start | Monolith.Reset => 0.2
  | _ => Monolith.speed (Monolith.gameState st)
  end.
Proof.
  destruct a as [canvas|env| | |k]; simpl.
  - unfold Monolith.initializeScene. destruct canvas; reflexivity.
  - destruct (executes st) eqn:Hex.
    + destruct (Monolith.playerRef st) as [player|] eqn:Hp.
      * rewrite (gameLoop_executes env st player Hex Hp). reflexivity.
      * unfold executes in Hex. rewrite Hp, andb_false_r in Hex. discriminate.
    + rewrite gameLoop_idle by exact Hex. reflexivity.
  - unfold Monolith.startGame. simpl. destruct (Monolith.playerRef st); reflexivity.
  - reflexivity.
  - unfold Monolith.handleKeyDown.
    destruct (negb _); [reflexivity|]. destruct k; try reflexivity.
    destruct (negb _); reflexivity.
Qed.

Lemma Monolith_speed_invariant acts : forall st,
  0.2 <= Monolith.speedRef st <= 0.5 ->
  0.2 <= Monolith.speed (Monolith.gameState st) <= 0.5 ->
  0.2 <= Monolith.speedRef (Monolith.run acts st) <= 0.5
  /\ 0.2 <= Monolith.speed (Monolith.gameState (Monolith.run acts st)) <= 0.5.
Proof.
  unfold Monolith.run.
  induction acts as [|a acts IH]; intros st Hst Hsh; simpl; [auto|].
  apply IH.
  - rewrite Monolith_speed_step.
    destruct a; try exact Hst.
    + destruct (executes st); [|exact Hst].
      rewrite ramp_spec. apply ramp_bounds. lra.
    + lra.
  - rewrite Monolith_shown_speed_step.
    destruct a; try exact Hsh; try lra.
    destruct (executes st); [|exact Hsh].
    rewrite ramp_spec. apply ramp_bounds. lra.
Qed.

(** C6.  In the monolithic component every frame that runs sets the speed to
    min(speed + 0.0001, 0.5); from the initial state on, whatever happens, the
    speed, and the speed shown, lie in [0.2, 0.5]; a frame raises it strictly
    while it is below
    0.5 and never above 0.5; and no action lowers it except the start action,
    which puts it back to 0.2.  The logic module's [updateDifficulty] is the
    same update, and its loop applies it in every frame that runs and leaves
    the session in play. *)
Theorem speed_ramp :
  (forall env st,
      executes st = true ->
      Monolith.speedRef (Monolith.gameLoop env st)
      == Qmin (Monolith.speedRef st + 0.0001) 0.5)
  /\ (forall acts,
        0.2 <= Monolith.speedRef (Monolith.run acts Monolith.initial) <= 0.5
        /\ 0.2 <= Monolith.speed (Monolith.gameState (Monolith.run acts Monolith.initial))
           <= 0.5)
  /\ (forall acts env,
        let st := Monolith.run acts Monolith.initial in
        executes st = true ->
        Monolith.speedRef (Monolith.gameLoop env st) <= 0.5
        /\ (Monolith.speedRef st < 0.5 ->
            Monolith.speedRef st < Monolith.speedRef (Monolith.gameLoop env st)))
  /\ (forall acts a,
        let st := Monolith.run acts Monolith.initial in
        Monolith.speedRef st <= Monolith.speedRef (Monolith.step a st)
        \/ (a = Monolith.Start /\ Monolith.speedRef (Monolith.step a st) = 0.2))
  /\ (forall st,
        Logic.speedRef (Logic.updateDifficulty st)
        == Qmin (Logic.speedRef st + 0.0001) 0.5)
  /\ (forall ps st,
        Logic_executes st = true ->
        Logic.isPlayingRef (Logic.gameLoop ps st) = true ->
        Logic.speedRef (Logic.gameLoop ps st)
        == Qmin (Logic.speedRef st + 0.0001) 0.5).
Proof.
  assert (Htick : forall env st, executes st = true ->
            Monolith.speedRef (Monolith.gameLoop env st)
            == Qmin (Monolith.speedRef st + 0.0001) 0.5).
  { intros env st Hex.
    pose proof (Monolith_speed_step (Monolith.Tick env) st) as H.
    simpl in H. rewrite Hex in H. rewrite H. apply ramp_spec. }
  assert (Hinv : forall acts,
            0.2 <= Monolith.speedRef (Monolith.run acts Monolith.initial) <= 0.5).
  { intros acts. apply Monolith_speed_invariant; simpl; lra. }
  split; [exact Htick|].
  split; [intros acts; apply Monolith_speed_invariant; simpl; lra|].
  split; [|split; [|split]].
  - intros acts env st Hex. subst st. rewrite (Htick env _ Hex).
    pose proof (Hinv acts) as Hb.
    pose proof (ramp_bounds _ (proj1 Hb)) as (H1 & H2 & H3).
    split; [apply H1 | exact H3].
  - intros acts a st. subst st.
    pose proof (Hinv acts) as Hb.
    set (st := Monolith.run acts Monolith.initial) in *.
    destruct a as [canvas|env| | |k].
    + left. rewrite Monolith_speed_step. lra.
    + left. destruct (executes st) eqn:Hex.
      * simpl. rewrite (Htick env st Hex).
        apply (ramp_bounds _ (proj1 Hb)). lra.
      * simpl. rewrite gameLoop_idle by exact Hex. lra.
    + right. split; [reflexivity|]. apply Monolith_speed_step.
    + left. rewrite Monolith_speed_step. lra.
    + left. rewrite Monolith_speed_step. lra.
  - intros st. unfold Logic.updateDifficulty. simpl.
    unfold GAME_RULES.speedIncreaseRate, PHYSICS_CONFIG.speedIncrease,
      PHYSICS_CONFIG.maxSpeed.
    apply ramp_spec.
  - intros ps st Hex Hin. unfold Logic_executes in Hex.
    apply andb_true_iff in Hex as [Hplay Hex].
    destruct (Logic.playerRef st) as [player|] eqn:Hp; [|discriminate].
    rewrite (Logic_gameLoop_executes ps st player Hplay Hp) in *.
    destruct (Logic.checkCollisions _ _); [simpl in Hin; discriminate|].
    change (Logic.speedRef (Logic.set_animationRef (Logic.updateDifficulty ?x) true))
      with (Num.min (Num.add (Logic.speedRef x) 0.0001) 0.5).
    assert (Hkeep : Logic.speedRef
                      (Logic.cleanupObstacles
                         (Logic.set_playerRef (Logic.moveWorld st)
                            (Some (Logic.updatePlayerMovement player ps))))
                    = Logic.speedRef st).
    { unfold Logic.cleanupObstacles.
      apply (forEach_keeps Logic.obstaclesRef Logic.cleanupStep
               (fun s => Logic.speedRef s = Logic.speedRef st)).
      - intros a k s Hs. unfold Logic.cleanupStep.
        destruct (Num.lt _ _); [|exact Hs]. simpl.
        destruct (Z.rem _ _ =? 0)%Z; exact Hs.
      - rewrite Logic_moveWorld. reflexivity. }
    rewrite Hkeep. apply ramp_spec.
Qed.

(** The ramp at work on the first frame of a session: the speed goes from 0.2
    to 0.2001. *)
Lemma speed_ramp_witness :
  let st := Monolith.run [Monolith.Mount true; Monolith.Start] Monolith.initial in
  Monolith.speedRef (Monolith.gameLoop (Monolith.mkFrame (fun _ => 0%Z) 1 0 0%Z) st)
  == Qmin (Monolith.speedRef st + 0.0001) 0.5
  /\ Monolith.speedRef st
     < Monolith.speedRef (Monolith.gameLoop (Monolith.mkFrame (fun _ => 0%Z) 1 0 0%Z) st).
Proof.
  cbv zeta. split.
  - apply (proj1 speed_ramp). reflexivity.
  - apply (proj1 (proj2 (proj2 speed_ramp))
             [Monolith.Mount true; Monolith.Start]
             (Monolith.mkFrame (fun _ => 0%Z) 1 0 0%Z));
      reflexivity.
Defined.

(** ** The jump (C4) *)

Lemma movePlayer_jumping pp (p : Vector3) :
  let mv := Monolith.movePlayer pp true p in
  y (fst mv) == Qmax 0 (y p + 0.3)
  /\ snd mv = negb (Qle_bool 4 (y (fst mv))).
Proof.
  cbv zeta. unfold Monolith.movePlayer. simpl. split.
  - unfold Num.max, Num.add. rewrite Qred_correct. reflexivity.
  - unfold Num.ge. destruct (Qle_bool 4 _); reflexivity.
Qed.

Lemma frames_jump envs st player :
  Monolith.playerRef st = Some player ->
  y (position player) == 0 ->
  Monolith.isJumping st = true ->
  (forall k, (k < 14)%nat -> executes (Monolith.frames envs k st) = true) ->
  forall k, (k <= 14)%nat ->
    (exists p, Monolith.playerRef (Monolith.frames envs k st) = Some p
               /\ y (position p) == 0.3 * inject_Z (Z.of_nat k))
    /\ Monolith.isJumping (Monolith.frames envs k st) = (k <? 14)%nat.
Proof.
  intros Hp Hy Hj Hex k. induction k as [|k IH]; intros Hk.
  - simpl. split; [|exact Hj]. exists player. split; [exact Hp|].
    rewrite Hy. change (inject_Z (Z.of_nat 0)) with 0. lra.
  - destruct (IH ltac:(lia)) as [(p & Hpk & Hyk) Hjk].
    assert (Hlt : (k < 14)%nat) by lia.
    apply Nat.ltb_lt in Hlt as Hltb. rewrite Hltb in Hjk.
    simpl Monolith.frames.
    rewrite (gameLoop_executes (envs k) _ p (Hex k Hlt) Hpk).
    cbn [Monolith.playerRef Monolith.isJumping]. rewrite Hjk.
    destruct (movePlayer_jumping
                (Monolith.playerPosition (Monolith.frames envs k st)) (position p))
      as [Hy' Hj'].
    assert (Hnext : y (fst (Monolith.movePlayer
                              (Monolith.playerPosition (Monolith.frames envs k st))
                              true (position p)))
                    == 0.3 * inject_Z (Z.of_nat (S k))).
    { rewrite Hy', Hyk, Nat2Z.inj_succ. unfold Z.succ. rewrite inject_Z_plus.
      change (inject_Z 1) with 1.
      assert (0 <= inject_Z (Z.of_nat k)).
      { change 0 with (inject_Z 0). rewrite <- Zle_Qle. lia. }
      rewrite Q.max_r by lra. lra. }
    split.
    + eexists. split; [reflexivity|]. exact Hnext.
    + rewrite Hj'.
      destruct (Nat.ltb_spec (S k) 14) as [H14|H14].
      * destruct (Qle_bool 4 _) eqn:E; [|reflexivity].
        apply Qle_bool_iff in E. rewrite Hnext in E.
        assert (inject_Z (Z.of_nat (S k)) <= inject_Z 13).
        { rewrite <- Zle_Qle. lia. }
        change (inject_Z 13) with 13 in *. lra.
      * assert (S k = 14)%nat by lia.
        destruct (Qle_bool 4 _) eqn:E; [reflexivity|].
        assert (4 <= y (fst (Monolith.movePlayer
                   (Monolith.playerPosition (Monolith.frames envs k st))
                   true (position p)))).
        { rewrite Hnext. replace (S k) with 14%nat by lia.
          change (inject_Z (Z.of_nat 14)) with 14. lra. }
        apply Qle_bool_iff in H0. congruence.
Qed.

(** C4.  In the monolithic loop, starting grounded with the jump flag set and
    the game running, each frame adds 0.3 to the height; the flag is still set
    after each of the first 13 frames and is cleared by the 14th, which leaves
    the height at 4.2, at least the jump height 4.  The logic module's
    [updatePlayerMovement] makes the same step of 0.3 per frame while its
    caller's [isJumping] is set, reaching 3.9 after 13 calls and 4.2 after
    14. *)
Theorem jump_clears_after_14_frames :
  (forall envs st player,
      Monolith.playerRef st = Some player ->
      y (position player) == 0 ->
      Monolith.isJumping st = true ->
      (forall k, (k < 14)%nat -> executes (Monolith.frames envs k st) = true) ->
      (forall k, (k < 14)%nat ->
         Monolith.isJumping (Monolith.frames envs k st) = true)
      /\ Monolith.isJumping (Monolith.frames envs 14 st) = false
      /\ (forall k, (k <= 14)%nat ->
            exists p, Monolith.playerRef (Monolith.frames envs k st) = Some p
                      /\ y (position p) == 0.3 * inject_Z (Z.of_nat k))
      /\ (exists p, Monolith.playerRef (Monolith.frames envs 14 st) = Some p
                    /\ y (position p) == 4.2 /\ 4 <= y (position p)))
  /\ (forall player ps,
        Logic.isJumping ps = true ->
        y (position player) == 0 ->
        (forall m, y (position (Logic.updatePlayerMovement m ps))
                   == Qmax 0 (y (position m) + 0.3))
        /\ y (position (Nat.iter 13 (fun m => Logic.updatePlayerMovement m ps) player))
           == 3.9
        /\ y (position (Nat.iter 14 (fun m => Logic.updatePlayerMovement m ps) player))
           == 4.2).
Proof.
  split.
  - intros envs st player Hp Hy Hj Hex.
    pose proof (frames_jump envs st player Hp Hy Hj Hex) as H.
    split; [|split; [|split]].
    + intros k Hk. destruct (H k ltac:(lia)) as [_ Hjk]. rewrite Hjk.
      apply Nat.ltb_lt. exact Hk.
    + destruct (H 14%nat ltac:(lia)) as [_ Hjk]. exact Hjk.
    + intros k Hk. apply (H k Hk).
    + destruct (H 14%nat ltac:(lia)) as [(p & Hpk & Hyk) _].
      exists p. split; [exact Hpk|].
      change (inject_Z (Z.of_nat 14)) with 14 in Hyk. rewrite Hyk. split; lra.
  - intros player ps Hj Hy.
    assert (Hstep : forall m, y (position (Logic.updatePlayerMovement m ps))
                              == Qmax 0 (y (position m) + 0.3)).
    { intros m. unfold Logic.updatePlayerMovement. rewrite Hj. simpl.
      unfold Num.max, Num.add, PHYSICS_CONFIG.jumpSpeed.
      rewrite Qred_correct. reflexivity. }
    assert (Hiter : forall n,
              y (position (Nat.iter n (fun m => Logic.updatePlayerMovement m ps) player))
              == 0.3 * inject_Z (Z.of_nat n)).
    { induction n as [|n IH].
      - change (y (position player) == 0.3 * 0). rewrite Hy. lra.
      - rewrite Nat.iter_succ, Hstep, IH, Nat2Z.inj_succ. unfold Z.succ.
        rewrite inject_Z_plus. change (inject_Z 1) with 1.
        assert (0 <= inject_Z (Z.of_nat n)).
        { change 0 with (inject_Z 0). rewrite <- Zle_Qle. lia. }
        rewrite Q.max_r by lra. lra. }
    split; [exact Hstep|]. split.
    + rewrite Hiter. change (inject_Z (Z.of_nat 13)) with 13. lra.
    + rewrite Hiter. change (inject_Z (Z.of_nat 14)) with 14. lra.
Qed.

(** The jump of a fresh session, with no obstacle about: the flag is set
    after 13 frames and cleared after 14. *)
Lemma jump_clears_after_14_frames_witness :
  let st := Monolith.run [Monolith.Mount true; Monolith.Start; Monolith.Press Monolith.Jump]
              Monolith.initial in
  Monolith.isJumping (Monolith.frames (fun _ => quiet) 13 st) = true
  /\ Monolith.isJumping (Monolith.frames (fun _ => quiet) 14 st) = false.
Proof.
  cbv zeta.
  destruct (proj1 jump_clears_after_14_frames (fun _ => quiet)
              (Monolith.run [Monolith.Mount true; Monolith.Start;
                             Monolith.Press Monolith.Jump] Monolith.initial)
              (CreateBox (mkVector3 0 0 0)))
    as (H1 & H2 & _).
  - reflexivity.
  - reflexivity.
  - reflexivity.
  - intros k Hk.
    do 14 (destruct k as [|k]; [vm_compute; reflexivity|]). lia.
  - split; [apply H1; lia | exact H2].
Defined.

(** ** What a frame does once a collision is detected (C2) *)

(** C2, on the monolithic loop, at [crash_scene] and [crash_frame].  The
    callback that detects the collision leaves the session over with the
    score at 0, the speed at 0.2444, one obstacle in the array and the player
    at the origin; its [return] leaves the callback only, and the frame goes
    on: a new obstacle is spawned, the player moves towards the right lane
    and the speed is raised to 0.2445. *)
Theorem monolith_frame_runs_on_after_collision :
  let player := CreateBox (mkVector3 0 0 0) in
  let ahead := CreateBox (mkVector3 0 0.5 (7827 # 5000)) in
  let hit := CreateBox (mkVector3 0 0.5 1.321) in
  let detected := Monolith.obstacleStep crash_frame player ahead 0 crash_scene in
  let after := Monolith.gameLoop crash_frame crash_scene in
  (executes crash_scene = true
   /\ Monolith.playerRef crash_scene = Some player
   /\ Monolith.obstaclesRef crash_scene = [ahead]
   /\ Monolith.scoreRef crash_scene = 0%Z
   /\ Monolith.speedRef crash_scene == 0.2444)
  /\ (Monolith.isPlayingRef detected = false
      /\ Monolith.isGameOver (Monolith.gameState detected) = true
      /\ Monolith.scoreRef detected = 0%Z
      /\ Monolith.speedRef detected == 0.2444
      /\ Monolith.obstaclesRef detected = [hit]
      /\ Monolith.playerRef detected = Some player)
  /\ (Monolith.isPlayingRef after = false
      /\ Monolith.isGameOver (Monolith.gameState after) = true
      /\ Monolith.scoreRef after = 0%Z
      /\ Monolith.speedRef after == 0.2445
      /\ Monolith.obstaclesRef after =
         [hit; mkMesh (mkVector3 0 0.5 100) (mkVector3 0.1 0.1 0.1) (Some 8104%Z)]
      /\ Monolith.playerRef after = Some (CreateBox (mkVector3 (1 # 5) 0 0))).
Proof.
  cbv zeta. repeat apply conj; vm_compute; reflexivity.
Qed.

(** Nor is that scene special: whenever a monolithic frame declares a
    collision while the speed is below its top value, the same frame has
    raised the speed. *)
Lemma monolith_collision_frame_raises_speed env st :
  executes st = true ->
  Monolith.isPlayingRef (Monolith.gameLoop env st) = false ->
  0.2 <= Monolith.speedRef st < 0.5 ->
  Monolith.speedRef st < Monolith.speedRef (Monolith.gameLoop env st).
Proof.
  intros Hex _ Hv.
  pose proof (Monolith_speed_step (Monolith.Tick env) st) as H.
  simpl in H. rewrite Hex in H. rewrite H, ramp_spec.
  apply (ramp_bounds _ (proj1 Hv)). lra.
Qed.

(** The logic module's loop on a frame that detects a collision: the session
    is over, [onGameOver] is called, and score, speed, perfect-run counter,
    obstacles and player are what they were when the collision was
    detected. *)
Lemma logic_frame_stops_at_collision ps st player :
  Logic.isPlayingRef st = true ->
  Logic.playerRef st = Some player ->
  let moved := Logic.updatePlayerMovement player ps in
  let seen := map (scrolled (Logic.speedRef st)) (Logic.obstaclesRef st) in
  Logic.checkCollisions moved seen = true ->
  let st' := Logic.gameLoop ps st in
  Logic.isPlayingRef st' = false
  /\ Logic.calls st' = Logic.calls st ++ [Logic.onGameOver]
  /\ Logic.scoreRef st' = Logic.scoreRef st
  /\ Logic.speedRef st' = Logic.speedRef st
  /\ Logic.perfectRunRef st' = Logic.perfectRunRef st
  /\ Logic.obstaclesRef st' = seen
  /\ Logic.playerRef st' = Some moved
  /\ Logic.animationRef st' = Logic.animationRef st.
Proof.
  intros Hplay Hp moved seen Hhit. cbv zeta.
  rewrite (Logic_gameLoop_executes ps st player Hplay Hp).
  fold moved. fold seen. rewrite Hhit. rewrite Logic_moveWorld.
  repeat split; reflexivity.
Qed.

(** ** The order of scroll, collision check and player movement (C3) *)

(** C3, as the code has it.  The monolithic loop decides the session on the
    obstacles as scrolled by this frame and on the player where the frame
    found it, and moves the player afterwards; the obstacles it tests are all
    of them unless one is removed, and then all but the one after it.  The
    logic module's loop scrolls the obstacles, moves the player, and decides
    the session on the player where that movement has put it. *)
Theorem collision_check_order :
  (forall env st player,
      executes st = true ->
      Monolith.playerRef st = Some player ->
      let tested := checked (position player) (Monolith.speedRef st)
                      (Monolith.obstaclesRef st) in
      (Monolith.isPlayingRef (Monolith.gameLoop env st) = false <->
       exists o, In o tested /\ overlap (position player) (position o))
      /\ Monolith.playerRef (Monolith.gameLoop env st) =
         Some (set_position player
                 (fst (Monolith.movePlayer (Monolith.playerPosition st)
                         (Monolith.isJumping st) (position player)))))
  /\ (forall p s l,
        (forall o, In o l -> behind (scrolled s o) = false) ->
        checked p s l = map (scrolled s) l)
  /\ (forall ps st player,
        Logic.isPlayingRef st = true ->
        Logic.playerRef st = Some player ->
        let moved := Logic.updatePlayerMovement player ps in
        let seen := map (scrolled (Logic.speedRef st)) (Logic.obstaclesRef st) in
        (Logic.isPlayingRef (Logic.gameLoop ps st) = false <->
         exists o, In o seen /\ overlap (position moved) (position o))
        /\ Logic.playerRef (Logic.gameLoop ps st) = Some moved).
Proof.
  split; [|split].
  - intros env st player Hex Hp. cbv zeta.
    rewrite (gameLoop_executes env st player Hex Hp). simpl.
    split; [|reflexivity].
    unfold obstaclePass.
    rewrite (obstaclePass_verdict env player (length (Monolith.obstaclesRef st)))
      by lia.
    assert (Hplay : Monolith.isPlayingRef st = true).
    { unfold executes in Hex. apply andb_true_iff in Hex as [Hex _].
      apply andb_true_iff in Hex as [Hex _]. exact Hex. }
    rewrite Hplay, andb_true_l, negb_false_iff, existsb_exists.
    split; intros (o & Hin & Ho); exists o; (split; [exact Hin|]);
      apply collides_overlap; exact Ho.
  - apply checked_all.
  - intros ps st player Hplay Hp. cbv zeta.
    rewrite (Logic_gameLoop_executes ps st player Hplay Hp).
    destruct (Logic.checkCollisions _ _) eqn:Ec.
    + rewrite Logic_moveWorld. simpl. split; [|reflexivity].
      split; [intros _|reflexivity].
      unfold Logic.checkCollisions in Ec. apply existsb_exists in Ec.
      destruct Ec as (o & Hin & Ho). exists o. split; [exact Hin|].
      apply hits_overlap. exact Ho.
    + change (Logic.isPlayingRef (Logic.set_animationRef (Logic.updateDifficulty ?x) true))
        with (Logic.isPlayingRef x).
      change (Logic.playerRef (Logic.set_animationRef (Logic.updateDifficulty ?x) true))
        with (Logic.playerRef x).
      pose proof (forEach_keeps Logic.obstaclesRef Logic.cleanupStep
                    (fun s => Logic.isPlayingRef s = true
                              /\ Logic.playerRef s =
                                 Some (Logic.updatePlayerMovement player ps))) as Hk.
      unfold Logic.cleanupObstacles.
      destruct (Hk ltac:(intros a k s Hs; unfold Logic.cleanupStep;
                         destruct (Num.lt _ _); [|exact Hs]; simpl;
                         destruct (Z.rem _ _ =? 0)%Z; exact Hs)
                  (Logic.set_playerRef (Logic.moveWorld st)
                     (Some (Logic.updatePlayerMovement player ps)))
                  ltac:(rewrite Logic_moveWorld; split; [exact Hplay | reflexivity]))
        as [Hk1 Hk2].
      rewrite Hk1, Hk2. split; [|reflexivity].
      split; [discriminate|].
      intros (o & Hin & Ho). exfalso.
      assert (Logic.checkCollisions (Logic.updatePlayerMovement player ps)
                (map (scrolled (Logic.speedRef st)) (Logic.obstaclesRef st)) = true).
      { unfold Logic.checkCollisions. apply existsb_exists. exists o.
        split; [exact Hin|]. apply hits_overlap. exact Ho. }
      congruence.
Qed.

(** The two parts at [leap_scene] and [bump_scene]: the player ends the
    frame where its movement has put it. *)
Lemma collision_check_order_witness :
  Logic.playerRef (Logic.gameLoop leaping leap_scene)
  = Some (Logic.updatePlayerMovement (CreateBox (mkVector3 0 1.8 0)) leaping)
  /\ Monolith.playerRef (Monolith.gameLoop quiet bump_scene)
     = Some (set_position (CreateBox (mkVector3 0 0 0))
               (fst (Monolith.movePlayer 0 false (mkVector3 0 0 0)))).
Proof.
  split.
  - apply (proj2 (proj2 (proj2 collision_check_order) leaping leap_scene
                    (CreateBox (mkVector3 0 1.8 0)) eq_refl eq_refl)).
  - apply (proj2 (proj1 collision_check_order quiet bump_scene
                    (CreateBox (mkVector3 0 0 0)) eq_refl eq_refl)).
Defined.

(** C3 as claimed fails on the logic module.  At [leap_scene] the obstacle as
    scrolled and the player as the frame found it, at height 1.8, collide; the
    loop first lifts the player to 2.1, tests there, and declares nothing. *)
Lemma logic_tests_after_player_movement :
  let player := CreateBox (mkVector3 0 1.8 0) in
  Logic.playerRef leap_scene = Some player
  /\ Logic.checkCollisions player (Logic.obstaclesRef (Logic.moveWorld leap_scene)) = true
  /\ Logic.isPlayingRef (Logic.gameLoop leaping leap_scene) = true
  /\ Logic.calls (Logic.gameLoop leaping leap_scene) = [].
Proof.
  cbv zeta. repeat split; vm_compute; reflexivity.
Qed.

(** ** Removal while iterating (C10) *)

Section WalkSplit.
Context {St A : Type}.
Variable visit : A -> nat -> St -> option A * St.
Variable gone : A -> bool.
Variable P : St -> Prop.
Hypothesis visit_gone : forall a k st,
  P st ->
  (gone a = true -> fst (visit a k st) = None)
  /\ (gone a = false -> exists a', fst (visit a k st) = Some a')
  /\ P (snd (visit a k st)).

(** A pass that reaches the end of [pre] goes on over what follows as a pass
    of its own, started at the index after the survivors of [pre]. *)
Lemma walk_reaches n : forall pre k rest st,
  (length pre <= n)%nat -> P st -> reaches gone pre = true ->
  walk visit k (pre ++ rest) st =
  (fst (walk visit k pre st)
     ++ fst (walk visit (k + length (fst (walk visit k pre st))) rest
               (snd (walk visit k pre st))),
   snd (walk visit (k + length (fst (walk visit k pre st))) rest
          (snd (walk visit k pre st)))).
Proof.
  induction n as [|n IH]; intros pre k rest st Hn HP Hr.
  - destruct pre; [|simpl in Hn; lia]. simpl. rewrite Nat.add_0_r.
    destruct (walk visit k rest st); reflexivity.
  - destruct pre as [|a l1].
    { simpl. rewrite Nat.add_0_r. destruct (walk visit k rest st); reflexivity. }
    simpl in Hn. simpl in Hr.
    destruct (visit_gone a k st HP) as (Hg & Hk & HP1).
    change ((a :: l1) ++ rest) with (a :: (l1 ++ rest)). simpl walk.
    destruct (gone a) eqn:Eg.
    + specialize (Hg eq_refl).
      destruct (visit a k st) as [r st1]. simpl in Hg, HP1. subst r.
      destruct l1 as [|b l2]; [discriminate|].
      simpl in Hn. change ((b :: l2) ++ rest) with (b :: (l2 ++ rest)). cbv iota.
      rewrite (IH l2 (S k) rest st1 ltac:(lia) HP1 Hr).
      destruct (walk visit (S k) l2 st1) as [r1 st2]. cbn [fst snd length].
      replace (k + S (length r1))%nat with (S k + length r1)%nat by lia.
      reflexivity.
    + destruct (Hk eq_refl) as [a' Ha'].
      destruct (visit a k st) as [r st1]. simpl in Ha', HP1. subst r.
      rewrite (IH l1 (S k) rest st1 ltac:(lia) HP1 Hr).
      destruct (walk visit (S k) l1 st1) as [r1 st2]. cbn [fst snd length].
      replace (k + S (length r1))%nat with (S k + length r1)%nat by lia.
      reflexivity.
Qed.

(** A visited element that goes takes the visit of its successor with it. *)
Lemma walk_gone a k post st :
  P st -> gone a = true ->
  walk visit k (a :: post) st =
  (firstn 1 post ++ fst (walk visit (S k) (tl post) (snd (visit a k st))),
   snd (walk visit (S k) (tl post) (snd (visit a k st)))).
Proof.
  intros HP Hg. destruct (visit_gone a k st HP) as (Hgo & _ & _).
  specialize (Hgo Hg). simpl walk.
  destruct (visit a k st) as [r st1]. simpl in Hgo. subst r. cbn [snd].
  destruct post as [|b l2]; [reflexivity|]. simpl.
  destruct (walk visit (S k) l2 st1); reflexivity.
Qed.
End WalkSplit.

Lemma cleanupVisit_gone a k (st : Logic.State) :
  True ->
  (behind a = true -> fst (cleanupVisit a k st) = None)
  /\ (behind a = false -> exists a', fst (cleanupVisit a k st) = Some a')
  /\ True.
Proof.
  intros _. unfold cleanupVisit. destruct (behind a); repeat split;
    try discriminate; intros _; eauto.
Qed.

Lemma cleanup_walk_index n : forall k l st,
  (length l <= n)%nat -> walk cleanupVisit k l st = walk cleanupVisit 0 l st.
Proof.
  induction n as [|n IH]; intros k l st Hl.
  - destruct l; [reflexivity | simpl in Hl; lia].
  - destruct l as [|a l1]; [reflexivity|]. simpl in Hl. simpl.
    change (cleanupVisit a k st) with (cleanupVisit a 0 st).
    destruct (cleanupVisit a 0 st) as [[a'|] st1].
    + rewrite (IH (S k)), (IH 1%nat) by lia. reflexivity.
    + destruct l1 as [|b l2]; [reflexivity|]. simpl in Hl.
      rewrite (IH (S k)), (IH 1%nat) by lia. reflexivity.
Qed.

Lemma obstacleVisit_gone env player (s : Q) a k st :
  Monolith.speedRef st = s ->
  (swept (position player) s a = true ->
   fst (obstacleVisit env player a k st) = None)
  /\ (swept (position player) s a = false ->
      exists a', fst (obstacleVisit env player a k st) = Some a')
  /\ Monolith.speedRef (snd (obstacleVisit env player a k st)) = s.
Proof.
  intros Hs. unfold obstacleVisit, swept. cbv zeta.
  rewrite position_animate, behind_animate, Hs.
  destruct (Monolith.collides _ _); simpl.
  - repeat split; try discriminate; try exact Hs. intros _. eauto.
  - destruct (behind _); repeat split; try discriminate; try exact Hs.
    intros _. eauto.
Qed.

Lemma behind_scrolled (s : Q) o :
  0 <= s -> behind o = true -> behind (scrolled s o) = true.
Proof.
  unfold behind, scrolled. simpl. intros Hs H.
  apply lt_spec in H. apply lt_spec. rewrite sub_spec. lra.
Qed.

(** Read a field through the setters of the logic module, and nothing else. *)
Ltac logic_fields :=
  unfold Logic.updateDifficulty;
  cbn [Logic.speedRef Logic.scoreRef Logic.isPlayingRef Logic.animationRef
       Logic.perfectRunRef Logic.playerRef Logic.obstaclesRef Logic.groundRef
       Logic.calls Logic.set_speedRef Logic.set_scoreRef Logic.set_isPlayingRef
       Logic.set_animationRef Logic.set_perfectRunRef Logic.set_playerRef
       Logic.set_obstaclesRef Logic.set_groundRef].

Lemma Logic_frame_empty ps st :
  Logic.obstaclesRef st = [] ->
  Logic.obstaclesRef (Logic.gameLoop ps st) = []
  /\ Logic.perfectRunRef (Logic.gameLoop ps st) = Logic.perfectRunRef st
  /\ Logic.scoreRef (Logic.gameLoop ps st) = Logic.scoreRef st.
Proof.
  intros He.
  destruct (Logic.isPlayingRef st) eqn:Hplay;
    [|rewrite Logic_gameLoop_idle by (left; exact Hplay); auto].
  destruct (Logic.playerRef st) as [player|] eqn:Hp;
    [|rewrite Logic_gameLoop_idle by (right; exact Hp); auto].
  rewrite (Logic_gameLoop_executes ps st player Hplay Hp). rewrite He. simpl.
  rewrite cleanupObstacles_walk, Logic_moveWorld, He. simpl. auto.
Qed.

Lemma Logic_frames_empty ps n : forall st,
  Logic.obstaclesRef st = [] ->
  Logic.obstaclesRef (Logic.frames ps n st) = []
  /\ Logic.perfectRunRef (Logic.frames ps n st) = Logic.perfectRunRef st
  /\ Logic.scoreRef (Logic.frames ps n st) = Logic.scoreRef st.
Proof.
  induction n as [|n IH]; intros st He; simpl; [auto|].
  destruct (IH st He) as (H1 & H2 & H3).
  destruct (Logic_frame_empty ps _ H1) as (G1 & G2 & G3).
  rewrite G2, G3. auto.
Qed.

Lemma Logic_frames_add ps n m st :
  Logic.frames ps (n + m) st = Logic.frames ps n (Logic.frames ps m st).
Proof. induction n as [|n IH]; simpl; [reflexivity | rewrite IH; reflexivity]. Qed.

(** A frame of the logic module that leaves the session in play has found no
    collision and has run the cleanup pass on the scrolled obstacles. *)
Lemma Logic_frame_in_play ps st player :
  Logic.isPlayingRef st = true ->
  Logic.playerRef st = Some player ->
  Logic.isPlayingRef (Logic.gameLoop ps st) = true ->
  let moved := Logic.updatePlayerMovement player ps in
  let seen := map (scrolled (Logic.speedRef st)) (Logic.obstaclesRef st) in
  let st2 := Logic.set_obstaclesRef
               (Logic.set_playerRef
                  (Logic.set_groundRef st
                     (map (recycled (Logic.speedRef st)) (Logic.groundRef st)))
                  (Some moved)) seen in
  Logic.gameLoop ps st =
  Logic.set_animationRef
    (Logic.updateDifficulty
       (Logic.set_obstaclesRef (snd (cleanupPass seen st2)) (fst (cleanupPass seen st2))))
    true.
Proof.
  intros Hplay Hp Hin. cbv zeta.
  rewrite (Logic_gameLoop_executes ps st player Hplay Hp) in *.
  destruct (Logic.checkCollisions _ _); [simpl in Hin; discriminate|].
  rewrite cleanupObstacles_walk, Logic_moveWorld. reflexivity.
Qed.

(** C10, as the code has it.  In a pass of either loop, an obstacle that the
    pass reaches and finds behind the threshold is removed and scored, and the
    obstacle after it, if there is one, is passed over: it stays in the array
    whatever its position, untouched, and the pass goes on with the obstacle
    after that.  The pass reaches an obstacle when no removal falls on the
    obstacle just before it.  So of two consecutive obstacles behind the
    threshold whose first is reached, only the first goes in this frame; the
    second stays behind the threshold as the world scrolls on, and the first
    later pass that reaches it removes and scores it, after which it is no
    longer in the array.  For an array of just two such obstacles in a session
    that stays in play: the logic module removes the first in one frame and
    the second in the next, counting each once and nothing afterwards; the
    monolithic loop removes and scores the first in one frame, leaving the
    second where it was, not even scrolled, and removes and scores the second
    in the next. *)
Theorem removal_skips_the_next :
  (forall pre a post st,
      reaches behind pre = true ->
      behind a = true ->
      cleanupPass (pre ++ a :: post) st =
      let w1 := cleanupPass pre st in
      let w2 := cleanupPass (tl post) (scored (snd w1)) in
      (fst w1 ++ firstn 1 post ++ fst w2, snd w2))
  /\ (forall st,
        Logic.cleanupObstacles st =
        Logic.set_obstaclesRef
          (snd (cleanupPass (Logic.obstaclesRef st) st))
          (fst (cleanupPass (Logic.obstaclesRef st) st)))
  /\ (forall env player pre a post st,
        reaches (swept (position player) (Monolith.speedRef st)) pre = true ->
        swept (position player) (Monolith.speedRef st) a = true ->
        obstaclePassFrom env player 0 (pre ++ a :: post) st =
        let w1 := obstaclePassFrom env player 0 pre st in
        let w2 := obstaclePassFrom env player (S (length (fst w1))) (tl post)
                    (scored10 (snd w1)) in
        (fst w1 ++ firstn 1 post ++ fst w2, snd w2))
  /\ (forall env st player,
        executes st = true ->
        Monolith.playerRef st = Some player ->
        let w := obstaclePassFrom env player 0 (Monolith.obstaclesRef st) st in
        Monolith.obstaclesRef (Monolith.gameLoop env st) = fst w ++ spawned env
        /\ Monolith.scoreRef (Monolith.gameLoop env st) = Monolith.scoreRef (snd w)
        /\ Monolith.isPlayingRef (Monolith.gameLoop env st)
           = Monolith.isPlayingRef (snd w))
  /\ (forall lst mst,
        Logic.scoreRef lst + 10 <= Logic.scoreRef (scored lst)
        /\ Logic.perfectRunRef (scored lst) = Logic.perfectRunRef lst + 1
        /\ Monolith.scoreRef (scored10 mst) = Monolith.scoreRef mst + 10)%Z
  /\ (forall s o, 0 <= s -> behind o = true -> behind (scrolled s o) = true)
  /\ (forall ps st player a b,
        Logic.isPlayingRef st = true ->
        Logic.playerRef st = Some player ->
        Logic.obstaclesRef st = [a; b] ->
        0 <= Logic.speedRef st ->
        behind a = true ->
        behind b = true ->
        Logic.isPlayingRef (Logic.frames ps 2 st) = true ->
        Logic.obstaclesRef (Logic.frames ps 1 st) = [scrolled (Logic.speedRef st) b]
        /\ Logic.perfectRunRef (Logic.frames ps 1 st) = (Logic.perfectRunRef st + 1)%Z
        /\ forall n, (2 <= n)%nat ->
             Logic.obstaclesRef (Logic.frames ps n st) = []
             /\ Logic.perfectRunRef (Logic.frames ps n st)
                = (Logic.perfectRunRef st + 2)%Z)
  /\ (forall env1 env2 st player a b,
        executes st = true ->
        Monolith.playerRef st = Some player ->
        Monolith.obstaclesRef st = [a; b] ->
        swept (position player) (Monolith.speedRef st) a = true ->
        let st1 := Monolith.gameLoop env1 st in
        (forall player1, Monolith.playerRef st1 = Some player1 ->
                         swept (position player1) (Monolith.speedRef st1) b = true) ->
        Monolith.obstaclesRef st1 = b :: spawned env1
        /\ Monolith.scoreRef st1 = (Monolith.scoreRef st + 10)%Z
        /\ Monolith.obstaclesRef (Monolith.gameLoop env2 st1) = spawned env1 ++ spawned env2
        /\ Monolith.scoreRef (Monolith.gameLoop env2 st1) = (Monolith.scoreRef st + 20)%Z).
Proof.
  assert (E1 : forall pre a post st,
      reaches behind pre = true ->
      behind a = true ->
      cleanupPass (pre ++ a :: post) st =
      let w1 := cleanupPass pre st in
      let w2 := cleanupPass (tl post) (scored (snd w1)) in
      (fst w1 ++ firstn 1 post ++ fst w2, snd w2)).
  { intros pre a post st Hr Ha. unfold cleanupPass. cbv zeta.
    rewrite (walk_reaches cleanupVisit behind (fun _ => True) cleanupVisit_gone
               (length pre) pre 0%nat (a :: post) st ltac:(lia) I Hr).
    destruct (walk cleanupVisit 0 pre st) as [r1 st1]. cbn [fst snd].
    rewrite (walk_gone cleanupVisit behind (fun _ => True) cleanupVisit_gone
               a _ post st1 I Ha).
    assert (Hsn : snd (cleanupVisit a (0 + length r1) st1) = scored st1).
    { unfold cleanupVisit. rewrite Ha. reflexivity. }
    rewrite Hsn.
    rewrite (cleanup_walk_index (length (tl post))) by lia. reflexivity. }
  assert (E3 : forall env player pre a post st,
        reaches (swept (position player) (Monolith.speedRef st)) pre = true ->
        swept (position player) (Monolith.speedRef st) a = true ->
        obstaclePassFrom env player 0 (pre ++ a :: post) st =
        let w1 := obstaclePassFrom env player 0 pre st in
        let w2 := obstaclePassFrom env player (S (length (fst w1))) (tl post)
                    (scored10 (snd w1)) in
        (fst w1 ++ firstn 1 post ++ fst w2, snd w2)).
  { intros env player pre a post st Hr Ha. unfold obstaclePassFrom. cbv zeta.
    pose proof (obstacleVisit_gone env player (Monolith.speedRef st)) as Hv.
    rewrite (walk_reaches (obstacleVisit env player)
               (swept (position player) (Monolith.speedRef st))
               (fun s => Monolith.speedRef s = Monolith.speedRef st) Hv
               (length pre) pre 0%nat (a :: post) st ltac:(lia) eq_refl Hr).
    assert (Hs1 : Monolith.speedRef (snd (walk (obstacleVisit env player) 0 pre st))
                  = Monolith.speedRef st).
    { apply (walk_keeps _ (fun s => Monolith.speedRef s = Monolith.speedRef st)
               (fun a0 k0 s0 H0 => proj2 (proj2 (Hv a0 k0 s0 H0)))
               (length pre)); [lia | reflexivity]. }
    destruct (walk (obstacleVisit env player) 0 pre st) as [r1 st1].
    cbn [fst snd] in *. simpl Nat.add.
    rewrite (walk_gone (obstacleVisit env player)
               (swept (position player) (Monolith.speedRef st))
               (fun s => Monolith.speedRef s = Monolith.speedRef st) Hv
               a _ post st1 Hs1 Ha).
    assert (Hsn : snd (obstacleVisit env player a (length r1) st1) = scored10 st1).
    { unfold obstacleVisit. cbv zeta. rewrite position_animate, behind_animate, Hs1.
      unfold swept in Ha. apply andb_true_iff in Ha as [Hc Hb].
      apply negb_true_iff in Hc. rewrite Hc, Hb. reflexivity. }
    rewrite Hsn. reflexivity. }
  assert (E4 : forall env st player,
        executes st = true ->
        Monolith.playerRef st = Some player ->
        let w := obstaclePassFrom env player 0 (Monolith.obstaclesRef st) st in
        Monolith.obstaclesRef (Monolith.gameLoop env st) = fst w ++ spawned env
        /\ Monolith.scoreRef (Monolith.gameLoop env st) = Monolith.scoreRef (snd w)
        /\ Monolith.isPlayingRef (Monolith.gameLoop env st)
           = Monolith.isPlayingRef (snd w)).
  { intros env st player Hex Hp. cbv zeta.
    rewrite (gameLoop_executes env st player Hex Hp). repeat split; reflexivity. }
  split; [exact E1|]. split; [exact cleanupObstacles_walk|].
  split; [exact E3|]. split; [exact E4|].
  split; [|split; [exact behind_scrolled|split]].
  - intros lst mst. pose proof (scored_fields lst) as (Hp & Hs & _).
    rewrite Hp, Hs. repeat split; try reflexivity.
    destruct (Z.rem _ _ =? 0)%Z; lia.
  - intros ps st player a b Hplay Hp Hobs Hs Ha Hb Hin2.
    assert (Hin1 : Logic.isPlayingRef (Logic.frames ps 1 st) = true).
    { destruct (Logic.isPlayingRef (Logic.frames ps 1 st)) eqn:E; [reflexivity|].
      change (Logic.frames ps 2 st)
        with (Logic.gameLoop ps (Logic.frames ps 1 st)) in Hin2.
      rewrite Logic_gameLoop_idle in Hin2 by (left; exact E). congruence. }
    simpl Logic.frames in Hin1.
    pose proof (Logic_frame_in_play ps st player Hplay Hp Hin1) as F1.
    cbv zeta in F1. rewrite Hobs in F1. cbn [map] in F1.
    rewrite (E1 [] _ [scrolled (Logic.speedRef st) b] _ eq_refl
               (behind_scrolled _ _ Hs Ha)) in F1.
    cbv zeta in F1. cbn [cleanupPass walk tl firstn fst snd app] in F1.
    pose proof (scored_fields
                  (Logic.set_obstaclesRef
                     (Logic.set_playerRef
                        (Logic.set_groundRef st
                           (map (recycled (Logic.speedRef st)) (Logic.groundRef st)))
                        (Some (Logic.updatePlayerMovement player ps)))
                     [scrolled (Logic.speedRef st) a; scrolled (Logic.speedRef st) b]))
      as (S1 & _ & S3 & S4 & S5 & _).
    set (st1 := Logic.frames ps 1 st).
    assert (O1 : Logic.obstaclesRef st1 = [scrolled (Logic.speedRef st) b]).
    { subst st1. simpl Logic.frames. rewrite F1. reflexivity. }
    assert (P1 : Logic.perfectRunRef st1 = (Logic.perfectRunRef st + 1)%Z).
    { subst st1. simpl Logic.frames. rewrite F1. logic_fields. exact S1. }
    assert (V1 : 0 <= Logic.speedRef st1).
    { subst st1. simpl Logic.frames. rewrite F1. logic_fields. rewrite S3.
      logic_fields.
      unfold GAME_RULES.speedIncreaseRate, PHYSICS_CONFIG.speedIncrease,
        PHYSICS_CONFIG.maxSpeed.
      rewrite ramp_spec. apply Q.min_glb; lra. }
    assert (L1 : Logic.playerRef st1
                 = Some (Logic.updatePlayerMovement player ps)).
    { subst st1. simpl Logic.frames. rewrite F1. logic_fields. exact S5. }
    split; [exact O1|]. split; [exact P1|].
    change (Logic.frames ps 2 st) with (Logic.gameLoop ps st1) in Hin2.
    pose proof (Logic_frame_in_play ps st1 _ Hin1 L1 Hin2) as F2.
    cbv zeta in F2. rewrite O1 in F2. cbn [map] in F2.
    rewrite (E1 [] _ [] _ eq_refl
               (behind_scrolled _ _ V1 (behind_scrolled _ _ Hs Hb))) in F2.
    cbv zeta in F2. cbn [cleanupPass walk tl firstn fst snd app] in F2.
    pose proof (scored_fields
                  (Logic.set_obstaclesRef
                     (Logic.set_playerRef
                        (Logic.set_groundRef st1
                           (map (recycled (Logic.speedRef st1)) (Logic.groundRef st1)))
                        (Some (Logic.updatePlayerMovement
                                 (Logic.updatePlayerMovement player ps) ps)))
                     [scrolled (Logic.speedRef st1) (scrolled (Logic.speedRef st) b)]))
      as (T1 & _).
    assert (O2 : Logic.obstaclesRef (Logic.frames ps 2 st) = []).
    { change (Logic.frames ps 2 st) with (Logic.gameLoop ps st1).
      rewrite F2. reflexivity. }
    assert (P2 : Logic.perfectRunRef (Logic.frames ps 2 st)
                 = (Logic.perfectRunRef st + 2)%Z).
    { change (Logic.frames ps 2 st) with (Logic.gameLoop ps st1).
      rewrite F2. logic_fields. rewrite T1. logic_fields. lia. }
    intros n Hn. replace n with ((n - 2) + 2)%nat by lia.
    rewrite Logic_frames_add.
    destruct (Logic_frames_empty ps (n - 2) _ O2) as (G1 & G2 & _).
    rewrite G1, G2, P2. auto.
  - intros env1 env2 st player a b Hex Hp Hobs Ha st1 Hb.
    destruct (E4 env1 st player Hex Hp) as (O1 & S1 & Hin1).
    cbv zeta in O1, S1, Hin1. rewrite Hobs in O1, S1, Hin1.
    pose proof (E3 env1 player [] a [b] st eq_refl Ha) as X1.
    cbn [app] in X1. rewrite X1 in O1, S1, Hin1. clear X1.
    cbv zeta in O1, S1, Hin1.
    cbn [obstaclePassFrom walk tl firstn fst snd app length] in O1, S1, Hin1.
    fold st1 in O1, S1, Hin1.
    assert (Hplay : Monolith.isPlayingRef st = true).
    { unfold executes in Hex. apply andb_true_iff in Hex as [Hex _].
      apply andb_true_iff in Hex as [Hex _]. exact Hex. }
    change (Monolith.isPlayingRef (scored10 st)) with (Monolith.isPlayingRef st) in Hin1.
    rewrite Hplay in Hin1.
    assert (Hp1 : Monolith.playerRef st1 =
                  Some (set_position player
                          (fst (Monolith.movePlayer (Monolith.playerPosition st)
                                  (Monolith.isJumping st) (position player))))).
    { subst st1. rewrite (gameLoop_executes env1 st player Hex Hp). reflexivity. }
    assert (Hex1 : executes st1 = true).
    { unfold executes. rewrite Hin1, Hp1. subst st1.
      rewrite (gameLoop_executes env1 st player Hex Hp). reflexivity. }
    specialize (Hb _ Hp1).
    destruct (E4 env2 st1 _ Hex1 Hp1) as (O2 & S2 & _). cbv zeta in O2, S2.
    rewrite O1 in O2, S2.
    pose proof (E3 env2 _ [] b (spawned env1) st1 eq_refl Hb) as X2.
    cbn [app] in X2. rewrite X2 in O2, S2. clear X2.
    cbv zeta in O2, S2.
    cbn [obstaclePassFrom walk fst snd app length] in O2, S2.
    assert (Hsp : firstn 1 (spawned env1) = spawned env1
                  /\ tl (spawned env1) = []).
    { unfold spawned. destruct (Num.lt _ _); split; reflexivity. }
    destruct Hsp as [Hsp1 Hsp2]. rewrite Hsp1, Hsp2 in O2. rewrite Hsp2 in S2.
    cbn [obstaclePassFrom walk fst snd app] in O2, S2. rewrite app_nil_r in O2.
    split; [exact O1|]. split; [exact S1|]. split; [exact O2|].
    assert (Hten : forall s, Monolith.scoreRef (scored10 s) = (Monolith.scoreRef s + 10)%Z)
      by reflexivity.
    rewrite S2, Hten, S1, Hten. lia.
Qed.

(** Two obstacles behind the threshold at the head of the logic module's
    array: the pass removes and scores the first and leaves the second. *)
Lemma removal_skips_the_next_witness :
  let a := CreateBox (mkVector3 (-2) 0.5 (-21)) in
  let b := CreateBox (mkVector3 0 0.5 (-22)) in
  let st := Logic.initial None [a; b] [] in
  cleanupPass [a; b] st = ([b], scored st).
Proof.
  cbv zeta.
  apply (proj1 removal_skips_the_next []
           (CreateBox (mkVector3 (-2) 0.5 (-21)))
           [CreateBox (mkVector3 0 0.5 (-22))]
           (Logic.initial None
              [CreateBox (mkVector3 (-2) 0.5 (-21)); CreateBox (mkVector3 0 0.5 (-22))] [])
           eq_refl eq_refl).
Defined.

(** C10 as claimed fails when the first of the two is itself passed over.  At
    [three_behind] the obstacles at indices 1 and 2 are both behind the
    threshold; the pass removes the one at index 0, passes over the one at
    index 1 and removes the one at index 2: of the pair, the second is removed
    and scored and the first is the one that stays. *)
Lemma second_of_pair_removed_first_skipped :
  let first := CreateBox (mkVector3 0 0.5 (-22)) in
  let second := CreateBox (mkVector3 2 0.5 (-23)) in
  Logic.obstaclesRef three_behind !! 1%nat = Some first
  /\ Logic.obstaclesRef three_behind !! 2%nat = Some second
  /\ behind first = true
  /\ behind second = true
  /\ Logic.obstaclesRef (Logic.cleanupObstacles three_behind) = [first]
  /\ Logic.scoreRef (Logic.cleanupObstacles three_behind) = 20%Z
  /\ Logic.perfectRunRef (Logic.cleanupObstacles three_behind) = 2%Z.
Proof.
  cbv zeta. repeat split; vm_compute; reflexivity.
Qed.

(** ** The two loops over doubles: their passes as walks *)

Lemma Double_position_animate t o :
  Double.position (Double.Monolith.animate t o) = Double.position o.
Proof.
  unfold Double.Monolith.animate. destruct (Double.spawnTime o) as [t0|]; [|reflexivity].
  destruct (negb _); [reflexivity|].
  match goal with |- context [if ?c then _ else _] => destruct c end; reflexivity.
Qed.

Lemma Double_set_id st :
  Double.Monolith.set_obstaclesRef st (Double.Monolith.obstaclesRef st) = st.
Proof. destruct st; reflexivity. Qed.

Lemma Double_ground_set_id st :
  Double.Monolith.set_groundRef st (Double.Monolith.groundRef st) = st.
Proof. destruct st; reflexivity. Qed.

Lemma Double_Logic_set_id st :
  Double.Logic.set_obstaclesRef st (Double.Logic.obstaclesRef st) = st.
Proof. destruct st; reflexivity. Qed.

Lemma Double_Logic_ground_set_id st :
  Double.Logic.set_groundRef st (Double.Logic.groundRef st) = st.
Proof. destruct st; reflexivity. Qed.

Lemma Double_groundPass st :
  forEach Double.Monolith.groundRef Double.Monolith.groundStep st =
  Double.Monolith.set_groundRef st
    (map (Double_recycled (Double.Monolith.speedRef st)) (Double.Monolith.groundRef st)).
Proof.
  rewrite (forEach_walk Double.Monolith.groundRef Double.Monolith.set_groundRef
             ltac:(reflexivity) ltac:(reflexivity) Double_ground_set_id
             (fun g (_ : nat) s => (Some (Double_recycled (Double.Monolith.speedRef s) g), s))).
  - rewrite walk_map. reflexivity.
  - reflexivity.
  - reflexivity.
Qed.

Lemma Double_Logic_groundPass st :
  forEach Double.Logic.groundRef Double.Logic.groundStep st =
  Double.Logic.set_groundRef st
    (map (Double_recycled (Double.Logic.speedRef st)) (Double.Logic.groundRef st)).
Proof.
  rewrite (forEach_walk Double.Logic.groundRef Double.Logic.set_groundRef
             ltac:(reflexivity) ltac:(reflexivity) Double_Logic_ground_set_id
             (fun g (_ : nat) s => (Some (Double_recycled (Double.Logic.speedRef s) g), s))).
  - rewrite walk_map. reflexivity.
  - reflexivity.
  - reflexivity.
Qed.

Lemma Double_Logic_scrollPass st :
  forEach Double.Logic.obstaclesRef Double.Logic.scrollStep st =
  Double.Logic.set_obstaclesRef st
    (map (Double_scrolled (Double.Logic.speedRef st)) (Double.Logic.obstaclesRef st)).
Proof.
  rewrite (forEach_walk Double.Logic.obstaclesRef Double.Logic.set_obstaclesRef
             ltac:(reflexivity) ltac:(reflexivity) Double_Logic_set_id
             (fun o (_ : nat) s => (Some (Double_scrolled (Double.Logic.speedRef s) o), s))).
  - rewrite walk_map. reflexivity.
  - reflexivity.
  - reflexivity.
Qed.

Lemma Double_Logic_moveWorld st :
  Double.Logic.moveWorld st =
  Double.Logic.set_obstaclesRef
    (Double.Logic.set_groundRef st
       (map (Double_recycled (Double.Logic.speedRef st)) (Double.Logic.groundRef st)))
    (map (Double_scrolled (Double.Logic.speedRef st)) (Double.Logic.obstaclesRef st)).
Proof.
  unfold Double.Logic.moveWorld.
  rewrite Double_Logic_groundPass, Double_Logic_scrollPass. reflexivity.
Qed.

Lemma Double_cleanupObstacles_walk st :
  Double.Logic.cleanupObstacles st =
  Double.Logic.set_obstaclesRef
    (snd (Double_cleanupPassFrom 0 (Double.Logic.obstaclesRef st) st))
    (fst (Double_cleanupPassFrom 0 (Double.Logic.obstaclesRef st) st)).
Proof.
  unfold Double.Logic.cleanupObstacles, Double_cleanupPassFrom.
  apply (forEach_walk Double.Logic.obstaclesRef Double.Logic.set_obstaclesRef);
    try reflexivity.
  - apply Double_Logic_set_id.
  - intros a k s l. unfold Double_cleanupVisit, Double_scored. simpl.
    destruct (Double_behind a); [|reflexivity].
    destruct (Z.rem (Double.Logic.perfectRunRef s + 1) 10 =? 0)%Z; reflexivity.
  - intros a k s Hk. unfold Double.Logic.cleanupStep, Double_cleanupVisit, Double_behind,
      Double.Num.lt.
    destruct (PrimFloat.ltb (Double.z (Double.position a)) (-20)); simpl.
    + unfold Double_scored. simpl.
      destruct (Z.rem (Double.Logic.perfectRunRef s + 1) 10 =? 0)%Z; reflexivity.
    + rewrite list_insert_id by exact Hk. symmetry. apply Double_Logic_set_id.
Qed.

Lemma Double_obstaclePass_walk env player st :
  forEach Double.Monolith.obstaclesRef (Double.Monolith.obstacleStep env player) st =
  Double.Monolith.set_obstaclesRef
    (snd (Double_obstaclePassFrom env player 0 (Double.Monolith.obstaclesRef st) st))
    (fst (Double_obstaclePassFrom env player 0 (Double.Monolith.obstaclesRef st) st)).
Proof.
  unfold Double_obstaclePassFrom.
  apply (forEach_walk Double.Monolith.obstaclesRef Double.Monolith.set_obstaclesRef);
    try reflexivity.
  - apply Double_set_id.
  - intros a k s l. unfold Double_obstacleVisit. simpl.
    destruct (Double.Monolith.collides _ _); [reflexivity|].
    destruct (Double_behind _); reflexivity.
  - intros a k s Hk.
    unfold Double.Monolith.obstacleStep, Double_obstacleVisit, Double_behind,
      Double_scrolled, Double.Num.lt.
    cbv zeta. rewrite !Double_position_animate.
    destruct (Double.Monolith.collides _ _); [reflexivity|]. simpl.
    match goal with |- context [PrimFloat.ltb ?a ?b] => destruct (PrimFloat.ltb a b) end;
      simpl.
    + rewrite delete_insert_same. reflexivity.
    + reflexivity.
Qed.

(** ** One frame of each loop over doubles *)

Lemma Double_obstacleVisit_same_frame env player st0 a k st :
  Double_same_frame st0 st ->
  Double_same_frame st0 (snd (Double_obstacleVisit env player a k st)).
Proof.
  unfold Double_obstacleVisit. intros H.
  destruct (Double.Monolith.collides _ _); [exact H|].
  destruct (Double_behind _); exact H.
Qed.

Lemma Double_obstaclePass_same_frame env player k l st :
  Double_same_frame st (snd (Double_obstaclePassFrom env player k l st)).
Proof.
  unfold Double_obstaclePassFrom.
  apply (walk_keeps _ (Double_same_frame st)
           (Double_obstacleVisit_same_frame env player st) (length l)); [lia|].
  repeat split.
Qed.

Lemma Double_obstacleVisit_ground env player a k st g :
  Double_obstacleVisit env player a k (Double.Monolith.set_groundRef st g) =
  (fst (Double_obstacleVisit env player a k st),
   Double.Monolith.set_groundRef (snd (Double_obstacleVisit env player a k st)) g).
Proof.
  unfold Double_obstacleVisit. simpl.
  destruct (Double.Monolith.collides _ _); [reflexivity|].
  destruct (Double_behind _); reflexivity.
Qed.

Lemma Double_gameLoop_executes env st player :
  Double_executes st = true -> Double.Monolith.playerRef st = Some player ->
  let w := Double_obstaclePassFrom env player 0 (Double.Monolith.obstaclesRef st) st in
  let mv := Double.Monolith.movePlayer (Double.Monolith.playerPosition st)
              (Double.Monolith.isJumping st) (Double.position player) in
  let v := Double.Num.min (Double.Monolith.speedRef st + 0.0001)%float 0.5%float in
  Double.Monolith.gameLoop env st =
  Double.Monolith.mkState true
    (Some (Double.set_position player (fst mv)))
    (fst w ++ Double_spawned env)
    (map (Double_recycled (Double.Monolith.speedRef st)) (Double.Monolith.groundRef st))
    (if Double.Monolith.isPlayingRef (snd w) then true else Double.Monolith.animationRef st)
    (Double.Monolith.with_speed (Double.Monolith.gameState (snd w)) v)
    (Double.Monolith.playerPosition st)
    (snd mv)
    v
    (Double.Monolith.scoreRef (snd w))
    (Double.Monolith.isPlayingRef (snd w)).
Proof.
  unfold Double_executes. intros Hex Hp. cbv zeta.
  apply andb_true_iff in Hex as [Hex Hscene].
  apply andb_true_iff in Hex as [Hplay _].
  unfold Double.Monolith.gameLoop. rewrite Hplay, Hp, Hscene. simpl negb. cbv iota.
  rewrite Double_groundPass, Double_obstaclePass_walk.
  change (Double.Monolith.obstaclesRef (Double.Monolith.set_groundRef st ?g))
    with (Double.Monolith.obstaclesRef st).
  unfold Double_obstaclePassFrom.
  rewrite (walk_set Double.Monolith.set_groundRef (Double_obstacleVisit env player)
             (Double_obstacleVisit_ground env player)
             (length (Double.Monolith.obstaclesRef st))) by lia.
  pose proof (Double_obstaclePass_same_frame env player 0
                (Double.Monolith.obstaclesRef st) st) as Hsame.
  unfold Double_obstaclePassFrom in Hsame.
  destruct (walk (Double_obstacleVisit env player) 0 (Double.Monolith.obstaclesRef st) st)
    as [l st'].
  destruct Hsame as (H1 & H2 & H3 & H4 & H5 & H6 & H7).
  destruct (Double.Monolith.movePlayer _ _ _) as [p jumping] eqn:Emv.
  destruct st' as [sc pl ob gr an gs pp ij sp so ip].
  simpl in H1, H2, H3, H4, H5, H6, H7. subst sc pl gr an pp ij sp.
  unfold Double_spawned, Double.Monolith.createObstacle, Double.Num.lt. simpl.
  rewrite Hscene.
  destruct (PrimFloat.ltb (Double.Monolith.spawnRoll env) 0.02); simpl;
    rewrite ?app_nil_r; destruct ip; reflexivity.
Qed.

Lemma Double_gameLoop_idle env st :
  Double_executes st = false -> Double.Monolith.gameLoop env st = st.
Proof.
  unfold Double_executes, Double.Monolith.gameLoop. intros H.
  destruct (Double.Monolith.isPlayingRef st); [|reflexivity].
  destruct (Double.Monolith.playerRef st); [|reflexivity].
  destruct (Double.Monolith.sceneRef st); [discriminate | reflexivity].
Qed.

Lemma Double_executes_player st :
  Double_executes st = true -> exists player, Double.Monolith.playerRef st = Some player.
Proof.
  unfold Double_executes. intros H. destruct (Double.Monolith.playerRef st) as [p|].
  - exists p. reflexivity.
  - rewrite andb_false_r in H. discriminate.
Qed.

Lemma Double_cleanupVisit_same_frame st0 a k st :
  Double_Logic_same_frame st0 st ->
  Double_Logic_same_frame st0 (snd (Double_cleanupVisit a k st)).
Proof.
  unfold Double_cleanupVisit. intros H.
  destruct (Double_behind a); [|exact H].
  unfold Double_scored. cbv zeta. destruct (Z.eqb _ _); exact H.
Qed.

Lemma Double_cleanupPass_same_frame k l st :
  Double_Logic_same_frame st (snd (Double_cleanupPassFrom k l st)).
Proof.
  unfold Double_cleanupPassFrom.
  apply (walk_keeps _ (Double_Logic_same_frame st)
           (Double_cleanupVisit_same_frame st) (length l)); [lia|].
  repeat split.
Qed.

Lemma Double_Logic_gameLoop_idle ps st :
  Double_Logic_executes st = false -> Double.Logic.gameLoop ps st = st.
Proof.
  unfold Double_Logic_executes, Double.Logic.gameLoop. intros H.
  destruct (Double.Logic.isPlayingRef st); [|reflexivity].
  destruct (Double.Logic.playerRef st); [discriminate | reflexivity].
Qed.

Lemma Double_Logic_executes_split st :
  Double_Logic_executes st = true ->
  Double.Logic.isPlayingRef st = true
  /\ exists player, Double.Logic.playerRef st = Some player.
Proof.
  unfold Double_Logic_executes. intros H. apply andb_true_iff in H as [H1 H2].
  split; [exact H1|]. destruct (Double.Logic.playerRef st) as [p|]; [|discriminate].
  exists p. reflexivity.
Qed.

(** One frame of the logic module that gets past the guard: the world
    scrolls and the player moves; then either the collision ends the frame,
    or the cleanup pass and the speed update follow. *)
Lemma Double_Logic_gameLoop_executes ps st player :
  Double.Logic.isPlayingRef st = true -> Double.Logic.playerRef st = Some player ->
  let player1 := Double.Logic.updatePlayerMovement player ps in
  let seen := map (Double_scrolled (Double.Logic.speedRef st)) (Double.Logic.obstaclesRef st) in
  let st2 :=
    Double.Logic.set_playerRef
      (Double.Logic.set_obstaclesRef
         (Double.Logic.set_groundRef st
            (map (Double_recycled (Double.Logic.speedRef st)) (Double.Logic.groundRef st)))
         seen)
      (Some player1) in
  let w := Double_cleanupPassFrom 0 seen st2 in
  Double.Logic.gameLoop ps st =
  if Double.Logic.checkCollisions player1 seen
  then Double.Logic.call (Double.Logic.set_isPlayingRef st2 false) Double.Logic.onGameOver
  else Double.Logic.set_animationRef
         (Double.Logic.updateDifficulty (Double.Logic.set_obstaclesRef (snd w) (fst w)))
         true.
Proof.
  intros Hplay Hp. cbv zeta. unfold Double.Logic.gameLoop. rewrite Hplay, Hp. simpl negb.
  cbv iota. rewrite Double_Logic_moveWorld.
  change (Double.Logic.obstaclesRef
            (Double.Logic.set_playerRef (Double.Logic.set_obstaclesRef ?s ?l) ?p)) with l.
  destruct (Double.Logic.checkCollisions _ _); [reflexivity|].
  rewrite Double_cleanupObstacles_walk.
  change (Double.Logic.obstaclesRef
            (Double.Logic.set_playerRef (Double.Logic.set_obstaclesRef ?s ?l) ?p)) with l.
  match goal with
  | |- context [Double_cleanupPassFrom 0 ?l ?s] =>
      pose proof (Double_cleanupPass_same_frame 0 l s) as (_ & Hpl & _);
      destruct (Double_cleanupPassFrom 0 l s) as [r st3]
  end.
  cbn [fst snd] in *.
  cbn [Double.Logic.updateDifficulty Double.Logic.set_speedRef Double.Logic.isPlayingRef
       Double.Logic.set_obstaclesRef Double.Logic.set_playerRef Double.Logic.set_groundRef]
    in *.
  rewrite Hpl, Hplay. reflexivity.
Qed.

(** ** Ground scrolling and wrap-around over doubles (C9) *)

Lemma Double_ground_frame env st :
  Double_executes st = true ->
  Double.Monolith.groundRef (Double.Monolith.gameLoop env st) =
  map (Double_recycled (Double.Monolith.speedRef st)) (Double.Monolith.groundRef st).
Proof.
  intros Hex. destruct (Double_executes_player st Hex) as [player Hp].
  rewrite (Double_gameLoop_executes env st player Hex Hp). reflexivity.
Qed.

Lemma Double_Logic_ground_frame ps st :
  Double_Logic_executes st = true ->
  Double.Logic.groundRef (Double.Logic.gameLoop ps st) =
  map (Double_recycled (Double.Logic.speedRef st)) (Double.Logic.groundRef st).
Proof.
  intros Hex. destruct (Double_Logic_executes_split st Hex) as (Hplay & player & Hp).
  rewrite (Double_Logic_gameLoop_executes ps st player Hplay Hp). cbv zeta.
  destruct (Double.Logic.checkCollisions _ _); [reflexivity|].
  match goal with
  | |- context [Double_cleanupPassFrom 0 ?l ?s] =>
      pose proof (Double_cleanupPass_same_frame 0 l s) as (_ & _ & _ & _ & Hg);
      destruct (Double_cleanupPassFrom 0 l s) as [r st3]
  end.
  cbn [fst snd] in *. simpl. exact Hg.
Qed.

Lemma Double_frames_ground_length envs n st :
  length (Double.Monolith.groundRef (Double.Monolith.frames envs n st)) =
  length (Double.Monolith.groundRef st).
Proof.
  induction n as [|n IH]; [reflexivity|]. simpl.
  destruct (Double_executes (Double.Monolith.frames envs n st)) eqn:E.
  - rewrite (Double_ground_frame _ _ E), length_map. exact IH.
  - rewrite (Double_gameLoop_idle _ _ E). exact IH.
Qed.

Lemma Double_Logic_frames_ground_length ps n st :
  length (Double.Logic.groundRef (Double.Logic.frames ps n st)) =
  length (Double.Logic.groundRef st).
Proof.
  induction n as [|n IH]; [reflexivity|]. simpl.
  destruct (Double_Logic_executes (Double.Logic.frames ps n st)) eqn:E.
  - rewrite (Double_Logic_ground_frame _ _ E), length_map. exact IH.
  - rewrite (Double_Logic_gameLoop_idle _ _ E). exact IH.
Qed.

(** Where neither operation rounds, the step moves a segment back by the
    speed and forward by no or one wrap span. *)
Lemma Double_crisp_step (s : float) (g : Double.Mesh) :
  Double_crisp s g ->
  exists k : Z,
    exact (Double.z (Double.position (Double_recycled s g))) ==
    exact (Double.z (Double.position g)) - exact s + 200 * inject_Z k.
Proof.
  unfold Double_crisp, Double_recycled. cbv zeta. intros [Hsub Hadd]. simpl.
  destruct (Double.Num.lt _ _).
  - exists 1%Z. rewrite (Hadd eq_refl), Hsub. change (inject_Z 1) with 1. ring.
  - exists 0%Z. rewrite Hsub. change (inject_Z 0) with 0. ring.
Qed.

(** C9, as the code has it: a frame of either loop that gets past its guard
    subtracts the speed from the position of every ground segment and adds
    200 to a position that is then below -20, whatever else the frame does,
    a collision in the logic module included; a frame stopped at the guard
    leaves the ground alone; the number of segments never changes.  A
    segment whose position comes to -20.5 is put at 179.5.  Both operations
    are the rounded ones of double arithmetic: where neither rounds for
    either of two segments, the difference of their positions changes by a
    whole multiple of 200. *)
Theorem ground_scroll_and_wrap_in_doubles :
  (forall env st,
      Double_executes st = true ->
      Double.Monolith.groundRef (Double.Monolith.gameLoop env st) =
      map (Double_recycled (Double.Monolith.speedRef st)) (Double.Monolith.groundRef st))
  /\ (forall ps st,
        Double_Logic_executes st = true ->
        Double.Logic.groundRef (Double.Logic.gameLoop ps st) =
        map (Double_recycled (Double.Logic.speedRef st)) (Double.Logic.groundRef st))
  /\ (forall env st,
        Double_executes st = false -> Double.Monolith.gameLoop env st = st)
  /\ (forall ps st,
        Double_Logic_executes st = false -> Double.Logic.gameLoop ps st = st)
  /\ (forall (s : float) g,
        let z1 := (Double.z (Double.position g) - s)%float in
        Double.z (Double.position (Double_recycled s g)) =
          (if (z1 <? -20)%float then (z1 + 200)%float else z1)
        /\ Double.x (Double.position (Double_recycled s g)) = Double.x (Double.position g)
        /\ Double.y (Double.position (Double_recycled s g)) = Double.y (Double.position g)
        /\ Double.scaling (Double_recycled s g) = Double.scaling g
        /\ Double.spawnTime (Double_recycled s g) = Double.spawnTime g)
  /\ (forall (s : float) g,
        (Double.z (Double.position g) - s)%float = (-20.5)%float ->
        Double.z (Double.position (Double_recycled s g)) = 179.5%float)
  /\ (forall envs n st,
        length (Double.Monolith.groundRef (Double.Monolith.frames envs n st)) =
        length (Double.Monolith.groundRef st))
  /\ (forall ps n st,
        length (Double.Logic.groundRef (Double.Logic.frames ps n st)) =
        length (Double.Logic.groundRef st))
  /\ (forall (s : float) a b,
        Double_crisp s a -> Double_crisp s b ->
        exists k : Z,
          exact (Double.z (Double.position (Double_recycled s a)))
          - exact (Double.z (Double.position (Double_recycled s b))) ==
          exact (Double.z (Double.position a)) - exact (Double.z (Double.position b))
          + 200 * inject_Z k).
Proof.
  split; [exact Double_ground_frame|].
  split; [exact Double_Logic_ground_frame|].
  split; [exact Double_gameLoop_idle|].
  split; [exact Double_Logic_gameLoop_idle|].
  split.
  { intros s g. cbv zeta. unfold Double_recycled, Double.Num.lt. simpl.
    repeat split. }
  split.
  { intros s g H. unfold Double_recycled, Double.Num.lt. cbv zeta. simpl. rewrite H.
    vm_compute. reflexivity. }
  split; [exact Double_frames_ground_length|].
  split; [exact Double_Logic_frames_ground_length|].
  intros s a b Ha Hb.
  destruct (Double_crisp_step s a Ha) as [ka Hka].
  destruct (Double_crisp_step s b Hb) as [kb Hkb].
  exists (ka + - kb)%Z. rewrite Hka, Hkb, inject_Z_plus, inject_Z_opp. ring.
Qed.

Lemma ground_scroll_and_wrap_in_doubles_witness :
  Double_executes Double_fresh = true
  /\ Double_zs (firstn 3 (Double.Monolith.groundRef
                           (Double.Monolith.gameLoop (Double_calm 0) Double_fresh))) =
     [(-0.2)%float; 9.8%float; 19.8%float]
  /\ Double_Logic_executes Double_Logic_wrap_scene = true
  /\ Double_zs (Double.Logic.groundRef
                  (Double.Logic.gameLoop Double_grounded Double_Logic_wrap_scene)) =
     [179.5%float; 4.5%float]
  /\ Double_crisp 0.5
       (Double.CreateBox (Double.mkVector3 0 (-2) (-20)))
  /\ Double_crisp 0.5
       (Double.CreateBox (Double.mkVector3 0 (-2) 5))
  /\ exists k : Z,
       exact 179.5%float - exact 4.5%float == exact (-20)%float - exact 5%float
                                              + 200 * inject_Z k.
Proof.
  pose proof ground_scroll_and_wrap_in_doubles as (H1 & H2 & _ & _ & _ & _ & _ & _ & H9).
  assert (E1 : Double_executes Double_fresh = true) by (vm_compute; reflexivity).
  assert (E2 : Double_Logic_executes Double_Logic_wrap_scene = true)
    by (vm_compute; reflexivity).
  assert (C1 : Double_crisp 0.5 (Double.CreateBox (Double.mkVector3 0 (-2) (-20)))).
  { split; [vm_compute; reflexivity | intros _; vm_compute; reflexivity]. }
  assert (C2 : Double_crisp 0.5 (Double.CreateBox (Double.mkVector3 0 (-2) 5))).
  { split; [vm_compute; reflexivity | intros H; vm_compute in H; discriminate]. }
  split; [exact E1|].
  split; [rewrite (H1 (Double_calm 0) Double_fresh E1); vm_compute; reflexivity|].
  split; [exact E2|].
  split; [rewrite (H2 Double_grounded Double_Logic_wrap_scene E2); vm_compute; reflexivity|].
  split; [exact C1|].
  split; [exact C2|].
  exact (H9 0.5%float _ _ C1 C2).
Defined.

(** The spacing is not preserved where an operation rounds.  In the first
    frame of a session just started the segments at 0 and 10 go to the
    doubles next to -0.2 and 9.8, which are 10 + 13/2^54 apart; after a
    thousand frames they are 10 + 1/2^45 apart; and of two segments at -19.9
    and 5.1 scrolled at 0.2 the first wraps, and their difference changes by
    200 + 5/2^50. *)
Lemma ground_spacing_drifts_in_doubles :
  Double_executes Double_fresh = true
  /\ Double_zs (firstn 2 (Double.Monolith.groundRef Double_fresh)) = [0%float; 10%float]
  /\ Double_zs (firstn 2 (Double.Monolith.groundRef
                           (Double.Monolith.gameLoop (Double_calm 0) Double_fresh))) =
     [(-0.2)%float; 9.8%float]
  /\ exact 9.8%float - exact (-0.2)%float == 10 + (13 # 18014398509481984)
  /\ (forall k : Z,
        ~ exact 9.8%float - exact (-0.2)%float ==
          exact 10%float - exact 0%float + 200 * inject_Z k)
  /\ Double_zs (firstn 2 (Double.Monolith.groundRef
                           (Double.Monolith.frames Double_calm 1000 Double_fresh))) =
     [150.05000000000544%float; 160.05000000000547%float]
  /\ exact 160.05000000000547%float - exact 150.05000000000544%float ==
     10 + (1 # 35184372088832)
  /\ Double_executes Double_wrap_scene = true
  /\ Double_zs (Double.Monolith.groundRef Double_wrap_scene) = [(-19.9)%float; 5.1%float]
  /\ Double_zs (Double.Monolith.groundRef
                  (Double.Monolith.gameLoop (Double_calm 0) Double_wrap_scene)) =
     [179.90000000000001%float; 4.8999999999999995%float]
  /\ exact 179.90000000000001%float - exact 4.8999999999999995%float ==
     exact (-19.9)%float - exact 5.1%float + 200 + (5 # 1125899906842624)
  /\ (forall k : Z,
        ~ exact 179.90000000000001%float - exact 4.8999999999999995%float ==
          exact (-19.9)%float - exact 5.1%float + 200 * inject_Z k).
Proof.
  assert (Hodd : forall (a b : Q) (n : Z) (d : positive),
             a - b == Qmake n d -> (0 < n < 200 * Zpos d)%Z ->
             forall k : Z, ~ a == b + 200 * inject_Z k).
  { intros a b n d Hab Hn k Hk. rewrite Hk in Hab.
    assert (E : 200 * inject_Z k == Qmake n d) by (rewrite <- Hab; ring).
    unfold Qeq, Qmult, inject_Z in E. cbn [Qnum Qden] in E.
    rewrite Pos2Z.inj_mul in E.
    destruct (Z.le_gt_cases k 0) as [Hk0|Hk0]; nia. }
  split; [vm_compute; reflexivity|].
  split; [vm_compute; reflexivity|].
  split; [vm_compute; reflexivity|].
  split; [vm_compute; reflexivity|].
  split.
  { intros k. apply (Hodd _ _ 13%Z 18014398509481984%positive).
    - vm_compute. reflexivity.
    - lia. }
  split; [vm_compute; reflexivity|].
  split; [vm_compute; reflexivity|].
  split; [vm_compute; reflexivity|].
  split; [vm_compute; reflexivity|].
  split; [vm_compute; reflexivity|].
  split; [vm_compute; reflexivity|].
  intros k Hk.
  assert (E : exact 179.90000000000001%float - exact 4.8999999999999995%float
              - (exact (-19.9)%float - exact 5.1%float) - 200
              == 200 * inject_Z (k + -1)).
  { rewrite Hk, inject_Z_plus. change (inject_Z (-1)) with (-1). ring. }
  assert (V : exact 179.90000000000001%float - exact 4.8999999999999995%float
              - (exact (-19.9)%float - exact 5.1%float) - 200
              == 5 # 1125899906842624) by (vm_compute; reflexivity).
  rewrite V in E. unfold Qeq in E. simpl in E. lia.
Qed.

(** A counter that every removal raises by [c], and nothing else changes,
    accounts for the elements a walk has dropped. *)
Section WalkCount.
Context {St A : Type}.
Variable visit : A -> nat -> St -> option A * St.
Variable m : St -> Z.
Variable c : Z.
Hypothesis visit_m : forall a k st,
  m (snd (visit a k st)) =
  (m st + match fst (visit a k st) with Some _ => 0 | None => c end)%Z.

Lemma walk_count n : forall k l st,
  (length l <= n)%nat ->
  (m (snd (walk visit k l st)) + c * Z.of_nat (length (fst (walk visit k l st)))
   = m st + c * Z.of_nat (length l))%Z.
Proof.
  induction n as [|n IH]; intros k l st Hl.
  - destruct l; [simpl; lia | simpl in Hl; lia].
  - destruct l as [|a l1]; [simpl; lia|].
    simpl in Hl. simpl walk.
    pose proof (visit_m a k st) as Hm.
    destruct (visit a k st) as [[a'|] st1]; cbn [fst snd] in *.
    + specialize (IH (S k) l1 st1 ltac:(lia)).
      destruct (walk visit (S k) l1 st1) as [r st2]. cbn [fst snd length] in *. lia.
    + destruct l1 as [|b l2]; [cbn [fst snd length]; lia|].
      simpl in Hl. specialize (IH (S k) l2 st1 ltac:(lia)).
      destruct (walk visit (S k) l2 st1) as [r st2]. cbn [fst snd length] in *. lia.
Qed.
End WalkCount.

(** ** The frame of a removal over doubles (C5) *)

Lemma scrolls_succ_r (s : float) (k : nat) (P : float) :
  scrolls s (S k) P = scrolls s k (P - s)%float.
Proof.
  unfold scrolls. induction k as [|k IH]; [reflexivity|].
  change (Nat.iter (S (S k)) (fun z => (z - s)%float) P)
    with ((Nat.iter (S k) (fun z => (z - s)%float) P - s)%float).
  rewrite IH. reflexivity.
Qed.

(** What [firstBehind] finds is the first of the positions that follow [z]
    to be behind the threshold. *)
Lemma firstBehind_spec (s : float) fuel : forall k0 z k,
  firstBehind s fuel k0 z = Some k ->
  exists d, k = (k0 + S d)%nat /\ (d < fuel)%nat
    /\ Double.Num.lt (scrolls s (S d) z) (-20)%float = true
    /\ forall j, (j < d)%nat -> Double.Num.lt (scrolls s (S j) z) (-20)%float = false.
Proof.
  induction fuel as [|fuel IH]; intros k0 z k H; [discriminate|].
  simpl in H. destruct (Double.Num.lt (z - s)%float (-20)%float) eqn:E.
  - injection H as <-. exists 0%nat. repeat split; [lia | lia | exact E |].
    intros j Hj. lia.
  - destruct (IH (S k0) (z - s)%float k H) as (d & Hk & Hd & Hlt & Hbefore).
    exists (S d). split; [lia|]. split; [lia|]. split.
    + rewrite scrolls_succ_r. exact Hlt.
    + intros j Hj. destruct j as [|j]; [exact E|].
      rewrite scrolls_succ_r. apply Hbefore. lia.
Qed.

Lemma Double_behind_animate t o :
  Double_behind (Double.Monolith.animate t o) = Double_behind o.
Proof. unfold Double_behind. rewrite Double_position_animate. reflexivity. Qed.

Lemma Double_obstacleVisit_gone env player (s : float) a k st :
  Double.Monolith.speedRef st = s ->
  (Double_swept (Double.position player) s a = true ->
   fst (Double_obstacleVisit env player a k st) = None)
  /\ (Double_swept (Double.position player) s a = false ->
      exists a', fst (Double_obstacleVisit env player a k st) = Some a')
  /\ Double.Monolith.speedRef (snd (Double_obstacleVisit env player a k st)) = s.
Proof.
  intros Hs. unfold Double_obstacleVisit, Double_swept. cbv zeta.
  rewrite Double_position_animate, Double_behind_animate, Hs.
  destruct (Double.Monolith.collides _ _); simpl.
  - repeat split; try discriminate; try exact Hs. intros _. eauto.
  - destruct (Double_behind _); repeat split; try discriminate; try exact Hs.
    intros _. eauto.
Qed.

(** The obstacles the cleanup pass leaves depend on the array alone. *)
Lemma Double_cleanupPass_kept n : forall k l st,
  (length l <= n)%nat -> fst (Double_cleanupPassFrom k l st) = Double_kept l.
Proof.
  unfold Double_cleanupPassFrom.
  induction n as [|n IH]; intros k l st Hl.
  - destruct l; [reflexivity | simpl in Hl; lia].
  - destruct l as [|a l1]; [reflexivity|]. simpl in Hl. simpl.
    unfold Double_cleanupVisit at 1. destruct (Double_behind a).
    + destruct l1 as [|b l2]; [reflexivity|]. simpl in Hl.
      specialize (IH (S k) l2 (Double_scored st) ltac:(lia)).
      destruct (walk Double_cleanupVisit (S k) l2 (Double_scored st)).
      simpl in *. rewrite IH. reflexivity.
    + specialize (IH (S k) l1 st ltac:(lia)).
      destruct (walk Double_cleanupVisit (S k) l1 st).
      simpl in *. rewrite IH. reflexivity.
Qed.

Lemma Double_scored_fields st :
  Double.Logic.perfectRunRef (Double_scored st) = (Double.Logic.perfectRunRef st + 1)%Z
  /\ Double.Logic.scoreRef (Double_scored st) =
     (Double.Logic.scoreRef st + 10
      + (if (Z.rem (Double.Logic.perfectRunRef st + 1) 10 =? 0)%Z then 50 else 0))%Z.
Proof.
  unfold Double_scored, Double.GAME_RULES.pointsPerObstacle,
    Double.GAME_RULES.perfectRunBonus. simpl.
  destruct (Z.rem (Double.Logic.perfectRunRef st + 1) 10 =? 0)%Z; simpl;
    repeat split; lia.
Qed.

Lemma Double_cleanup_walk_tallied n : forall k l st,
  (length l <= n)%nat -> (0 <= Double.Logic.perfectRunRef st)%Z ->
  Double_tallied st l (walk Double_cleanupVisit k l st).
Proof.
  induction n as [|n IH]; intros k l st Hl Hpr.
  - destruct l; [|simpl in Hl; lia]. unfold Double_tallied. simpl.
    repeat split; lia.
  - destruct l as [|a l1].
    { unfold Double_tallied. simpl. repeat split; lia. }
    simpl in Hl. simpl walk. unfold Double_cleanupVisit at 1.
    destruct (Double_behind a).
    + pose proof (Double_scored_fields st) as (Hp & Hs).
      pose proof (bonus_step (Double.Logic.perfectRunRef st) Hpr) as Hb.
      destruct l1 as [|b l2].
      * unfold Double_tallied. cbn [fst snd length].
        rewrite Hp, Hs, Hb. repeat split; lia.
      * simpl in Hl.
        specialize (IH (S k) l2 (Double_scored st) ltac:(lia) ltac:(lia)).
        destruct (walk Double_cleanupVisit (S k) l2 (Double_scored st)) as [r st2].
        unfold Double_tallied in *. cbn [fst snd length] in *.
        destruct IH as (I1 & I2 & I3).
        rewrite Hs, Hb in I3. rewrite Hp in I2, I3.
        replace (S (S (length l2)) - S (length r))%nat
          with (S (length l2 - length r))%nat by lia.
        repeat split; try lia.
    + specialize (IH (S k) l1 st ltac:(lia) Hpr).
      destruct (walk Double_cleanupVisit (S k) l1 st) as [r st2].
      unfold Double_tallied in *. cbn [fst snd length] in *.
      destruct IH as (I1 & I2 & I3).
      repeat split; try assumption; try lia.
Qed.

(** A frame of the logic module that leaves the session in play has found no
    collision and has run the cleanup pass on the scrolled obstacles. *)
Lemma Double_Logic_frame_in_play ps st player :
  Double.Logic.isPlayingRef st = true ->
  Double.Logic.playerRef st = Some player ->
  Double.Logic.isPlayingRef (Double.Logic.gameLoop ps st) = true ->
  let player1 := Double.Logic.updatePlayerMovement player ps in
  let seen := map (Double_scrolled (Double.Logic.speedRef st)) (Double.Logic.obstaclesRef st) in
  let st2 :=
    Double.Logic.set_playerRef
      (Double.Logic.set_obstaclesRef
         (Double.Logic.set_groundRef st
            (map (Double_recycled (Double.Logic.speedRef st)) (Double.Logic.groundRef st)))
         seen)
      (Some player1) in
  let w := Double_cleanupPassFrom 0 seen st2 in
  Double.Logic.gameLoop ps st =
  Double.Logic.set_animationRef
    (Double.Logic.updateDifficulty (Double.Logic.set_obstaclesRef (snd w) (fst w))) true.
Proof.
  intros Hplay Hp Hin. cbv zeta.
  rewrite (Double_Logic_gameLoop_executes ps st player Hplay Hp) in *. cbv zeta in *.
  destruct (Double.Logic.checkCollisions _ _); [simpl in Hin; discriminate|].
  reflexivity.
Qed.

(** The pass of the monolithic loop, the array, the score and the flag after
    a frame that runs. *)
Lemma Double_frame_pass env st player :
  Double_executes st = true ->
  Double.Monolith.playerRef st = Some player ->
  let w := Double_obstaclePassFrom env player 0 (Double.Monolith.obstaclesRef st) st in
  Double.Monolith.obstaclesRef (Double.Monolith.gameLoop env st) = fst w ++ Double_spawned env
  /\ Double.Monolith.scoreRef (Double.Monolith.gameLoop env st)
     = Double.Monolith.scoreRef (snd w)
  /\ Double.Monolith.isPlayingRef (Double.Monolith.gameLoop env st)
     = Double.Monolith.isPlayingRef (snd w).
Proof.
  intros Hex Hp. cbv zeta.
  rewrite (Double_gameLoop_executes env st player Hex Hp). repeat split; reflexivity.
Qed.

Lemma Double_pass_swept env player pre a post st :
  reaches (Double_swept (Double.position player) (Double.Monolith.speedRef st)) pre = true ->
  Double_swept (Double.position player) (Double.Monolith.speedRef st) a = true ->
  Double_obstaclePassFrom env player 0 (pre ++ a :: post) st =
  let w1 := Double_obstaclePassFrom env player 0 pre st in
  let w2 := Double_obstaclePassFrom env player (S (length (fst w1))) (tl post)
              (Double_scored10 (snd w1)) in
  (fst w1 ++ firstn 1 post ++ fst w2, snd w2).
Proof.
  intros Hr Ha. unfold Double_obstaclePassFrom. cbv zeta.
  pose proof (Double_obstacleVisit_gone env player (Double.Monolith.speedRef st)) as Hv.
  rewrite (walk_reaches (Double_obstacleVisit env player)
             (Double_swept (Double.position player) (Double.Monolith.speedRef st))
             (fun s => Double.Monolith.speedRef s = Double.Monolith.speedRef st) Hv
             (length pre) pre 0%nat (a :: post) st ltac:(lia) eq_refl Hr).
  assert (Hs1 : Double.Monolith.speedRef (snd (walk (Double_obstacleVisit env player) 0 pre st))
                = Double.Monolith.speedRef st).
  { apply (walk_keeps _ (fun s => Double.Monolith.speedRef s = Double.Monolith.speedRef st)
             (fun a0 k0 s0 H0 => proj2 (proj2 (Hv a0 k0 s0 H0)))
             (length pre)); [lia | reflexivity]. }
  destruct (walk (Double_obstacleVisit env player) 0 pre st) as [r1 st1].
  cbn [fst snd] in *. simpl Nat.add.
  rewrite (walk_gone (Double_obstacleVisit env player)
             (Double_swept (Double.position player) (Double.Monolith.speedRef st))
             (fun s => Double.Monolith.speedRef s = Double.Monolith.speedRef st) Hv
             a _ post st1 Hs1 Ha).
  assert (Hsn : snd (Double_obstacleVisit env player a (length r1) st1) = Double_scored10 st1).
  { unfold Double_obstacleVisit. cbv zeta.
    rewrite Double_position_animate, Double_behind_animate, Hs1.
    unfold Double_swept in Ha. apply andb_true_iff in Ha as [Hc Hb].
    apply negb_true_iff in Hc. rewrite Hc, Hb. reflexivity. }
  rewrite Hsn. reflexivity.
Qed.

(** Every removal of the monolithic pass scores 10, and nothing else moves
    the score. *)
Lemma Double_obstacleVisit_score env player a k st :
  Double.Monolith.scoreRef (snd (Double_obstacleVisit env player a k st)) =
  (Double.Monolith.scoreRef st
   + match fst (Double_obstacleVisit env player a k st) with Some _ => 0 | None => 10 end)%Z.
Proof.
  unfold Double_obstacleVisit. cbv zeta.
  destruct (Double.Monolith.collides _ _); [simpl; lia|].
  destruct (Double_behind _); simpl; lia.
Qed.

Lemma Double_frame_count env st :
  Double_executes st = true ->
  Double.Monolith.scoreRef (Double.Monolith.gameLoop env st) =
  (Double.Monolith.scoreRef st
   + 10 * (Z.of_nat (length (Double.Monolith.obstaclesRef st))
           + Z.of_nat (length (Double_spawned env))
           - Z.of_nat (length (Double.Monolith.obstaclesRef (Double.Monolith.gameLoop env st)))))%Z.
Proof.
  intros Hex. destruct (Double_executes_player st Hex) as [player Hp].
  destruct (Double_frame_pass env st player Hex Hp) as (Ho & Hs & _). cbv zeta in *.
  rewrite Ho, Hs, length_app.
  pose proof (walk_count (Double_obstacleVisit env player) Double.Monolith.scoreRef 10
                (Double_obstacleVisit_score env player)
                (length (Double.Monolith.obstaclesRef st)) 0
                (Double.Monolith.obstaclesRef st) st ltac:(lia)) as Hc.
  unfold Double_obstaclePassFrom. lia.
Qed.

Lemma Double_Logic_frame_count ps st :
  Double_Logic_executes st = true ->
  Double.Logic.isPlayingRef (Double.Logic.gameLoop ps st) = true ->
  (0 <= Double.Logic.perfectRunRef st)%Z ->
  let st' := Double.Logic.gameLoop ps st in
  let removed := (Z.of_nat (length (Double.Logic.obstaclesRef st))
                  - Z.of_nat (length (Double.Logic.obstaclesRef st')))%Z in
  Double.Logic.obstaclesRef st' =
    Double_kept (map (Double_scrolled (Double.Logic.speedRef st)) (Double.Logic.obstaclesRef st))
  /\ (0 <= removed)%Z
  /\ Double.Logic.perfectRunRef st' = (Double.Logic.perfectRunRef st + removed)%Z
  /\ Double.Logic.scoreRef st' =
     (Double.Logic.scoreRef st + 10 * removed
      + 50 * (Double.Logic.perfectRunRef st' / 10 - Double.Logic.perfectRunRef st / 10))%Z.
Proof.
  intros Hex Hin Hpr. cbv zeta.
  destruct (Double_Logic_executes_split st Hex) as (Hplay & player & Hp).
  rewrite (Double_Logic_frame_in_play ps st player Hplay Hp Hin). cbv zeta.
  set (seen := map (Double_scrolled (Double.Logic.speedRef st)) (Double.Logic.obstaclesRef st)).
  set (st2 := Double.Logic.set_playerRef _ _).
  pose proof (Double_cleanupPass_kept (length seen) 0 seen st2 ltac:(lia)) as Hk.
  pose proof (Double_cleanup_walk_tallied (length seen) 0 seen st2 ltac:(lia) Hpr)
    as (T1 & T2 & T3).
  fold (Double_cleanupPassFrom 0 seen st2) in T1, T2, T3.
  destruct (Double_cleanupPassFrom 0 seen st2) as [r st3]. cbn [fst snd] in *.
  assert (Hlen : length seen = length (Double.Logic.obstaclesRef st))
    by (subst seen; apply length_map).
  change (Double.Logic.perfectRunRef st2) with (Double.Logic.perfectRunRef st) in *.
  change (Double.Logic.scoreRef st2) with (Double.Logic.scoreRef st) in *.
  simpl. rewrite <- Hlen.
  replace (Z.of_nat (length seen) - Z.of_nat (length r))%Z
    with (Z.of_nat (length seen - length r)) by lia.
  repeat split; [exact Hk | lia | exact T2 | exact T3].
Qed.

(** *** Frames at a held speed *)

Lemma Double_executes_set_speedRef st (s : float) :
  Double_executes (Double.Monolith.set_speedRef st s) = Double_executes st.
Proof. reflexivity. Qed.

Lemma Double_visit_not_playing env player a k st :
  Double.Monolith.isPlayingRef st = false ->
  Double.Monolith.isPlayingRef (snd (Double_obstacleVisit env player a k st)) = false.
Proof.
  unfold Double_obstacleVisit. cbv zeta. intros H.
  destruct (Double.Monolith.collides _ _); [reflexivity|].
  destruct (Double_behind _); exact H.
Qed.

Lemma Double_pass_not_playing env player k l st :
  Double.Monolith.isPlayingRef st = false ->
  Double.Monolith.isPlayingRef (snd (Double_obstaclePassFrom env player k l st)) = false.
Proof.
  intros H. unfold Double_obstaclePassFrom.
  apply (walk_keeps _ (fun s => Double.Monolith.isPlayingRef s = false)
           (Double_visit_not_playing env player) (length l)); [lia | exact H].
Qed.

(** A frame that runs and leaves the session in play keeps running. *)
Lemma Double_executes_next env st :
  Double_executes st = true ->
  Double.Monolith.isPlayingRef (Double.Monolith.gameLoop env st) = true ->
  Double_executes (Double.Monolith.gameLoop env st) = true.
Proof.
  intros Hex Hin. destruct (Double_executes_player st Hex) as [player Hp].
  rewrite (Double_gameLoop_executes env st player Hex Hp) in *. cbv zeta in *.
  unfold Double_executes. simpl in *. rewrite Hin. reflexivity.
Qed.

Lemma Double_held_playing_back (s : float) envs n st :
  Double.Monolith.isPlayingRef (Double_heldFrames s envs (S n) st) = true ->
  Double.Monolith.isPlayingRef (Double_heldFrames s envs n st) = true.
Proof.
  simpl. intros H.
  destruct (Double.Monolith.isPlayingRef (Double_heldFrames s envs n st)) eqn:E;
    [reflexivity|].
  rewrite Double_gameLoop_idle in H.
  - simpl in H. congruence.
  - unfold Double_executes. simpl. rewrite E. reflexivity.
Qed.

Lemma Double_held_playing_le (s : float) envs n st : forall j,
  (j <= n)%nat ->
  Double.Monolith.isPlayingRef (Double_heldFrames s envs n st) = true ->
  Double.Monolith.isPlayingRef (Double_heldFrames s envs j st) = true.
Proof.
  induction n as [|n IH]; intros j Hj H.
  - replace j with 0%nat by lia. exact H.
  - destruct (Nat.eq_dec j (S n)) as [->|Hne]; [exact H|].
    apply IH; [lia|]. apply Double_held_playing_back. exact H.
Qed.

Lemma Double_held_executes (s : float) envs st n :
  Double_executes st = true ->
  Double.Monolith.isPlayingRef (Double_heldFrames s envs n st) = true ->
  Double_executes (Double_heldFrames s envs n st) = true.
Proof.
  intros Hex. induction n as [|n IH]; intros H; [exact Hex|].
  pose proof (Double_held_playing_back s envs n st H) as Hn.
  specialize (IH Hn). simpl in *.
  apply Double_executes_next; [|exact H].
  rewrite Double_executes_set_speedRef. exact IH.
Qed.

(** One frame at the head of the array: the first obstacle is always
    visited, at index 0.  In a frame that leaves the session in play it has
    not collided; it stays, scrolled, if it is not behind the threshold, and
    goes if it is. *)
Lemma Double_head_frame env st player o rest :
  Double_executes st = true ->
  Double.Monolith.playerRef st = Some player ->
  Double.Monolith.obstaclesRef st = o :: rest ->
  Double.Monolith.isPlayingRef (Double.Monolith.gameLoop env st) = true ->
  let s := Double.Monolith.speedRef st in
  (Double_behind (Double_scrolled s o) = false ->
   exists rest',
     Double.Monolith.obstaclesRef (Double.Monolith.gameLoop env st) =
     Double.Monolith.animate (Double.Monolith.now env 0) (Double_scrolled s o) :: rest')
  /\ (Double_behind (Double_scrolled s o) = true ->
      let w2 := Double_obstaclePassFrom env player 1 (tl rest) (Double_scored10 st) in
      Double.Monolith.obstaclesRef (Double.Monolith.gameLoop env st) =
        firstn 1 rest ++ fst w2 ++ Double_spawned env
      /\ Double.Monolith.scoreRef (Double.Monolith.gameLoop env st) =
         Double.Monolith.scoreRef (snd w2)).
Proof.
  intros Hex Hp Hobs Hin. cbv zeta.
  destruct (Double_frame_pass env st player Hex Hp) as (Ho & Hs & Hi). cbv zeta in *.
  rewrite Hobs in *. rewrite Hi in Hin.
  assert (Hc : Double.Monolith.collides (Double.position player)
                 (Double.position (Double_scrolled (Double.Monolith.speedRef st) o)) = false).
  { destruct (Double.Monolith.collides _ _) eqn:E; [|reflexivity].
    unfold Double_obstaclePassFrom in Hin. simpl walk in Hin.
    unfold Double_obstacleVisit at 1 in Hin. cbv zeta in Hin.
    rewrite Double_position_animate, E in Hin.
    pose proof (Double_pass_not_playing env player 1 rest (Double_declared st) eq_refl) as Hn.
    unfold Double_obstaclePassFrom in Hn.
    destruct (walk (Double_obstacleVisit env player) 1 rest (Double_declared st)).
    simpl in *. congruence. }
  split.
  - intros Hb. unfold Double_obstaclePassFrom in Ho. simpl walk in Ho.
    unfold Double_obstacleVisit at 1 in Ho. cbv zeta in Ho.
    rewrite Double_position_animate, Double_behind_animate, Hc, Hb in Ho.
    destruct (walk (Double_obstacleVisit env player) 1 rest st) as [r st1].
    simpl in Ho. eexists. exact Ho.
  - intros Hb.
    assert (Hsw : Double_swept (Double.position player) (Double.Monolith.speedRef st) o = true).
    { unfold Double_swept. rewrite Hc, Hb. reflexivity. }
    pose proof (Double_pass_swept env player [] o rest st eq_refl Hsw) as X.
    cbn [app] in X. rewrite X in Ho, Hs. cbv zeta in Ho, Hs.
    cbn [Double_obstaclePassFrom walk fst snd app length] in Ho, Hs.
    rewrite <- app_assoc in Ho. split; [exact Ho | exact Hs].
Qed.

Lemma Double_z_scrolled (s : float) o :
  Double.z (Double.position (Double_scrolled s o)) = (Double.z (Double.position o) - s)%float.
Proof. reflexivity. Qed.

(** While the obstacle at the head of the array is not behind the threshold
    it stays at the head, one subtraction further each frame. *)
Lemma Double_held_head_before (s : float) envs st0 o rest n :
  Double_executes st0 = true ->
  Double.Monolith.obstaclesRef st0 = o :: rest ->
  Double.Monolith.isPlayingRef (Double_heldFrames s envs n st0) = true ->
  (forall j, (j < n)%nat ->
     Double.Num.lt (scrolls s (S j) (Double.z (Double.position o))) (-20)%float = false) ->
  exists on restn,
    Double.Monolith.obstaclesRef (Double_heldFrames s envs n st0) = on :: restn
    /\ Double.z (Double.position on) = scrolls s n (Double.z (Double.position o))
    /\ Double.x (Double.position on) = Double.x (Double.position o).
Proof.
  intros Hex Hobs. induction n as [|n IH]; intros Hin Hbefore.
  - exists o, rest. simpl. auto.
  - pose proof (Double_held_playing_back s envs n st0 Hin) as Hn.
    destruct (IH Hn ltac:(intros j Hj; apply Hbefore; lia)) as (on & restn & Ho & Hz & Hx).
    pose proof (Double_held_executes s envs st0 n Hex Hn) as Hexn.
    set (stn := Double.Monolith.set_speedRef (Double_heldFrames s envs n st0) s).
    assert (Hexs : Double_executes stn = true) by exact Hexn.
    destruct (Double_executes_player stn Hexs) as [player Hp].
    assert (Hos : Double.Monolith.obstaclesRef stn = on :: restn) by exact Ho.
    destruct (Double_head_frame (envs n) stn player on restn Hexs Hp Hos Hin) as [Hkeep _].
    change (Double.Monolith.speedRef stn) with s in Hkeep.
    destruct Hkeep as [rest' Hr].
    { unfold Double_behind. rewrite Double_z_scrolled, Hz.
      exact (Hbefore n ltac:(lia)). }
    exists (Double.Monolith.animate (Double.Monolith.now (envs n) 0) (Double_scrolled s on)),
      rest'.
    split; [exact Hr|]. rewrite Double_position_animate.
    split; [rewrite Double_z_scrolled, Hz; reflexivity | exact Hx].
Qed.

(** The same for the logic module. *)
Lemma Double_Logic_held_playing_back (s : float) ps n st :
  Double.Logic.isPlayingRef (Double_Logic_heldFrames s ps (S n) st) = true ->
  Double.Logic.isPlayingRef (Double_Logic_heldFrames s ps n st) = true.
Proof.
  simpl. intros H.
  destruct (Double.Logic.isPlayingRef (Double_Logic_heldFrames s ps n st)) eqn:E;
    [reflexivity|].
  rewrite Double_Logic_gameLoop_idle in H.
  - simpl in H. congruence.
  - unfold Double_Logic_executes. simpl. rewrite E. reflexivity.
Qed.

Lemma Double_Logic_held_playing_le (s : float) ps n st : forall j,
  (j <= n)%nat ->
  Double.Logic.isPlayingRef (Double_Logic_heldFrames s ps n st) = true ->
  Double.Logic.isPlayingRef (Double_Logic_heldFrames s ps j st) = true.
Proof.
  induction n as [|n IH]; intros j Hj H.
  - replace j with 0%nat by lia. exact H.
  - destruct (Nat.eq_dec j (S n)) as [->|Hne]; [exact H|].
    apply IH; [lia|]. apply Double_Logic_held_playing_back. exact H.
Qed.

Lemma Double_Logic_executes_next ps st :
  Double_Logic_executes st = true ->
  Double.Logic.isPlayingRef (Double.Logic.gameLoop ps st) = true ->
  Double_Logic_executes (Double.Logic.gameLoop ps st) = true.
Proof.
  intros Hex Hin. destruct (Double_Logic_executes_split st Hex) as (Hplay & player & Hp).
  unfold Double_Logic_executes. rewrite Hin.
  rewrite (Double_Logic_frame_in_play ps st player Hplay Hp Hin). cbv zeta.
  match goal with
  | |- context [Double_cleanupPassFrom 0 ?l ?s] =>
      pose proof (Double_cleanupPass_same_frame 0 l s) as (_ & _ & _ & Hpl & _);
      destruct (Double_cleanupPassFrom 0 l s) as [r st3]
  end.
  cbn [fst snd] in *. simpl. rewrite Hpl. reflexivity.
Qed.

Lemma Double_Logic_held_executes (s : float) ps st n :
  Double_Logic_executes st = true ->
  Double.Logic.isPlayingRef (Double_Logic_heldFrames s ps n st) = true ->
  Double_Logic_executes (Double_Logic_heldFrames s ps n st) = true.
Proof.
  intros Hex. induction n as [|n IH]; intros H; [exact Hex|].
  pose proof (Double_Logic_held_playing_back s ps n st H) as Hn.
  specialize (IH Hn). simpl in *.
  apply Double_Logic_executes_next; [exact IH | exact H].
Qed.

Lemma Double_Logic_head_frame ps st o rest :
  Double_Logic_executes st = true ->
  Double.Logic.obstaclesRef st = o :: rest ->
  Double.Logic.isPlayingRef (Double.Logic.gameLoop ps st) = true ->
  let s := Double.Logic.speedRef st in
  Double.Logic.obstaclesRef (Double.Logic.gameLoop ps st) =
  if Double_behind (Double_scrolled s o)
  then firstn 1 (map (Double_scrolled s) rest) ++ Double_kept (tl (map (Double_scrolled s) rest))
  else Double_scrolled s o :: Double_kept (map (Double_scrolled s) rest).
Proof.
  intros Hex Hobs Hin. cbv zeta.
  destruct (Double_Logic_executes_split st Hex) as (Hplay & player & Hp).
  rewrite (Double_Logic_frame_in_play ps st player Hplay Hp Hin). cbv zeta.
  match goal with
  | |- context [Double_cleanupPassFrom 0 ?l ?s] =>
      pose proof (Double_cleanupPass_kept (length l) 0 l s ltac:(lia)) as Hk;
      destruct (Double_cleanupPassFrom 0 l s) as [r st3]
  end.
  cbn [fst snd] in *. simpl Double.Logic.obstaclesRef. rewrite Hk, Hobs. simpl.
  destruct (Double_behind _); [|reflexivity].
  destruct (map _ rest); reflexivity.
Qed.

Lemma Double_Logic_held_head_before (s : float) ps st0 o rest n :
  Double_Logic_executes st0 = true ->
  Double.Logic.obstaclesRef st0 = o :: rest ->
  Double.Logic.isPlayingRef (Double_Logic_heldFrames s ps n st0) = true ->
  (forall j, (j < n)%nat ->
     Double.Num.lt (scrolls s (S j) (Double.z (Double.position o))) (-20)%float = false) ->
  exists on restn,
    Double.Logic.obstaclesRef (Double_Logic_heldFrames s ps n st0) = on :: restn
    /\ Double.z (Double.position on) = scrolls s n (Double.z (Double.position o))
    /\ Double.x (Double.position on) = Double.x (Double.position o).
Proof.
  intros Hex Hobs. induction n as [|n IH]; intros Hin Hbefore.
  - exists o, rest. simpl. auto.
  - pose proof (Double_Logic_held_playing_back s ps n st0 Hin) as Hn.
    destruct (IH Hn ltac:(intros j Hj; apply Hbefore; lia)) as (on & restn & Ho & Hz & Hx).
    pose proof (Double_Logic_held_executes s ps st0 n Hex Hn) as Hexn.
    set (stn := Double.Logic.set_speedRef (Double_Logic_heldFrames s ps n st0) s).
    assert (Hexs : Double_Logic_executes stn = true) by exact Hexn.
    assert (Hos : Double.Logic.obstaclesRef stn = on :: restn) by exact Ho.
    pose proof (Double_Logic_head_frame ps stn on restn Hexs Hos Hin) as Hr.
    cbv zeta in Hr. change (Double.Logic.speedRef stn) with s in Hr.
    assert (Hb : Double_behind (Double_scrolled s on) = false).
    { unfold Double_behind. rewrite Double_z_scrolled, Hz. exact (Hbefore n ltac:(lia)). }
    rewrite Hb in Hr.
    exists (Double_scrolled s on), (Double_kept (map (Double_scrolled s) restn)).
    split; [exact Hr|].
    split; [rewrite Double_z_scrolled, Hz; reflexivity | exact Hx].
Qed.

(** At the top speed the loops hold the speed themselves. *)
Lemma Double_frame_top_speed env st :
  Double.Monolith.speedRef st = 0.5%float ->
  Double.Monolith.speedRef (Double.Monolith.gameLoop env st) = 0.5%float.
Proof.
  intros Hs. destruct (Double_executes st) eqn:Hex.
  - destruct (Double_executes_player st Hex) as [player Hp].
    rewrite (Double_gameLoop_executes env st player Hex Hp). cbv zeta. simpl.
    rewrite Hs. vm_compute. reflexivity.
  - rewrite (Double_gameLoop_idle env st Hex). exact Hs.
Qed.

Lemma Double_set_speed_id st :
  Double.Monolith.set_speedRef st (Double.Monolith.speedRef st) = st.
Proof. destruct st; reflexivity. Qed.

Lemma Double_held_top_speed envs n st :
  Double.Monolith.speedRef st = 0.5%float ->
  Double_heldFrames 0.5 envs n st = Double.Monolith.frames envs n st
  /\ Double.Monolith.speedRef (Double.Monolith.frames envs n st) = 0.5%float.
Proof.
  intros Hs. induction n as [|n [IH1 IH2]]; [split; [reflexivity | exact Hs]|].
  simpl. rewrite IH1. rewrite <- IH2 at 1. rewrite Double_set_speed_id.
  split; [reflexivity | apply Double_frame_top_speed; exact IH2].
Qed.

Lemma Double_Logic_frame_top_speed ps st :
  Double.Logic.speedRef st = 0.5%float ->
  Double.Logic.speedRef (Double.Logic.gameLoop ps st) = 0.5%float.
Proof.
  intros Hs. destruct (Double_Logic_executes st) eqn:Hex.
  - destruct (Double_Logic_executes_split st Hex) as (Hplay & player & Hp).
    rewrite (Double_Logic_gameLoop_executes ps st player Hplay Hp). cbv zeta.
    destruct (Double.Logic.checkCollisions _ _); [exact Hs|].
    match goal with
    | |- context [Double_cleanupPassFrom 0 ?l ?s] =>
        pose proof (Double_cleanupPass_same_frame 0 l s) as (Hv & _);
        destruct (Double_cleanupPassFrom 0 l s) as [r st3]
    end.
    cbn [fst snd] in *. simpl in *. rewrite Hv, Hs. vm_compute. reflexivity.
  - rewrite (Double_Logic_gameLoop_idle ps st Hex). exact Hs.
Qed.

Lemma Double_Logic_set_speed_id st :
  Double.Logic.set_speedRef st (Double.Logic.speedRef st) = st.
Proof. destruct st; reflexivity. Qed.

Lemma Double_Logic_held_top_speed ps n st :
  Double.Logic.speedRef st = 0.5%float ->
  Double_Logic_heldFrames 0.5 ps n st = Double.Logic.frames ps n st
  /\ Double.Logic.speedRef (Double.Logic.frames ps n st) = 0.5%float.
Proof.
  intros Hs. induction n as [|n [IH1 IH2]]; [split; [reflexivity | exact Hs]|].
  simpl. rewrite IH1. rewrite <- IH2 at 1. rewrite Double_Logic_set_speed_id.
  split; [reflexivity | apply Double_Logic_frame_top_speed; exact IH2].
Qed.

Lemma Double_frames_top_speed_from envs st (m n : nat) :
  Double.Monolith.speedRef (Double.Monolith.frames envs m st) = 0.5%float ->
  Double.Monolith.speedRef (Double.Monolith.frames envs (m + n) st) = 0.5%float.
Proof.
  intros H. induction n as [|n IH].
  - rewrite Nat.add_0_r. exact H.
  - rewrite Nat.add_succ_r. cbn [Double.Monolith.frames].
    apply Double_frame_top_speed. exact IH.
Qed.

(** C5, as the code has it.  The obstacle at the head of the array is
    visited by every pass.  With the speed held at [s] and the session in
    play, an obstacle that is at the head with position [P] stays at the
    head, at [P] less [s] subtracted once per frame in double arithmetic,
    for as long as that position is not below -20, and it is removed by the
    frame in which the position is first below -20: what follows that frame
    is made of the rest of the array and the spawn.  That frame is the one
    [removalFrame] computes; it is frame 241 for a spawn at 100 at speed
    0.5, where [claimedFrames] gives 240, and frames 600 and 250 at speeds
    0.2 and 0.48, where [claimedFrames] gives the same.  At the top speed
    0.5 the loops hold the speed themselves.  In any frame of the monolithic
    loop that runs, an obstacle the pass reaches and finds behind the
    threshold, without a collision, goes, and the score rises by 10 for
    every obstacle that leaves the array and by nothing else.  A frame of
    the logic module that stays in play keeps [Double_kept] of the scrolled
    array, counts every obstacle that leaves once, scores 10 for it and 50
    more whenever the count passes a multiple of 10. *)
Theorem removal_frame_in_doubles :
  (forall (s : float) envs st0 o rest fuel k,
      Double_executes st0 = true ->
      Double.Monolith.obstaclesRef st0 = o :: rest ->
      removalFrame s (Double.z (Double.position o)) fuel = Some (S k) ->
      Double.Monolith.isPlayingRef (Double_heldFrames s envs (S k) st0) = true ->
      (forall j, (j <= k)%nat ->
         exists oj restj,
           Double.Monolith.obstaclesRef (Double_heldFrames s envs j st0) = oj :: restj
           /\ Double.z (Double.position oj) = scrolls s j (Double.z (Double.position o))
           /\ Double.x (Double.position oj) = Double.x (Double.position o))
      /\ exists player ok restk,
           Double.Monolith.playerRef (Double_heldFrames s envs k st0) = Some player
           /\ Double.Monolith.obstaclesRef (Double_heldFrames s envs k st0) = ok :: restk
           /\ let w2 := Double_obstaclePassFrom (envs k) player 1 (tl restk)
                          (Double_scored10
                             (Double.Monolith.set_speedRef (Double_heldFrames s envs k st0) s)) in
              Double.Monolith.obstaclesRef (Double_heldFrames s envs (S k) st0) =
                firstn 1 restk ++ fst w2 ++ Double_spawned (envs k)
              /\ Double.Monolith.scoreRef (Double_heldFrames s envs (S k) st0) =
                 Double.Monolith.scoreRef (snd w2))
  /\ (forall (s : float) ps st0 o rest fuel k,
        Double_Logic_executes st0 = true ->
        Double.Logic.obstaclesRef st0 = o :: rest ->
        removalFrame s (Double.z (Double.position o)) fuel = Some (S k) ->
        Double.Logic.isPlayingRef (Double_Logic_heldFrames s ps (S k) st0) = true ->
        (forall j, (j <= k)%nat ->
           exists oj restj,
             Double.Logic.obstaclesRef (Double_Logic_heldFrames s ps j st0) = oj :: restj
             /\ Double.z (Double.position oj) = scrolls s j (Double.z (Double.position o))
             /\ Double.x (Double.position oj) = Double.x (Double.position o))
        /\ exists ok restk,
             Double.Logic.obstaclesRef (Double_Logic_heldFrames s ps k st0) = ok :: restk
             /\ Double.Logic.obstaclesRef (Double_Logic_heldFrames s ps (S k) st0) =
                firstn 1 (map (Double_scrolled s) restk)
                ++ Double_kept (tl (map (Double_scrolled s) restk)))
  /\ (forall (s P : float) fuel k,
        removalFrame s P fuel = Some k ->
        (1 <= k <= fuel)%nat
        /\ Double.Num.lt (scrolls s k P) (-20)%float = true
        /\ forall j, (1 <= j < k)%nat -> Double.Num.lt (scrolls s j P) (-20)%float = false)
  /\ (removalFrame 0.5 100 300 = Some 241%nat /\ claimedFrames 100 0.5 = 240%Z)
  /\ (removalFrame 0.2 100 700 = Some 600%nat /\ claimedFrames 100 0.2 = 600%Z)
  /\ (removalFrame 0.48 100 300 = Some 250%nat /\ claimedFrames 100 0.48 = 250%Z)
  /\ (forall envs n st,
        Double.Monolith.speedRef st = 0.5%float ->
        Double_heldFrames 0.5 envs n st = Double.Monolith.frames envs n st)
  /\ (forall ps n st,
        Double.Logic.speedRef st = 0.5%float ->
        Double_Logic_heldFrames 0.5 ps n st = Double.Logic.frames ps n st)
  /\ (forall env player pre a post st,
        reaches (Double_swept (Double.position player) (Double.Monolith.speedRef st)) pre = true ->
        Double_swept (Double.position player) (Double.Monolith.speedRef st) a = true ->
        Double_obstaclePassFrom env player 0 (pre ++ a :: post) st =
        let w1 := Double_obstaclePassFrom env player 0 pre st in
        let w2 := Double_obstaclePassFrom env player (S (length (fst w1))) (tl post)
                    (Double_scored10 (snd w1)) in
        (fst w1 ++ firstn 1 post ++ fst w2, snd w2))
  /\ (forall env st player,
        Double_executes st = true ->
        Double.Monolith.playerRef st = Some player ->
        let w := Double_obstaclePassFrom env player 0 (Double.Monolith.obstaclesRef st) st in
        Double.Monolith.obstaclesRef (Double.Monolith.gameLoop env st) =
          fst w ++ Double_spawned env
        /\ Double.Monolith.scoreRef (Double.Monolith.gameLoop env st) =
           Double.Monolith.scoreRef (snd w)
        /\ Double.Monolith.isPlayingRef (Double.Monolith.gameLoop env st) =
           Double.Monolith.isPlayingRef (snd w))
  /\ (forall env st,
        Double_executes st = true ->
        Double.Monolith.scoreRef (Double.Monolith.gameLoop env st) =
        (Double.Monolith.scoreRef st
         + 10 * (Z.of_nat (length (Double.Monolith.obstaclesRef st))
                 + Z.of_nat (length (Double_spawned env))
                 - Z.of_nat (length (Double.Monolith.obstaclesRef
                                       (Double.Monolith.gameLoop env st)))))%Z)
  /\ (forall ps st,
        Double_Logic_executes st = true ->
        Double.Logic.isPlayingRef (Double.Logic.gameLoop ps st) = true ->
        (0 <= Double.Logic.perfectRunRef st)%Z ->
        let st' := Double.Logic.gameLoop ps st in
        let removed := (Z.of_nat (length (Double.Logic.obstaclesRef st))
                        - Z.of_nat (length (Double.Logic.obstaclesRef st')))%Z in
        Double.Logic.obstaclesRef st' =
          Double_kept (map (Double_scrolled (Double.Logic.speedRef st))
                         (Double.Logic.obstaclesRef st))
        /\ (0 <= removed)%Z
        /\ Double.Logic.perfectRunRef st' = (Double.Logic.perfectRunRef st + removed)%Z
        /\ Double.Logic.scoreRef st' =
           (Double.Logic.scoreRef st + 10 * removed
            + 50 * (Double.Logic.perfectRunRef st' / 10
                    - Double.Logic.perfectRunRef st / 10))%Z).
Proof.
  assert (Hspec : forall (s P : float) fuel k,
        removalFrame s P fuel = Some k ->
        (1 <= k <= fuel)%nat
        /\ Double.Num.lt (scrolls s k P) (-20)%float = true
        /\ forall j, (1 <= j < k)%nat -> Double.Num.lt (scrolls s j P) (-20)%float = false).
  { intros s P fuel k H. unfold removalFrame in H.
    destruct (firstBehind_spec s fuel 0 P k H) as (d & -> & Hd & Hlt & Hbefore).
    simpl. split; [lia|]. split; [exact Hlt|].
    intros j Hj. destruct j as [|j]; [lia|]. apply Hbefore. lia. }
  split.
  { intros s envs st0 o rest fuel k Hex Hobs Hrem Hin.
    destruct (Hspec _ _ _ _ Hrem) as (_ & Hlt & Hbefore).
    pose proof (Double_held_playing_back s envs k st0 Hin) as Hk.
    assert (Hhead : forall j, (j <= k)%nat ->
              exists oj restj,
                Double.Monolith.obstaclesRef (Double_heldFrames s envs j st0) = oj :: restj
                /\ Double.z (Double.position oj) = scrolls s j (Double.z (Double.position o))
                /\ Double.x (Double.position oj) = Double.x (Double.position o)).
    { intros j Hj.
      apply (Double_held_head_before s envs st0 o rest j Hex Hobs).
      - apply (Double_held_playing_le s envs k st0 j Hj Hk).
      - intros i Hi. apply Hbefore. lia. }
    split; [exact Hhead|].
    destruct (Hhead k ltac:(lia)) as (ok & restk & Ho & Hz & _).
    pose proof (Double_held_executes s envs st0 k Hex Hk) as Hexk.
    set (stk := Double.Monolith.set_speedRef (Double_heldFrames s envs k st0) s).
    assert (Hexs : Double_executes stk = true) by exact Hexk.
    destruct (Double_executes_player stk Hexs) as [player Hp].
    assert (Hos : Double.Monolith.obstaclesRef stk = ok :: restk) by exact Ho.
    destruct (Double_head_frame (envs k) stk player ok restk Hexs Hp Hos Hin) as [_ Hgo].
    change (Double.Monolith.speedRef stk) with s in Hgo.
    exists player, ok, restk. split; [exact Hp|]. split; [exact Ho|].
    apply Hgo. unfold Double_behind. rewrite Double_z_scrolled, Hz. exact Hlt. }
  split.
  { intros s ps st0 o rest fuel k Hex Hobs Hrem Hin.
    destruct (Hspec _ _ _ _ Hrem) as (_ & Hlt & Hbefore).
    pose proof (Double_Logic_held_playing_back s ps k st0 Hin) as Hk.
    assert (Hhead : forall j, (j <= k)%nat ->
              exists oj restj,
                Double.Logic.obstaclesRef (Double_Logic_heldFrames s ps j st0) = oj :: restj
                /\ Double.z (Double.position oj) = scrolls s j (Double.z (Double.position o))
                /\ Double.x (Double.position oj) = Double.x (Double.position o)).
    { intros j Hj.
      apply (Double_Logic_held_head_before s ps st0 o rest j Hex Hobs).
      - apply (Double_Logic_held_playing_le s ps k st0 j Hj Hk).
      - intros i Hi. apply Hbefore. lia. }
    split; [exact Hhead|].
    destruct (Hhead k ltac:(lia)) as (ok & restk & Ho & Hz & _).
    pose proof (Double_Logic_held_executes s ps st0 k Hex Hk) as Hexk.
    set (stk := Double.Logic.set_speedRef (Double_Logic_heldFrames s ps k st0) s).
    assert (Hexs : Double_Logic_executes stk = true) by exact Hexk.
    assert (Hos : Double.Logic.obstaclesRef stk = ok :: restk) by exact Ho.
    pose proof (Double_Logic_head_frame ps stk ok restk Hexs Hos Hin) as Hr.
    cbv zeta in Hr. change (Double.Logic.speedRef stk) with s in Hr.
    assert (Hb : Double_behind (Double_scrolled s ok) = true).
    { unfold Double_behind. rewrite Double_z_scrolled, Hz. exact Hlt. }
    rewrite Hb in Hr.
    exists ok, restk. split; [exact Ho | exact Hr]. }
  split; [exact Hspec|].
  split; [split; vm_compute; reflexivity|].
  split; [split; vm_compute; reflexivity|].
  split; [split; vm_compute; reflexivity|].
  split; [intros envs n st Hs; apply (Double_held_top_speed envs n st Hs)|].
  split; [intros ps n st Hs; apply (Double_Logic_held_top_speed ps n st Hs)|].
  split; [exact Double_pass_swept|].
  split; [exact Double_frame_pass|].
  split; [exact Double_frame_count|].
  exact Double_Logic_frame_count.
Qed.

Lemma removal_frame_in_doubles_witness :
  Double_executes Double_near_scene = true
  /\ removalFrame 0.5 (-19) 5 = Some 3%nat
  /\ Double.Monolith.isPlayingRef (Double_heldFrames 0.5 Double_calm 3 Double_near_scene) = true
  /\ (forall j, (j <= 2)%nat ->
        exists oj restj,
          Double.Monolith.obstaclesRef (Double_heldFrames 0.5 Double_calm j Double_near_scene)
          = oj :: restj
          /\ Double.z (Double.position oj) = scrolls 0.5 j (-19)
          /\ Double.x (Double.position oj) = 2%float)
  /\ Double_Logic_executes Double_Logic_near_scene = true
  /\ Double.Logic.isPlayingRef
       (Double_Logic_heldFrames 0.5 Double_grounded 3 Double_Logic_near_scene) = true
  /\ (forall j, (j <= 2)%nat ->
        exists oj restj,
          Double.Logic.obstaclesRef
            (Double_Logic_heldFrames 0.5 Double_grounded j Double_Logic_near_scene)
          = oj :: restj
          /\ Double.z (Double.position oj) = scrolls 0.5 j (-19)
          /\ Double.x (Double.position oj) = 2%float).
Proof.
  pose proof removal_frame_in_doubles as (H1 & H2 & _).
  assert (E1 : Double_executes Double_near_scene = true) by (vm_compute; reflexivity).
  assert (R : removalFrame 0.5 (-19) 5 = Some 3%nat) by (vm_compute; reflexivity).
  assert (I1 : Double.Monolith.isPlayingRef
                 (Double_heldFrames 0.5 Double_calm 3 Double_near_scene) = true)
    by (vm_compute; reflexivity).
  assert (E2 : Double_Logic_executes Double_Logic_near_scene = true)
    by (vm_compute; reflexivity).
  assert (I2 : Double.Logic.isPlayingRef
                 (Double_Logic_heldFrames 0.5 Double_grounded 3 Double_Logic_near_scene)
               = true) by (vm_compute; reflexivity).
  split; [exact E1|]. split; [exact R|]. split; [exact I1|].
  split.
  { exact (proj1 (H1 0.5%float Double_calm Double_near_scene
                    (Double.CreateBox (Double.mkVector3 2 0.5 (-19)))
                    [Double.CreateBox (Double.mkVector3 (-2) 0.5 30)]
                    5%nat 2%nat E1 eq_refl R I1)). }
  split; [exact E2|]. split; [exact I2|].
  exact (proj1 (H2 0.5%float Double_grounded Double_Logic_near_scene
                  (Double.CreateBox (Double.mkVector3 2 0.5 (-19)))
                  [Double.CreateBox (Double.mkVector3 (-2) 0.5 30)]
                  5%nat 2%nat E2 eq_refl R I2)).
Defined.

(** The frame count claimed for C5 is one short at the top speed, the only
    speed the loop itself holds.  From the frame after the speed has reached
    0.5 it stays there.  An obstacle spawned at 100 by frame 3002 of a
    session stands at exactly -20 after 240 more frames, where
    [claimedFrames] has it removed, and is still active with no score; the
    241st removes it and scores 10.  And an obstacle that is not at the head
    leaves later still: of two obstacles spawned by frames 3002 and 3003,
    the second is passed over in the frame that removes the first, stands at
    -20 after 241 frames of its own, and goes in its 242nd. *)
Lemma removal_takes_241_frames_in_doubles :
  let run := fun n => Double.Monolith.frames Double_late_envs n Double_fresh in
  let pair := fun n => Double.Monolith.frames Double_pair_envs n Double_fresh in
  Double.Monolith.obstaclesRef (run 3001%nat) = []
  /\ (forall n, Double.Monolith.speedRef (run (3001 + n)%nat) = 0.5%float)
  /\ Double.Monolith.obstaclesRef (run 3002%nat) =
     [Double.mkMesh (Double.mkVector3 2 0.5 100) (Double.mkVector3 0.1 0.1 0.1)
        (Some 49016%float)]
  /\ claimedFrames 100 0.5 = 240%Z
  /\ Double_zs (Double.Monolith.obstaclesRef (run (3002 + 240)%nat)) = [(-20)%float]
  /\ Double.Monolith.scoreRef (run (3002 + 240)%nat) = 0%Z
  /\ Double.Monolith.isPlayingRef (run (3002 + 240)%nat) = true
  /\ Double.Monolith.obstaclesRef (run (3002 + 241)%nat) = []
  /\ Double.Monolith.scoreRef (run (3002 + 241)%nat) = 10%Z
  /\ Double_zs (Double.Monolith.obstaclesRef (pair 3002%nat)) = [100%float]
  /\ Double_zs (Double.Monolith.obstaclesRef (pair 3003%nat)) = [99.5%float; 100%float]
  /\ Double_zs (Double.Monolith.obstaclesRef (pair (3002 + 240)%nat)) =
     [(-20)%float; (-19.5)%float]
  /\ Double_zs (Double.Monolith.obstaclesRef (pair (3002 + 241)%nat)) = [(-19.5)%float]
  /\ Double.Monolith.scoreRef (pair (3002 + 241)%nat) = 10%Z
  /\ Double_zs (Double.Monolith.obstaclesRef (pair (3003 + 241)%nat)) = [(-20)%float]
  /\ Double.Monolith.scoreRef (pair (3003 + 241)%nat) = 10%Z
  /\ Double.Monolith.obstaclesRef (pair (3003 + 242)%nat) = []
  /\ Double.Monolith.scoreRef (pair (3003 + 242)%nat) = 20%Z.
Proof.
  cbv zeta.
  split; [vm_compute; reflexivity|].
  split.
  { intros n. apply Double_frames_top_speed_from. vm_compute. reflexivity. }
  repeat apply conj; vm_compute; reflexivity.
Qed.

(** * Further properties of the code *)

Lemma executes_player st :
  executes st = true -> exists player, Monolith.playerRef st = Some player.
Proof.
  unfold executes. intros H. destruct (Monolith.playerRef st) as [p|].
  - exists p. reflexivity.
  - rewrite andb_false_r in H. discriminate.
Qed.

Lemma executes_playing st : executes st = true -> Monolith.isPlayingRef st = true.
Proof.
  unfold executes. intros H.
  apply andb_true_iff in H as [H _]. apply andb_true_iff in H as [H _]. exact H.
Qed.


(** ** The monolithic loop: what a frame does to the score and the obstacles *)

Lemma obstacleVisit_score env player a k st :
  Monolith.scoreRef (snd (obstacleVisit env player a k st)) =
  (Monolith.scoreRef st
   + match fst (obstacleVisit env player a k st) with Some _ => 0 | None => 10 end)%Z.
Proof.
  unfold obstacleVisit.
  destruct (Monolith.collides _ _); [simpl; lia|].
  destruct (behind _); simpl; lia.
Qed.

Lemma obstaclePass_count env player st :
  (Monolith.scoreRef (snd (obstaclePass env player st))
   + 10 * Z.of_nat (length (fst (obstaclePass env player st)))
   = Monolith.scoreRef st + 10 * Z.of_nat (length (Monolith.obstaclesRef st)))%Z.
Proof.
  unfold obstaclePass.
  apply (walk_count (obstacleVisit env player) Monolith.scoreRef 10
           (obstacleVisit_score env player) (length (Monolith.obstaclesRef st))).
  lia.
Qed.

Lemma frame_count env st :
  executes st = true ->
  (Monolith.scoreRef (Monolith.gameLoop env st)
   + 10 * Z.of_nat (length (Monolith.obstaclesRef (Monolith.gameLoop env st)))
   = Monolith.scoreRef st
     + 10 * Z.of_nat (length (Monolith.obstaclesRef st) + length (spawned env)))%Z.
Proof.
  intros Hex. destruct (executes_player st Hex) as [player Hp].
  rewrite (gameLoop_executes env st player Hex Hp).
  cbn [Monolith.scoreRef Monolith.obstaclesRef].
  pose proof (obstaclePass_count env player st) as H.
  rewrite length_app. lia.
Qed.

Lemma frames_count envs n st :
  (Monolith.scoreRef (Monolith.frames envs n st)
   + 10 * Z.of_nat (length (Monolith.obstaclesRef (Monolith.frames envs n st)))
   = Monolith.scoreRef st
     + 10 * Z.of_nat (length (Monolith.obstaclesRef st) + spawns envs n st))%Z.
Proof.
  induction n as [|n IH]; [simpl; f_equal; f_equal; lia|].
  cbn [Monolith.frames spawns].
  destruct (executes (Monolith.frames envs n st)) eqn:Hex.
  - rewrite frame_count by exact Hex. lia.
  - rewrite gameLoop_idle by exact Hex. lia.
Qed.

Lemma obstacleVisit_score_mono env player (s0 : Z) a k st :
  (s0 <= Monolith.scoreRef st)%Z ->
  (s0 <= Monolith.scoreRef (snd (obstacleVisit env player a k st)))%Z.
Proof. intros H. rewrite obstacleVisit_score. destruct (fst _); lia. Qed.

Lemma frame_score_mono env st :
  (Monolith.scoreRef st <= Monolith.scoreRef (Monolith.gameLoop env st))%Z.
Proof.
  destruct (executes st) eqn:Hex.
  - destruct (executes_player st Hex) as [player Hp].
    rewrite (gameLoop_executes env st player Hex Hp). cbn [Monolith.scoreRef].
    unfold obstaclePass.
    apply (walk_keeps (obstacleVisit env player)
             (fun s => (Monolith.scoreRef st <= Monolith.scoreRef s)%Z)
             (obstacleVisit_score_mono env player (Monolith.scoreRef st))
             (length (Monolith.obstaclesRef st))); lia.
  - rewrite gameLoop_idle by exact Hex. lia.
Qed.

Lemma frames_score_mono envs n st :
  (Monolith.scoreRef st <= Monolith.scoreRef (Monolith.frames envs n st))%Z.
Proof.
  induction n as [|n IH]; [simpl; lia|].
  cbn [Monolith.frames].
  pose proof (frame_score_mono (envs n) (Monolith.frames envs n st)). lia.
Qed.

(** The score of the monolithic loop is ten times the number of obstacles
    that have left.  A frame that runs keeps [score + 10 * active obstacles]
    unchanged but for the obstacle it spawns; so through any number of frames
    of a session, the score is ten for every obstacle spawned since the start
    that is no longer in the array, whatever the frames removed, skipped or
    collided with. *)
Theorem score_counts_departed_obstacles :
  (forall env st,
      executes st = true ->
      (Monolith.scoreRef (Monolith.gameLoop env st)
       + 10 * Z.of_nat (length (Monolith.obstaclesRef (Monolith.gameLoop env st)))
       = Monolith.scoreRef st
         + 10 * Z.of_nat (length (Monolith.obstaclesRef st) + length (spawned env)))%Z)
  /\ (forall envs n st0,
        let st := Monolith.frames envs n (Monolith.startGame st0) in
        (length (Monolith.obstaclesRef st) <= spawns envs n (Monolith.startGame st0))%nat
        /\ Monolith.scoreRef st =
           (10 * Z.of_nat (spawns envs n (Monolith.startGame st0)
                           - length (Monolith.obstaclesRef st)))%Z).
Proof.
  split; [exact frame_count|].
  intros envs n st0 st.
  pose proof (frames_count envs n (Monolith.startGame st0)) as H. fold st in H.
  assert (H0 : Monolith.scoreRef (Monolith.startGame st0) = 0%Z
               /\ Monolith.obstaclesRef (Monolith.startGame st0) = []).
  { unfold Monolith.startGame. simpl. destruct (Monolith.playerRef st0); split; reflexivity. }
  destruct H0 as [H1 H2]. rewrite H1, H2 in H. cbn [length] in H.
  assert (Hs : (0 <= Monolith.scoreRef st)%Z).
  { pose proof (frames_score_mono envs n (Monolith.startGame st0)) as Hm.
    fold st in Hm. lia. }
  split; lia.
Qed.

(** At [skip_scene] the frame removes one of the two obstacles and scores
    10 for it. *)
Lemma score_counts_departed_obstacles_witness :
  executes skip_scene = true
  /\ (Monolith.scoreRef (Monolith.gameLoop quiet skip_scene)
      + 10 * Z.of_nat (length (Monolith.obstaclesRef (Monolith.gameLoop quiet skip_scene)))
      = 0 + 10 * Z.of_nat (2 + 0))%Z.
Proof.
  split; [reflexivity|].
  exact (proj1 score_counts_departed_obstacles quiet skip_scene eq_refl).
Defined.

(** ** After the collision *)

Lemma obstacleVisit_down env player a k st :
  (Monolith.isPlayingRef st = false ->
   Monolith.isPlaying (Monolith.gameState st) = false
   /\ Monolith.isGameOver (Monolith.gameState st) = true) ->
  Monolith.isPlayingRef (snd (obstacleVisit env player a k st)) = false ->
  Monolith.isPlaying (Monolith.gameState (snd (obstacleVisit env player a k st))) = false
  /\ Monolith.isGameOver (Monolith.gameState (snd (obstacleVisit env player a k st))) = true.
Proof.
  unfold obstacleVisit. intros H.
  destruct (Monolith.collides _ _); [intros _; split; reflexivity|].
  destruct (behind _); exact H.
Qed.

(** A state in which the loop's flag and the overlay's are both down. *)
Lemma frozen_step a st :
  inert a ->
  Monolith.isPlayingRef st = false ->
  Monolith.isPlaying (Monolith.gameState st) = false ->
  Monolith.step a st = st.
Proof.
  intros Ha Href Hgs. destruct a as [canvas|env| | |k]; simpl; try destruct Ha.
  - apply gameLoop_idle. unfold executes. rewrite Href. reflexivity.
  - unfold Monolith.handleKeyDown. rewrite Hgs. reflexivity.
Qed.

Lemma frozen_run acts : forall st,
  Forall inert acts ->
  Monolith.isPlayingRef st = false ->
  Monolith.isPlaying (Monolith.gameState st) = false ->
  Monolith.run acts st = st.
Proof.
  unfold Monolith.run.
  induction acts as [|a acts IH]; intros st Hf Href Hgs; simpl; [reflexivity|].
  inversion Hf as [|a' acts' Ha Hacts]; subst.
  rewrite (frozen_step a st Ha Href Hgs). apply IH; assumption.
Qed.

(** Game over is final.  A frame of a session in play that declares a
    collision leaves the overlay on the game-over panel, and from then on
    neither frames nor key presses change anything at all: only the start
    and reset buttons (or a mount) do. *)
Theorem game_over_is_absorbing
    (env : Monolith.Frame) (st : Monolith.State) (acts : list Monolith.Action) :
  executes st = true ->
  Monolith.isPlayingRef (Monolith.gameLoop env st) = false ->
  Forall inert acts ->
  let st' := Monolith.gameLoop env st in
  Monolith.isGameOver (Monolith.gameState st') = true
  /\ Monolith.isPlaying (Monolith.gameState st') = false
  /\ Monolith.run acts st' = st'.
Proof.
  intros Hex Hend Hf st'.
  destruct (executes_player st Hex) as [player Hp].
  assert (H : Monolith.isPlaying (Monolith.gameState st') = false
              /\ Monolith.isGameOver (Monolith.gameState st') = true).
  { revert Hend. unfold st'. rewrite (gameLoop_executes env st player Hex Hp).
    cbn [Monolith.isPlayingRef Monolith.gameState Monolith.with_speed
         Monolith.isPlaying Monolith.isGameOver].
    unfold obstaclePass.
    apply (walk_keeps (obstacleVisit env player)
             (fun s => Monolith.isPlayingRef s = false ->
                       Monolith.isPlaying (Monolith.gameState s) = false
                       /\ Monolith.isGameOver (Monolith.gameState s) = true)
             (obstacleVisit_down env player) (length (Monolith.obstaclesRef st)));
      [lia|].
    intros E. apply executes_playing in Hex. congruence. }
  destruct H as [Hp' Hg]. repeat split; try assumption.
  apply frozen_run; assumption.
Qed.

(** The collision frame at [bump_scene], followed by a frame and a press of
    the jump key. *)
Lemma game_over_is_absorbing_witness :
  let st' := Monolith.gameLoop quiet bump_scene in
  Monolith.isGameOver (Monolith.gameState st') = true
  /\ Monolith.isPlaying (Monolith.gameState st') = false
  /\ Monolith.run [Monolith.Tick quiet; Monolith.Press Monolith.Jump] st' = st'.
Proof.
  apply (game_over_is_absorbing quiet bump_scene
           [Monolith.Tick quiet; Monolith.Press Monolith.Jump]).
  - reflexivity.
  - vm_compute. reflexivity.
  - repeat constructor.
Defined.


(** ** What the overlay shows *)

Lemma obstacleVisit_shown env player a k st :
  shown_in_pass st -> shown_in_pass (snd (obstacleVisit env player a k st)).
Proof.
  unfold obstacleVisit. intros H.
  destruct (Monolith.collides _ _).
  - destruct H as (_ & _ & _ & Hs). unfold shown_in_pass. simpl.
    repeat split; auto.
  - destruct (behind _); [|exact H].
    destruct H as (H1 & H2 & H3 & Hs). unfold shown_in_pass. simpl.
    repeat split; auto.
Qed.

Lemma frame_shown env st : shown_right st -> shown_right (Monolith.gameLoop env st).
Proof.
  intros H. destruct (executes st) eqn:Hex; [|rewrite gameLoop_idle by exact Hex; exact H].
  destruct H as (Href & Hnb & Hsess & _).
  destruct (executes_player st Hex) as [player Hp].
  pose proof (executes_playing st Hex) as Hplay.
  assert (Hpass : shown_in_pass st).
  { unfold shown_in_pass. cbv zeta. rewrite <- Href, Hplay.
    repeat split; auto.
    - rewrite <- Href, Hplay in Hnb. exact Hnb.
    - apply Hsess. left. rewrite <- Href. exact Hplay. }
  assert (Hw : shown_in_pass (snd (obstaclePass env player st))).
  { unfold obstaclePass.
    apply (walk_keeps (obstacleVisit env player) shown_in_pass
             (obstacleVisit_shown env player) (length (Monolith.obstaclesRef st)));
      [lia | exact Hpass]. }
  rewrite (gameLoop_executes env st player Hex Hp).
  destruct Hw as (W1 & W2 & W3 & W4).
  unfold shown_right.
  cbn [Monolith.gameState Monolith.isPlayingRef Monolith.scoreRef Monolith.speedRef
       Monolith.with_speed Monolith.isPlaying Monolith.isGameOver Monolith.score
       Monolith.speed].
  repeat apply conj; try assumption.
  - intros _. split; [exact W4 | reflexivity].
  - intros E1 E2. destruct W3; congruence.
Qed.

Lemma dispatch_shown e st : shown_right st -> shown_right (Component.dispatch e st).
Proof.
  intros H. destruct e as [env|key|b]; cbn [Component.dispatch].
  - apply frame_shown, H.
  - unfold Monolith.handleKeyDown.
    destruct (negb _); [exact H|].
    destruct (Component.keyOf key); try exact H.
    destruct (negb _); exact H.
  - destruct (Component.offered b (Monolith.gameState st)) eqn:Hoff; [|exact H].
    destruct H as (Href & Hnb & Hsess & Hmenu).
    unfold Component.offered, Component.render in Hoff.
    destruct b; cbn [Component.onClick].
    + unfold Monolith.startGame, shown_right. simpl.
      destruct (Monolith.playerRef st); simpl;
        repeat apply conj; try reflexivity; try discriminate; auto.
    + unfold Monolith.startGame, shown_right. simpl.
      destruct (Monolith.playerRef st); simpl;
        repeat apply conj; try reflexivity; try discriminate; auto.
    + destruct (Monolith.isPlaying (Monolith.gameState st)) eqn:E1;
        destruct (Monolith.isGameOver (Monolith.gameState st)) eqn:E2;
        try discriminate Hoff; try discriminate Hnb.
      unfold Monolith.resetGame, shown_right. simpl.
      repeat apply conj; try reflexivity; auto.
      intros [E|E]; discriminate E.
Qed.

Lemma play_shown events : forall st,
  shown_right st -> shown_right (Component.play events st).
Proof.
  unfold Component.play.
  induction events as [|e events IH]; intros st H; simpl; [exact H|].
  apply IH, dispatch_shown, H.
Qed.

Lemma mounted_shown : shown_right Component.mounted.
Proof.
  unfold shown_right. cbv zeta.
  change (Monolith.gameState Component.mounted)
    with (Monolith.mkGameState false false 0 0.2).
  cbn [Monolith.isPlaying Monolith.isGameOver Monolith.score Monolith.speed].
  split; [reflexivity|]. split; [reflexivity|].
  split; [intros [E|E]; discriminate E|].
  intros _ _; split; reflexivity.
Qed.

(** The overlay follows the session.  In every state the mounted component
    reaches through frames, key presses and clicks on the buttons its panels
    offer: the overlay is the score read-out, the speed read-out and exactly
    one panel, the controls hint while playing, the game-over panel after a
    collision, the start screen otherwise; the loop's own flag agrees with
    the displayed one; while playing and on the game-over panel the
    displayed score and speed are those of the loop; the start screen shows
    score 0 and speed 0.2.  The overlay module's [GameUI] picks its panel by
    the same conditions. *)
Theorem overlay_follows_the_session (events : list Component.Event) :
  let st := Component.play events Component.mounted in
  let g := Monolith.gameState st in
  Component.render g =
    [Component.ScoreDisplay (Monolith.score g);
     Component.SpeedDisplay (Monolith.speed g);
     if Monolith.isPlaying g then Component.ControlsInfo
     else if Monolith.isGameOver g
          then Component.GameOverScreen (Monolith.score g) (Monolith.speed g)
          else Component.StartScreen]
  /\ (forall level,
        GameUI.GameUI (GameUI.mkProps (Monolith.isPlaying g) (Monolith.isGameOver g)
                         (Monolith.score g) (Monolith.speed g) level) =
        [GameUI.GameHUD;
         if Monolith.isPlaying g then GameUI.ControlsHint
         else if Monolith.isGameOver g then GameUI.GameOverScreen
              else GameUI.StartScreen])
  /\ Monolith.isPlaying g && Monolith.isGameOver g = false
  /\ Monolith.isPlayingRef st = Monolith.isPlaying g
  /\ (Monolith.isPlaying g = true \/ Monolith.isGameOver g = true ->
      Monolith.score g = Monolith.scoreRef st
      /\ Monolith.speed g = Monolith.speedRef st)
  /\ (Monolith.isPlaying g = false -> Monolith.isGameOver g = false ->
      Monolith.score g = 0%Z /\ Monolith.speed g = 0.2).
Proof.
  intros st g.
  destruct (play_shown events Component.mounted mounted_shown)
    as (Href & Hnb & Hsess & Hmenu).
  fold st in Href, Hnb, Hsess, Hmenu. fold g in Href, Hnb, Hsess, Hmenu.
  repeat apply conj; try assumption.
  - unfold Component.render.
    destruct (Monolith.isPlaying g), (Monolith.isGameOver g);
      try discriminate Hnb; reflexivity.
  - intros level. unfold GameUI.GameUI. cbn [GameUI.isPlaying GameUI.isGameOver].
    destruct (Monolith.isPlaying g), (Monolith.isGameOver g);
      try discriminate Hnb; reflexivity.
Qed.

(** ** What the logic module tells its caller *)

Lemma lastScore_app d cs1 cs2 :
  lastScore d (cs1 ++ cs2) = lastScore (lastScore d cs1) cs2.
Proof.
  revert d. induction cs1 as [|[|s v] cs1 IH]; intros d; simpl; auto.
Qed.

Lemma gameOvers_app cs1 cs2 :
  gameOvers (cs1 ++ cs2) = (gameOvers cs1 + gameOvers cs2)%nat.
Proof.
  induction cs1 as [|[|s v] cs1 IH]; simpl; auto.
Qed.

(** The calls of a cleanup pass: score updates only, the last of which
    carries the score the pass ends with. *)
Lemma cleanupObstacles_calls st :
  exists new,
    Logic.calls (Logic.cleanupObstacles st) = Logic.calls st ++ new
    /\ lastScore (Logic.scoreRef st) new = Logic.scoreRef (Logic.cleanupObstacles st)
    /\ gameOvers new = 0%nat
    /\ Logic.isPlayingRef (Logic.cleanupObstacles st) = Logic.isPlayingRef st.
Proof.
  unfold Logic.cleanupObstacles.
  apply (forEach_keeps Logic.obstaclesRef Logic.cleanupStep
           (fun s => exists new,
                Logic.calls s = Logic.calls st ++ new
                /\ lastScore (Logic.scoreRef st) new = Logic.scoreRef s
                /\ gameOvers new = 0%nat
                /\ Logic.isPlayingRef s = Logic.isPlayingRef st)).
  - intros a k s (new & Hc & Hl & Hg & Hp).
    unfold Logic.cleanupStep. destruct (Num.lt _ _); [|exists new; auto].
    cbv zeta.
    match goal with
    | |- context [Logic.call ?s4 (Logic.onScoreUpdate ?sc ?sp)] =>
        exists (new ++ [Logic.onScoreUpdate sc sp])
    end.
    destruct (Z.eqb _ _); simpl; rewrite Hc, <- app_assoc;
      rewrite lastScore_app, gameOvers_app, Hg; simpl; auto.
  - exists []. rewrite app_nil_r. auto.
Qed.

Lemma frame_reported ps st : exists new, reported st (Logic.gameLoop ps st) new.
Proof.
  unfold reported.
  destruct (Logic.isPlayingRef st) eqn:Hplay.
  2:{ exists []. rewrite Logic_gameLoop_idle by (left; exact Hplay).
      rewrite app_nil_r, Hplay. simpl. repeat split; auto; discriminate. }
  destruct (Logic.playerRef st) as [player|] eqn:Hp.
  2:{ exists []. rewrite Logic_gameLoop_idle by (right; exact Hp).
      rewrite app_nil_r, Hplay. simpl. repeat split; auto; discriminate. }
  rewrite (Logic_gameLoop_executes ps st player Hplay Hp). cbv zeta.
  rewrite Logic_moveWorld.
  destruct (Logic.checkCollisions _ _).
  - exists [Logic.onGameOver]. simpl. repeat split; auto; try discriminate.
    intros _ _. exists []. reflexivity.
  - match goal with
    | |- context [Logic.cleanupObstacles ?s2] =>
        destruct (cleanupObstacles_calls s2) as (new & Hc & Hl & Hg & Hpl)
    end.
    exists new.
    cbn [Logic.calls Logic.scoreRef Logic.isPlayingRef Logic.set_playerRef
         Logic.set_obstaclesRef Logic.set_groundRef] in Hc, Hl, Hpl.
    cbn [Logic.set_animationRef Logic.updateDifficulty Logic.set_speedRef
         Logic.calls Logic.scoreRef Logic.isPlayingRef].
    rewrite Hc, Hl, Hg, Hpl. simpl. rewrite Hplay.
    repeat split; auto; discriminate.
Qed.

Lemma reported_trans st0 st1 st2 new1 new2 :
  reported st0 st1 new1 -> reported st1 st2 new2 -> reported st0 st2 (new1 ++ new2).
Proof.
  intros (C1 & L1 & G1 & I1 & E1) (C2 & L2 & G2 & I2 & E2). unfold reported.
  rewrite C2, C1, <- app_assoc, lastScore_app, L1, L2, gameOvers_app, G1, G2.
  split; [reflexivity|]. split; [reflexivity|].
  destruct (Logic.isPlayingRef st0) eqn:P0.
  - destruct (Logic.isPlayingRef st1) eqn:P1.
    + destruct (Logic.isPlayingRef st2) eqn:P2; simpl.
      * repeat split; auto; discriminate.
      * repeat split; auto; try discriminate.
        intros _ _. destruct (E2 eq_refl eq_refl) as [pre Hpre].
        exists (new1 ++ pre). rewrite Hpre, app_assoc. reflexivity.
    + destruct (I2 eq_refl) as [-> P2]. rewrite P2. simpl.
      repeat split; auto; try discriminate.
      intros _ _. rewrite app_nil_r. apply E1; reflexivity.
  - destruct (I1 eq_refl) as [-> P1]. rewrite P1 in *.
    destruct (I2 eq_refl) as [-> P2]. rewrite P2. simpl.
    repeat split; auto; discriminate.
Qed.

Lemma frames_reported ps n st : exists new, reported st (Logic.frames ps n st) new.
Proof.
  induction n as [|n [new1 IH]].
  - exists []. unfold reported. simpl. rewrite app_nil_r.
    destruct (Logic.isPlayingRef st); simpl; repeat split; auto; discriminate.
  - cbn [Logic.frames].
    destruct (frame_reported ps (Logic.frames ps n st)) as [new2 H2].
    exists (new1 ++ new2). exact (reported_trans _ _ _ _ _ IH H2).
Qed.

(** The callbacks keep the caller of the logic module up to date.  Over
    any number of frames the hook only appends to what it has told its
    caller; the score after the frames is the score of the last
    [onScoreUpdate] among the new calls, or the score before them when the
    frames removed nothing; [onGameOver] is called exactly once if the
    session was in play and is now over, as the last of the calls, and not
    at all otherwise; frames of a session that is not in play call nothing. *)
Theorem callbacks_report_the_session (ps : Logic.PlayerState) (n : nat) (st : Logic.State) :
  let st' := Logic.frames ps n st in
  exists new,
    Logic.calls st' = Logic.calls st ++ new
    /\ lastScore (Logic.scoreRef st) new = Logic.scoreRef st'
    /\ gameOvers new
       = (if Logic.isPlayingRef st && negb (Logic.isPlayingRef st') then 1 else 0)%nat
    /\ (Logic.isPlayingRef st = false -> new = [] /\ Logic.isPlayingRef st' = false)
    /\ (Logic.isPlayingRef st = true -> Logic.isPlayingRef st' = false ->
        exists pre, new = pre ++ [Logic.onGameOver]).
Proof. exact (frames_reported ps n st). Qed.


(** ** The input module *)

Lemma includes_In keys key : Controls.includes keys key = true <-> In key keys.
Proof.
  unfold Controls.includes. rewrite existsb_exists. split.
  - intros (k & Hin & E). apply String.eqb_eq in E. subst. exact Hin.
  - intros Hin. exists key. split; [exact Hin | apply String.eqb_refl].
Qed.

Lemma includes_values s key :
  Controls.includes (Controls.values s) key = true <->
  In key (Controls.moveLeft s) \/ In key (Controls.moveRight s)
  \/ In key (Controls.jump s) \/ In key (Controls.pause s)
  \/ In key (Controls.restart s).
Proof.
  rewrite includes_In. unfold Controls.values. rewrite !in_app_iff. tauto.
Qed.

(** The key handler of the input module.  Disabled, it does nothing.
    Enabled, it calls [preventDefault] exactly for the keys of the scheme's
    five lists, whether or not a callback is there to take them; a key of
    the move-left, move-right or jump list calls that callback, a key of the
    pause or restart list calls [onPause] or [onRestart] when it was given
    and is swallowed when it was not; any other key changes nothing.  Since
    no key belongs to two lists of a scheme, the order of the tests does not
    matter. *)
Theorem keys_dispatch_by_scheme {St : Type}
    (actions : Controls.ControlActions St) (name : Controls.SchemeName)
    (key : string) (st : St) :
  let s := Controls.CONTROL_SCHEMES name in
  let r := Controls.handleKeyDown actions (Controls.mkControlState true name) key st in
  Controls.handleKeyDown actions (Controls.mkControlState false name) key st = (st, false)
  /\ (snd r = true <->
      In key (Controls.moveLeft s) \/ In key (Controls.moveRight s)
      \/ In key (Controls.jump s) \/ In key (Controls.pause s)
      \/ In key (Controls.restart s))
  /\ (In key (Controls.moveLeft s) -> fst r = Controls.onMoveLeft actions st)
  /\ (In key (Controls.moveRight s) -> fst r = Controls.onMoveRight actions st)
  /\ (In key (Controls.jump s) -> fst r = Controls.onJump actions st)
  /\ (In key (Controls.pause s) ->
      fst r = match Controls.onPause actions with Some f => f st | None => st end)
  /\ (In key (Controls.restart s) ->
      fst r = match Controls.onRestart actions with Some f => f st | None => st end)
  /\ (snd r = false -> fst r = st)
  /\ List.NoDup (Controls.values s).
Proof.
  cbv zeta. split; [reflexivity|]. split; [apply includes_values|].
  repeat apply conj.
  - intros H. destruct name; simpl in H;
      repeat (destruct H as [<-|H]; [reflexivity|]); destruct H.
  - intros H. destruct name; simpl in H;
      repeat (destruct H as [<-|H]; [reflexivity|]); destruct H.
  - intros H. destruct name; simpl in H;
      repeat (destruct H as [<-|H]; [reflexivity|]); destruct H.
  - intros H. destruct name; simpl in H;
      repeat (destruct H as [<-|H];
              [cbn; destruct (Controls.onPause actions); reflexivity|]);
      destruct H.
  - intros H. destruct name; simpl in H;
      repeat (destruct H as [<-|H];
              [cbn; destruct (Controls.onPause actions), (Controls.onRestart actions);
               reflexivity|]);
      destruct H.
  - unfold Controls.handleKeyDown. cbn [Controls.isEnabled Controls.scheme negb fst snd].
    intros H.
    assert (Hn : forall l, (forall k, In k l -> In k (Controls.values (Controls.CONTROL_SCHEMES name))) ->
                           Controls.includes l key = false).
    { intros l Hl. apply not_true_iff_false. intros E. apply includes_In in E.
      apply Hl, includes_In in E. congruence. }
    unfold Controls.values in Hn.
    rewrite !Hn by (intros k Hk; rewrite !in_app_iff; tauto). reflexivity.
  - destruct name; cbn;
      repeat (apply List.NoDup_cons; [cbn; intuition discriminate|]);
      apply List.NoDup_nil.
Qed.


Ltac by_key key k :=
  destruct (String.eqb key k); cbn [orb]; cbv iota; [try reflexivity|].

(** The keyboard scheme is the component's own key map.  Under the
    default keyboard scheme the input module calls [onMoveLeft],
    [onMoveRight] and [onJump] for exactly the keys on which the [switch] of
    the monolithic component moves left, moves right and jumps; handed the
    component's three updates as callbacks and enabled while the session is
    displayed as playing, it changes the component's state exactly as the
    component's own handler does, on every key. *)
Theorem keyboard_scheme_is_the_component_key_map :
  (forall (St : Type) (actions : Controls.ControlActions St) (key : string) (st : St),
      let r := fst (Controls.handleKeyDown actions Controls.defaultControlState key st) in
      match Component.keyOf key with
      | Monolith.MoveLeft => r = Controls.onMoveLeft actions st
      | Monolith.MoveRight => r = Controls.onMoveRight actions st
      | Monolith.Jump => r = Controls.onJump actions st
      | Monolith.OtherKey =>
          r = st
          \/ (exists f, Controls.onPause actions = Some f /\ r = f st)
          \/ (exists f, Controls.onRestart actions = Some f /\ r = f st)
      end)
  /\ (forall (key : string) (st : Monolith.State),
        fst (Controls.handleKeyDown componentActions
               (Controls.mkControlState (Monolith.isPlaying (Monolith.gameState st))
                  Controls.keyboard)
               key st)
        = Monolith.handleKeyDown (Component.keyOf key) st).
Proof.
  split.
  - intros St actions key st. cbv zeta.
    unfold Controls.handleKeyDown, Component.keyOf, Controls.defaultControlState.
    cbn [Controls.isEnabled Controls.scheme negb fst Controls.CONTROL_SCHEMES
         Controls.moveLeft Controls.moveRight Controls.jump Controls.pause
         Controls.restart Controls.includes existsb].
    by_key key "ArrowLeft"%string. by_key key "a"%string. by_key key "A"%string.
    by_key key "ArrowRight"%string. by_key key "d"%string. by_key key "D"%string.
    by_key key "ArrowUp"%string. by_key key " "%string. by_key key "w"%string.
    by_key key "W"%string.
    destruct ((key =? "Escape")%string || ((key =? "p")%string || ((key =? "P")%string || false))),
      (Controls.onPause actions) as [f|] eqn:Ep;
      try (right; left; exists f; split; reflexivity);
      destruct ((key =? "r")%string || ((key =? "R")%string || false)),
        (Controls.onRestart actions) as [g|] eqn:Er;
      try (right; right; exists g; split; reflexivity);
      left; reflexivity.
  - intros key st.
    unfold Controls.handleKeyDown, Monolith.handleKeyDown, Component.keyOf.
    cbn [Controls.isEnabled Controls.scheme].
    destruct (negb (Monolith.isPlaying (Monolith.gameState st))); [reflexivity|].
    cbn [fst Controls.CONTROL_SCHEMES
         Controls.moveLeft Controls.moveRight Controls.jump Controls.pause
         Controls.restart Controls.includes existsb componentActions
         Controls.onMoveLeft Controls.onMoveRight Controls.onJump Controls.onPause
         Controls.onRestart].
    by_key key "ArrowLeft"%string. by_key key "a"%string. by_key key "A"%string.
    by_key key "ArrowRight"%string. by_key key "d"%string. by_key key "D"%string.
    by_key key "ArrowUp"%string. by_key key " "%string. by_key key "w"%string.
    by_key key "W"%string.
    destruct ((key =? "Escape")%string || ((key =? "p")%string || ((key =? "P")%string || false)));
      destruct ((key =? "r")%string || ((key =? "R")%string || false)); reflexivity.
Qed.

